(** * Translation-memory augmented decoder: fusion and ensemble logic

    Shallow embedding of
    [fairseq/models/transformer/transformer_decoder_with_TM_7_attn_2.py]
    (class [TransformerDecoderBaseWithTM]).

    Numbers: tensors of floats are nested lists of real numbers; every
    arithmetic operation is the exact one ([float32] rounding is not
    modelled, "within floating tolerance" reads as equality on [R]).

    Tensors: a tensor of shape [n x m x k] is a [list (list (list R))];
    sizes that the source reads with [.size()] are read from the nesting.

    Learned sub-modules ([nn.Linear], [LayerNorm], dropout, the feature
    extractor) are fields of the decoder record: arbitrary functions acting
    on one feature vector (one (position, batch) pair) at a time; dropout
    is one fixed function (the identity at inference). *)

From Stdlib Require Import String Ascii DecimalString DecimalNat.
From Stdlib Require Import FunctionalExtensionality.
From Stdlib Require Import Reals Lra Lia List Bool Arith PeanoNat Permutation.
Import ListNotations.

(* ------------------------------------------------------------------ *)
(** ** Failures *)

(** [IndexError]: Python indexing out of range.  [RuntimeError]: what
    PyTorch raises on a bad shape or a bad index. *)
Inductive error : Type := IndexError | RuntimeError.

Inductive result (A : Type) : Type :=
| Ok (a : A)
| Err (e : error).
Arguments Ok {A} a.
Arguments Err {A} e.

Definition bind {A B} (c : result A) (k : A -> result B) : result B :=
  match c with
  | Ok a => k a
  | Err e => Err e
  end.

Notation "x <- c ;; k" := (bind c (fun x => k))
  (at level 61, c at next level, right associativity).

Fixpoint mapM {A B} (f : A -> result B) (l : list A) : result (list B) :=
  match l with
  | [] => Ok []
  | a :: l' => b <- f a ;; bs <- mapM f l' ;; Ok (b :: bs)
  end.

(** [l[i]] on a Python list or tuple. *)
Definition get {A} (l : list A) (i : nat) : result A :=
  match nth_error l i with
  | Some a => Ok a
  | None => Err IndexError
  end.

(* ------------------------------------------------------------------ *)
(** ** Tensors as nested lists *)

Definition vec := list R.
Definition Tensor3 := list (list vec).

(** [tab n f] is [[f 0; ...; f (n-1)]]. *)
Definition tab {A} (n : nat) (f : nat -> A) : list A := map f (seq 0 n).
Definition tab2 {A} (n m : nat) (f : nat -> nat -> A) : list (list A) :=
  tab n (fun i => tab m (fun j => f i j)).
Definition tabM {A} (n : nat) (f : nat -> result A) : result (list A) :=
  mapM f (seq 0 n).

(** [t[i, j, :]]. *)
Definition at2 (t : Tensor3) (i j : nat) : vec := nth j (nth i t []) [].

(** [t.transpose(0, 1)] for [t] of shape [n x m x _]. *)
Definition transpose_0_1 (n m : nat) (t : Tensor3) : Tensor3 :=
  tab2 m n (fun j i => at2 t i j).

(** [t[:, b]]: the slice of batch element [b] out of a tensor whose
    second axis is the batch axis. *)
Definition select_batch {A} (d : A) (b : nat) (t : list (list A)) : list A :=
  map (fun row => nth b row d) t.

(** [t[:, cur_idx]] on a matrix. *)
Definition select_column (t : list (list R)) (cur_idx : nat) : result (list R) :=
  mapM (fun row => get row cur_idx) t.

(** [t[:, :, cur_idx]]. *)
Definition select_last (t : Tensor3) (cur_idx : nat) : result (list (list R)) :=
  mapM (fun m => select_column m cur_idx) t.

Definition Rsum (l : list R) : R := fold_right Rplus 0%R l.

(** [a + b] for two vectors of one width. *)
Definition vadd (a b : vec) : vec :=
  map (fun uv => (fst uv + snd uv)%R) (combine a b).

(** *** [torch.chunk]

    [chunk] cuts an axis of size [dim_size] into pieces of
    [split_size = ceil (dim_size / chunks)] entries, the last one shorter;
    it returns [max (ceil (dim_size / split_size)) 1] pieces, which can be
    fewer than [chunks]; an axis of size 0 yields [chunks] empty pieces;
    [chunks = 0] is refused. *)
Definition split_size (dim_size chunks : nat) : nat :=
  (dim_size + chunks - 1) / chunks.

Definition num_splits (dim_size ss : nat) : nat :=
  Nat.max ((dim_size + ss - 1) / ss) 1.

Definition narrow {A} (start len : nat) (l : list A) : list A :=
  firstn len (skipn start l).

Definition chunk_with {X} (narrow_x : nat -> nat -> X -> X)
    (dim_size : nat) (x : X) (chunks : nat) : result (list X) :=
  if chunks =? 0 then Err RuntimeError
  else
    let ss := split_size dim_size chunks in
    if (ss =? 0) && (dim_size =? 0) then Ok (repeat (narrow_x 0 0 x) chunks)
    else Ok (tab (num_splits dim_size ss) (fun k => narrow_x (k * ss) ss x)).

(** [t.chunk(chunks, dim=0)]. *)
Definition chunk_dim0 {A} (t : list A) (chunks : nat) : result (list (list A)) :=
  chunk_with narrow (length t) t chunks.

(** [t.chunk(chunks, dim=1)]. *)
Definition chunk_dim1 {A} (t : list (list A)) (chunks : nat)
  : result (list (list (list A))) :=
  chunk_with (fun start len => map (narrow start len)) (length (hd [] t)) t chunks.

(** *** [F.softmax] and [torch.log (p + 1e-12)] *)

Definition softmax (l : vec) : vec :=
  let z := Rsum (map exp l) in
  map (fun v => (exp v / z)%R) l.

Definition log_floor (p : R) : R := ln (p + 1e-12)%R.

Definition log_floor3 (t : Tensor3) : Tensor3 := map (map (map log_floor)) t.

(** *** [Tensor.scatter_add_] along the last axis, one row

    [self[index[j]] += src[j]] for every position [j] of [index]; refused
    when [index] is longer than [src] or holds an id outside [self]. *)
Fixpoint add_at (i : nat) (s : R) (self : vec) : vec :=
  match self, i with
  | [], _ => []
  | v :: rest, O => (v + s)%R :: rest
  | v :: rest, S i' => v :: add_at i' s rest
  end.

Fixpoint scatter_add_ (self : vec) (index : list nat) (src : vec) : result vec :=
  match index with
  | [] => Ok self
  | i :: index' =>
      match src with
      | [] => Err RuntimeError
      | s :: src' =>
          if i <? length self then scatter_add_ (add_at i s self) index' src'
          else Err RuntimeError
      end
  end.

(** *** [torch.stack] followed by a reduction over the stacked axis *)

Definition shape3 (t : Tensor3) : list (list nat) := map (map (@length R)) t.

Definition same_shape (p q : Tensor3) : bool :=
  if list_eq_dec (list_eq_dec Nat.eq_dec) (shape3 p) (shape3 q) then true else false.

(** Entry-wise combination of a non-empty list of tensors of one shape. *)
Definition stack_reduce (red : list R -> R) (ps : list Tensor3) : result Tensor3 :=
  match ps with
  | [] => Err RuntimeError
  | p :: _ =>
      if forallb (same_shape p) ps then
        Ok (tab (length p) (fun i =>
            tab (length (nth i p [])) (fun j =>
            tab (length (at2 p i j)) (fun v =>
              red (map (fun q => nth v (at2 q i j) 0%R) ps)))))
      else Err RuntimeError
  end.

(** [torch.sum(torch.stack(ps, dim=0), dim=0)]. *)
Definition stack_sum : list Tensor3 -> result Tensor3 := stack_reduce Rsum.

(** [torch.mean(torch.stack(ps, dim=3), dim=3)]. *)
Definition stack_mean : list Tensor3 -> result Tensor3 :=
  stack_reduce (fun l => (Rsum l / INR (length l))%R).

(** [probs * s[:, None, None]] with [probs] of shape [B x T x V] and [s] of
    shape [B']: PyTorch broadcasting over the first axis. *)
Definition mul_batch (probs : Tensor3) (s : list R) : result Tensor3 :=
  let n := length probs in
  let m := length s in
  if n =? m then
    Ok (tab n (fun b => map (map (fun p => (p * nth b s 0)%R)) (nth b probs [])))
  else if m =? 1 then
    Ok (map (map (map (fun p => (p * hd 0 s)%R))) probs)
  else if n =? 1 then
    Ok (tab m (fun b => map (map (fun p => (p * nth b s 0)%R)) (hd [] probs)))
  else Err RuntimeError.

(** [probs * w[:, :, None]] with [probs] of shape [B x T x V] and [w] of
    shape [B x T], both built with the same sizes. *)
Definition mul_position (bsz seq_len : nat) (probs : Tensor3) (w : list (list R))
  : Tensor3 :=
  tab2 bsz seq_len (fun b t =>
    map (fun p => (p * nth t (nth b w []) 0)%R) (at2 probs b t)).

(* ------------------------------------------------------------------ *)
(** ** The attention module

    [fairseq.modules.MultiheadAttention] is not part of the file under
    verification; the decoder uses it with one head wherever it reads the
    attention weights ([alignment_layer], and [learnable_p_attn] for the
    models [attention] and [attention_large]).  Its learned projections are
    kept abstract: [attn_score] is the scaled dot product of the projected
    query and key, [attn_output] the attended vector computed from the
    weights and the values. *)
Record attention : Type := {
  attn_score : vec -> vec -> R;
  attn_output : vec -> list R -> list vec -> vec
}.

(** Modelled from the spec: the softmax over the exemplar positions in which
    the positions marked by the padding mask are masked before the softmax,
    so that they receive weight zero whatever their raw score
    (section 4.1, "Attention-over-Memory unit"). *)
Definition masked_softmax (scores : list R) (key_padding_mask : list bool) : list R :=
  let e := map (fun js => if nth (fst js) key_padding_mask false
                          then 0%R else exp (snd js))
               (combine (seq 0 (length scores)) scores) in
  let z := Rsum e in
  map (fun v => (v / z)%R) e.

(** Modelled from the spec: the attention unit of section 4.1 for one query
    vector; it returns the attended output and the alignment weights, a
    softmax over the key positions, masked when a padding mask is given. *)
Definition MultiheadAttention (m : attention) (query : vec) (key : list vec)
    (key_padding_mask : option (list bool)) : vec * list R :=
  let scores := map (attn_score m query) key in
  let attn_weights :=
    match key_padding_mask with
    | Some mask => masked_softmax scores mask
    | None => softmax scores
    end in
  (attn_output m query attn_weights key, attn_weights).

(* ------------------------------------------------------------------ *)
(** ** The decoder object and its inputs *)

(** [encoder_out]: the entries the fusion reads (each is the element [0] of
    the list stored under its key).
    - [memory_encoder_out]: [S x B x C], the exemplars packed along [S];
    - [memory_encoder_padding_mask]: [B x S], [true] marks padding;
    - [TMs]: [S x B], the vocabulary id of each exemplar position;
    - [TMs_similarity]: [None], or [B x TM_num] scores. *)
Record EncoderOut : Type := {
  memory_encoder_out : Tensor3;
  memory_encoder_padding_mask : list (list bool);
  TMs : list (list nat);
  TMs_similarity : option (list (list R))
}.

(** The diagnostics dictionary returned by the feature extractor. *)
Record Extra : Type := {
  attn : list (option Tensor3);
  inner_states : list Tensor3
}.

Definition IncrementalState := list (string * list (string * option Tensor3)).

(** [self]: the configuration read by [__init__] and the sub-modules.
    - [adaptive_softmax]: [None] unless an adaptive softmax was built;
    - [diverter]: [nn.Linear(2 * embed_dim, 2)], the two gate logits;
    - [output_projection]: features to vocabulary logits;
    - [learnable_p_fc1], [learnable_p_fc2], [learnable_p_attn]: the
      weighting network of the configured [with_TM_learnable_p_model];
    - [extract_features]: the transformer stack, [B x T x C] features and
      the diagnostics, from [prev_output_tokens], [encoder_out],
      [incremental_state], [full_context_alignment], [alignment_layer] and
      [alignment_heads]. *)
Record TransformerDecoderBaseWithTM : Type := {
  with_TM_ensemble : bool;
  TM_num : nat;
  with_TM_learnable_p : bool;
  with_TM_learnable_p_model : option string;
  normalize_before : bool;
  adaptive_softmax : option unit;
  alignment_layer : attention;
  alignment_layer_norm : vec -> vec;
  diverter : vec -> R * R;
  ff_layer_1 : vec -> vec;
  ff_layer_2 : vec -> vec;
  ff_layer_norm : vec -> vec;
  activation_fn : vec -> vec;
  activation_dropout_module : vec -> vec;
  dropout_module : vec -> vec;
  output_projection : vec -> vec;
  learnable_p_fc1 : vec -> vec;
  learnable_p_fc2 : vec -> vec;
  learnable_p_attn : attention;
  extract_features :
    list (list nat) -> EncoderOut -> option IncrementalState ->
    bool -> option nat -> option nat -> Tensor3 * Extra
}.

(** [output_layer]. *)
Definition output_layer (self : TransformerDecoderBaseWithTM) (features : vec) : vec :=
  match adaptive_softmax self with
  | None => output_projection self features
  | Some _ => features
  end.

(** [self.with_TM_learnable_p_model == name]. *)
Definition model_is (self : TransformerDecoderBaseWithTM) (name : string) : bool :=
  match with_TM_learnable_p_model self with
  | Some s => String.eqb s name
  | None => false
  end.

(** Output width that [__init__] gives [learnable_p_fc2] (lines 223-271):
    [TM_num] for [unscalable_linear], [1] for [linear], [linear_large] and
    [attention_2]; the other models build no [learnable_p_fc2]. *)
Definition learnable_p_fc2_out_features (self : TransformerDecoderBaseWithTM)
  : option nat :=
  if with_TM_ensemble self && with_TM_learnable_p self then
    if model_is self "unscalable_linear" then Some (TM_num self)
    else if model_is self "attention" then None
    else if model_is self "linear" then Some 1
    else if model_is self "attention_large" then None
    else if model_is self "linear_large" then Some 1
    else if model_is self "attention_2" then Some 1
    else None
  else None.

(* ------------------------------------------------------------------ *)
(** ** The per-exemplar pipeline *)

(** The generate/copy computation for one (position, batch) pair: the block
    that [forward] repeats in every branch (lines 393-421, 446-474,
    542-570, 637-665, 737-765, 860-888, 933-961).  [index] is the row of
    [cur_copy_seq] for the batch element, [alignment_weight] the attention
    weights of the position over the exemplar. *)
Definition copy_generate_row (self : TransformerDecoderBaseWithTM)
    (clone_x attn attn_normalized : vec) (alignment_weight : list R)
    (index : list nat) : result vec :=
  let gates := softmax (let ab := diverter self (clone_x ++ attn_normalized) in
                        [fst ab; snd ab]) in
  let gen_gate := nth 0 gates 0%R in
  let copy_gate := nth 1 gates 0%R in
  let clone_x := alignment_layer_norm self (vadd clone_x attn) in
  let residual := clone_x in
  let clone_x := if normalize_before self then ff_layer_norm self clone_x else clone_x in
  let clone_x := activation_fn self (ff_layer_1 self clone_x) in
  let clone_x := activation_dropout_module self clone_x in
  let clone_x := ff_layer_2 self clone_x in
  let clone_x := dropout_module self clone_x in
  let clone_x := vadd clone_x residual in
  let clone_x := if negb (normalize_before self) then ff_layer_norm self clone_x else clone_x in
  let probs := map (fun p => (gen_gate * p)%R) (softmax (output_layer self clone_x)) in
  let copy_probs := map (fun a => (copy_gate * a)%R) alignment_weight in
  scatter_add_ probs index copy_probs.

(** [self.alignment_layer(x, cur_memory, cur_memory, key_padding_mask=...)]
    followed by [self.alignment_layer_norm(attn)]: the attended output
    ([T x B x C]), the alignment weights ([B x T x S]) and the normalized
    attended output, for [x] of shape [seq_len x bsz x C]. *)
Definition attend (self : TransformerDecoderBaseWithTM) (seq_len bsz : nat)
    (x cur_memory : Tensor3) (cur_memory_encoder_padding_mask : list (list bool))
  : Tensor3 * Tensor3 * Tensor3 :=
  let out t b :=
    MultiheadAttention (alignment_layer self) (at2 x t b)
      (select_batch [] b cur_memory)
      (Some (nth b cur_memory_encoder_padding_mask [])) in
  let attn := tab2 seq_len bsz (fun t b => fst (out t b)) in
  let alignment_weight := tab2 bsz seq_len (fun b t => snd (out t b)) in
  let attn_normalized :=
    tab2 seq_len bsz (fun t b => alignment_layer_norm self (at2 attn t b)) in
  (attn, alignment_weight, attn_normalized).

(** [t.transpose(0, 1).contiguous()] read in memory order, for a matrix
    [t] of token ids ([S x B']): its entries column after column.  A tensor
    has rows of one length; an entry that a row of the list lacks is left
    out, not made up. *)
Definition column {A} (b : nat) (t : list (list A)) : list A :=
  flat_map (fun row => match nth_error row b with
                       | Some a => [a]
                       | None => []
                       end) t.

Definition transpose_flat {A} (t : list (list A)) : list A :=
  concat (tab (length (hd [] t)) (fun b => column b t)).

(** [flat.view(1, bsz, -1)[0]]: the entries cut into [bsz] rows of one
    length; refused when [bsz] is zero or does not divide their number. *)
Definition view_1_bsz {A} (bsz : nat) (flat : list A) : result (list (list A)) :=
  if bsz =? 0 then Err RuntimeError
  else if length flat mod bsz =? 0 then
    let width := length flat / bsz in
    Ok (tab bsz (fun b => narrow (b * width) width flat))
  else Err RuntimeError.

(** [cur_copy_seq.transpose(0, 1).contiguous().view(1, bsz, -1)] (lines
    417, 470, 566, 661, 761, 884, 957): the row of ids that [scatter_add_]
    reads for every batch element; [expand] repeats it for every target
    position. *)
Definition copy_index (cur_copy_seq : list (list nat)) (bsz : nat)
  : result (list (list nat)) :=
  view_1_bsz bsz (transpose_flat cur_copy_seq).

(** Gates, feed-forward refinement, vocabulary projection and copy scatter
    for one exemplar: the probabilities before the logarithm, [T x B x V]. *)
Definition fuse (self : TransformerDecoderBaseWithTM) (seq_len bsz : nat)
    (x attn alignment_weight attn_normalized : Tensor3)
    (cur_copy_seq : list (list nat)) : result Tensor3 :=
  let alignment_weight := transpose_0_1 bsz seq_len alignment_weight in
  index <- copy_index cur_copy_seq bsz ;;
  tabM seq_len (fun t => tabM bsz (fun b =>
    copy_generate_row self (at2 x t b) (at2 attn t b) (at2 attn_normalized t b)
      (at2 alignment_weight t b) (nth b index []))).

(** Attention then fusion over one block of memory. *)
Definition TM_probs (self : TransformerDecoderBaseWithTM) (seq_len bsz : nat)
    (x cur_memory : Tensor3) (cur_memory_encoder_padding_mask : list (list bool))
    (cur_copy_seq : list (list nat)) : result Tensor3 :=
  let '(attn, alignment_weight, attn_normalized) :=
    attend self seq_len bsz x cur_memory cur_memory_encoder_padding_mask in
  fuse self seq_len bsz x attn alignment_weight attn_normalized cur_copy_seq.

(** The three [chunk] calls that open every ensemble branch. *)
Definition chunk_exemplars (self : TransformerDecoderBaseWithTM)
    (encoder_out : EncoderOut)
  : result (list Tensor3 * list (list (list bool)) * list (list (list nat))) :=
  TM_num_memorys <- chunk_dim0 (memory_encoder_out encoder_out) (TM_num self) ;;
  TM_num_memory_encoder_padding_masks <-
    chunk_dim1 (memory_encoder_padding_mask encoder_out) (TM_num self) ;;
  TM_num_copy_seqs <- chunk_dim0 (TMs encoder_out) (TM_num self) ;;
  Ok (TM_num_memorys, TM_num_memory_encoder_padding_masks, TM_num_copy_seqs).

(** One exemplar's probability tensor ([T x B x V]), computed on its own:
    the body of the loops of the similarity-weighted and of the plain
    ensemble branch up to [scatter_add_]. *)
Definition exemplar_probs (self : TransformerDecoderBaseWithTM) (seq_len bsz : nat)
    (x : Tensor3) (TM_num_memorys : list Tensor3)
    (TM_num_memory_encoder_padding_masks : list (list (list bool)))
    (TM_num_copy_seqs : list (list (list nat))) (cur_idx : nat) : result Tensor3 :=
  cur_memory <- get TM_num_memorys cur_idx ;;
  cur_memory_encoder_padding_mask <- get TM_num_memory_encoder_padding_masks cur_idx ;;
  let '(attn, alignment_weight, attn_normalized) :=
    attend self seq_len bsz x cur_memory cur_memory_encoder_padding_mask in
  cur_copy_seq <- get TM_num_copy_seqs cur_idx ;;
  fuse self seq_len bsz x attn alignment_weight attn_normalized cur_copy_seq.

(* ------------------------------------------------------------------ *)
(** ** The branches of [forward] *)

(** Sizes of the extracted features [x] ([B x T x C]). *)
Definition batch_size (x : Tensor3) : nat := length x.
Definition target_len (x : Tensor3) : nat := length (hd [] x).

(** Lines 383-425: [with_TM_ensemble] is off; the packed memory is one
    block.  [probs_without_ensemble] is [probs] after [scatter_add_]. *)
Definition probs_without_ensemble (self : TransformerDecoderBaseWithTM)
    (x : Tensor3) (encoder_out : EncoderOut) : result Tensor3 :=
  let bsz := batch_size x in
  let seq_len := target_len x in
  let x := transpose_0_1 bsz seq_len x in
  let memory := memory_encoder_out encoder_out in
  let memory_encoder_padding_mask := memory_encoder_padding_mask encoder_out in
  let copy_seq := TMs encoder_out in
  TM_probs self seq_len bsz x memory memory_encoder_padding_mask copy_seq.

Definition forward_without_ensemble (self : TransformerDecoderBaseWithTM)
    (x : Tensor3) (encoder_out : EncoderOut) : result Tensor3 :=
  probs <- probs_without_ensemble self x encoder_out ;;
  let lprobs := log_floor3 probs in
  let lprobs := transpose_0_1 (target_len x) (batch_size x) lprobs in
  Ok lprobs.

(** Lines 426-498: similarity scores are present. *)
Definition forward_similarity (self : TransformerDecoderBaseWithTM)
    (x : Tensor3) (encoder_out : EncoderOut) (similarity : list (list R))
  : result Tensor3 :=
  let bsz := batch_size x in
  let seq_len := target_len x in
  let x := transpose_0_1 bsz seq_len x in
  chunks <- chunk_exemplars self encoder_out ;;
  let '(TM_num_memorys, TM_num_memory_encoder_padding_masks, TM_num_copy_seqs) :=
    chunks in
  lprobs <- mapM (fun cur_idx =>
      probs <- exemplar_probs self seq_len bsz x TM_num_memorys
                 TM_num_memory_encoder_padding_masks TM_num_copy_seqs cur_idx ;;
      let probs := transpose_0_1 seq_len bsz probs in
      cur_TMs_similarity <- select_column similarity cur_idx ;;
      mul_batch probs cur_TMs_similarity)
    (seq 0 (TM_num self)) ;;
  final_lprobs <- stack_sum lprobs ;;
  Ok (log_floor3 final_lprobs).

(** First loop of the learned-weighting branches (lines 512-524, 597-609,
    705-717, 804-816): [attn_all], [alignment_weight_all] and
    [attn_normalized_all], one entry per exemplar. *)
Definition attend_all (self : TransformerDecoderBaseWithTM) (seq_len bsz : nat)
    (x : Tensor3) (TM_num_memorys : list Tensor3)
    (TM_num_memory_encoder_padding_masks : list (list (list bool)))
  : result (list (Tensor3 * Tensor3 * Tensor3)) :=
  mapM (fun cur_idx =>
      cur_memory <- get TM_num_memorys cur_idx ;;
      cur_memory_encoder_padding_mask <-
        get TM_num_memory_encoder_padding_masks cur_idx ;;
      Ok (attend self seq_len bsz x cur_memory cur_memory_encoder_padding_mask))
    (seq 0 (TM_num self)).

Definition attn_all (a : list (Tensor3 * Tensor3 * Tensor3)) : list Tensor3 :=
  map (fun r => fst (fst r)) a.
Definition attn_normalized_all (a : list (Tensor3 * Tensor3 * Tensor3))
  : list Tensor3 := map snd a.

(** [fc1], activation, activation dropout, [fc2], dropout (lines 527-530,
    720-723, 842-845), on one vector. *)
Definition learnable_p_mlp (self : TransformerDecoderBaseWithTM) (v : vec) : vec :=
  let v := activation_fn self (learnable_p_fc1 self v) in
  let v := activation_dropout_module self v in
  let v := learnable_p_fc2 self v in
  dropout_module self v.

(** Lines 526-532, model [unscalable_linear]: [B x T x TM_num]. *)
Definition learnable_p_unscalable_linear (self : TransformerDecoderBaseWithTM)
    (seq_len bsz : nat) (x : Tensor3) (a : list (Tensor3 * Tensor3 * Tensor3))
  : Tensor3 :=
  let input_for_learnable_p :=
    tab2 seq_len bsz (fun t b =>
      at2 x t b ++ concat (map (fun at_ => at2 at_ t b) (attn_all a))) in
  let input_for_learnable_p :=
    tab2 seq_len bsz (fun t b => learnable_p_mlp self (at2 input_for_learnable_p t b)) in
  let input_for_learnable_p := transpose_0_1 seq_len bsz input_for_learnable_p in
  tab2 bsz seq_len (fun b t => softmax (at2 input_for_learnable_p b t)).

(** Lines 613-627, models [attention] and [attention_large]: for every
    target position the attention weights of [learnable_p_attn] over the
    [TM_num] normalized attended outputs; [B x T x TM_num]. *)
Definition learnable_p_attention (self : TransformerDecoderBaseWithTM)
    (seq_len bsz : nat) (x : Tensor3) (a : list (Tensor3 * Tensor3 * Tensor3))
  : Tensor3 :=
  tab2 bsz seq_len (fun b T_idx =>
    let cur_x := at2 x T_idx b in
    let cur_clone_attn_normalized :=
      map (fun an => at2 an T_idx b) (attn_normalized_all a) in
    snd (MultiheadAttention (learnable_p_attn self) cur_x
           cur_clone_attn_normalized None)).

(** Lines 719-727, models [linear] and [linear_large]. *)
Definition learnable_p_linear (self : TransformerDecoderBaseWithTM)
    (seq_len bsz : nat) (x : Tensor3) (a : list (Tensor3 * Tensor3 * Tensor3))
  : Tensor3 :=
  let input_for_learnable_p :=
    map (fun attn_normalized =>
      let cur_learnable_p :=
        tab2 seq_len bsz (fun t b =>
          learnable_p_mlp self (at2 x t b ++ at2 attn_normalized t b)) in
      transpose_0_1 seq_len bsz cur_learnable_p)
    (attn_normalized_all a) in
  let input_for_learnable_p :=
    tab2 bsz seq_len (fun b t =>
      concat (map (fun p => at2 p b t) input_for_learnable_p)) in
  tab2 bsz seq_len (fun b t => softmax (at2 input_for_learnable_p b t)).

(** Lines 821-849, model [attention_2]. *)
Definition learnable_p_attention_2 (self : TransformerDecoderBaseWithTM)
    (seq_len bsz : nat) (x : Tensor3) (a : list (Tensor3 * Tensor3 * Tensor3))
  : Tensor3 :=
  let learnable_p_attn_all_cat :=
    tab2 seq_len bsz (fun T_idx b =>
      let cur_x := at2 x T_idx b in
      let cur_clone_attn_normalized :=
        map (fun an => at2 an T_idx b) (attn_normalized_all a) in
      fst (MultiheadAttention (learnable_p_attn self) cur_x
             cur_clone_attn_normalized None)) in
  let input_for_learnable_p :=
    map (fun cur_attn_normalized =>
      let cur_learnable_p :=
        tab2 seq_len bsz (fun t b =>
          learnable_p_mlp self
            (at2 x t b ++ at2 cur_attn_normalized t b
               ++ at2 learnable_p_attn_all_cat t b)) in
      transpose_0_1 seq_len bsz cur_learnable_p)
    (attn_normalized_all a) in
  let input_for_learnable_p :=
    tab2 bsz seq_len (fun b t =>
      concat (map (fun p => at2 p b t) input_for_learnable_p)) in
  tab2 bsz seq_len (fun b t => softmax (at2 input_for_learnable_p b t)).

(** Second loop of the learned-weighting branches and their end (lines
    534-582, 629-689, 729-789, 852-912). *)
Definition weighted_sum (self : TransformerDecoderBaseWithTM) (seq_len bsz : nat)
    (x : Tensor3) (a : list (Tensor3 * Tensor3 * Tensor3))
    (TM_num_memorys : list Tensor3)
    (TM_num_memory_encoder_padding_masks : list (list (list bool)))
    (TM_num_copy_seqs : list (list (list nat)))
    (input_for_learnable_p : Tensor3) : result Tensor3 :=
  lprobs <- mapM (fun cur_idx =>
      r <- get a cur_idx ;;
      let '(attn, alignment_weight, attn_normalized) := r in
      cur_memory <- get TM_num_memorys cur_idx ;;
      cur_memory_encoder_padding_mask <-
        get TM_num_memory_encoder_padding_masks cur_idx ;;
      cur_copy_seq <- get TM_num_copy_seqs cur_idx ;;
      probs <- fuse self seq_len bsz x attn alignment_weight attn_normalized
                 cur_copy_seq ;;
      let probs := transpose_0_1 seq_len bsz probs in
      cur_TMs_similarity <- select_last input_for_learnable_p cur_idx ;;
      Ok (mul_position bsz seq_len probs cur_TMs_similarity))
    (seq 0 (TM_num self)) ;;
  final_lprobs <- stack_sum lprobs ;;
  Ok (log_floor3 final_lprobs).

(** A learned-weighting branch: chunk, attend to every exemplar, compute
    the weights with [learnable_p], combine. *)
Definition forward_learnable_p (self : TransformerDecoderBaseWithTM)
    (learnable_p : TransformerDecoderBaseWithTM -> nat -> nat -> Tensor3 ->
                   list (Tensor3 * Tensor3 * Tensor3) -> Tensor3)
    (x : Tensor3) (encoder_out : EncoderOut) : result Tensor3 :=
  let bsz := batch_size x in
  let seq_len := target_len x in
  let x := transpose_0_1 bsz seq_len x in
  chunks <- chunk_exemplars self encoder_out ;;
  let '(TM_num_memorys, TM_num_memory_encoder_padding_masks, TM_num_copy_seqs) :=
    chunks in
  a <- attend_all self seq_len bsz x TM_num_memorys
         TM_num_memory_encoder_padding_masks ;;
  let input_for_learnable_p := learnable_p self seq_len bsz x a in
  weighted_sum self seq_len bsz x a TM_num_memorys
    TM_num_memory_encoder_padding_masks TM_num_copy_seqs input_for_learnable_p.

(** Lines 913-984: the last branch; [probs_ensemble] is the list [lprobs]
    of per-exemplar probability tensors ([T x B x V] each). *)
Definition probs_ensemble (self : TransformerDecoderBaseWithTM)
    (x : Tensor3) (encoder_out : EncoderOut) : result (list Tensor3) :=
  let bsz := batch_size x in
  let seq_len := target_len x in
  let x := transpose_0_1 bsz seq_len x in
  chunks <- chunk_exemplars self encoder_out ;;
  let '(TM_num_memorys, TM_num_memory_encoder_padding_masks, TM_num_copy_seqs) :=
    chunks in
  mapM (exemplar_probs self seq_len bsz x TM_num_memorys
          TM_num_memory_encoder_padding_masks TM_num_copy_seqs)
       (seq 0 (TM_num self)).

Definition forward_ensemble (self : TransformerDecoderBaseWithTM)
    (x : Tensor3) (encoder_out : EncoderOut) : result Tensor3 :=
  lprobs <- probs_ensemble self x encoder_out ;;
  final_lprobs <- stack_mean lprobs ;;
  let final_lprobs := log_floor3 final_lprobs in
  Ok (transpose_0_1 (target_len x) (batch_size x) final_lprobs).

(* ------------------------------------------------------------------ *)
(** ** [forward] *)

Definition is_not_None {A} (o : option A) : bool :=
  match o with Some _ => true | None => false end.

(** The seven blocks of the [if]/[elif] chain of [forward]. *)
Inductive branch : Type :=
| WithoutEnsemble
| SimilarityWeighted
| UnscalableLinear
| AttentionPooled
| PairwiseLinear
| AttentionTwo
| PlainEnsemble.

(** The conditions of the chain (lines 383, 426, 499, 583, 690, 790, 913),
    in their order. *)
Definition branch_taken (self : TransformerDecoderBaseWithTM)
    (encoder_out : EncoderOut) : branch :=
  let with_TM_ensemble := with_TM_ensemble self in
  let with_TM_learnable_p := with_TM_learnable_p self in
  if negb with_TM_ensemble then WithoutEnsemble
  else if with_TM_ensemble && is_not_None (TMs_similarity encoder_out)
  then SimilarityWeighted
  else if with_TM_ensemble && with_TM_learnable_p
          && model_is self "unscalable_linear"
  then UnscalableLinear
  else if with_TM_ensemble && with_TM_learnable_p
          && (model_is self "attention" || model_is self "attention_large")
  then AttentionPooled
  else if with_TM_ensemble && with_TM_learnable_p
          && (model_is self "linear" || model_is self "linear_large")
  then PairwiseLinear
  else if with_TM_ensemble && with_TM_learnable_p && model_is self "attention_2"
  then AttentionTwo
  else PlainEnsemble.

(** The body of each block. *)
Definition run_branch (self : TransformerDecoderBaseWithTM) (br : branch)
    (x : Tensor3) (encoder_out : EncoderOut) : result Tensor3 :=
  match br with
  | WithoutEnsemble => forward_without_ensemble self x encoder_out
  | SimilarityWeighted =>
      match TMs_similarity encoder_out with
      | Some similarity => forward_similarity self x encoder_out similarity
      | None => Err RuntimeError
      end
  | UnscalableLinear =>
      forward_learnable_p self learnable_p_unscalable_linear x encoder_out
  | AttentionPooled => forward_learnable_p self learnable_p_attention x encoder_out
  | PairwiseLinear => forward_learnable_p self learnable_p_linear x encoder_out
  | AttentionTwo => forward_learnable_p self learnable_p_attention_2 x encoder_out
  | PlainEnsemble => forward_ensemble self x encoder_out
  end.

(** [forward] (lines 317-984). *)
Definition forward (self : TransformerDecoderBaseWithTM)
    (prev_output_tokens : list (list nat)) (encoder_out : EncoderOut)
    (incremental_state : option IncrementalState) (features_only : bool)
    (full_context_alignment : bool) (alignment_layer alignment_heads : option nat)
    (src_lengths : option (list nat)) (return_all_hiddens : bool)
  : result (Tensor3 * Extra) :=
  let with_TM_ensemble := with_TM_ensemble self in
  let with_TM_learnable_p := with_TM_learnable_p self in
  let '(x, extra) :=
    extract_features self prev_output_tokens encoder_out incremental_state
      full_context_alignment alignment_layer alignment_heads in
  if negb with_TM_ensemble then
    lprobs <- forward_without_ensemble self x encoder_out ;; Ok (lprobs, extra)
  else
    match TMs_similarity encoder_out with
    | Some similarity =>
        final_lprobs <- forward_similarity self x encoder_out similarity ;;
        Ok (final_lprobs, extra)
    | None =>
        if with_TM_ensemble && with_TM_learnable_p
           && model_is self "unscalable_linear" then
          final_lprobs <-
            forward_learnable_p self learnable_p_unscalable_linear x encoder_out ;;
          Ok (final_lprobs, extra)
        else if with_TM_ensemble && with_TM_learnable_p
                && (model_is self "attention" || model_is self "attention_large") then
          final_lprobs <-
            forward_learnable_p self learnable_p_attention x encoder_out ;;
          Ok (final_lprobs, extra)
        else if with_TM_ensemble && with_TM_learnable_p
                && (model_is self "linear" || model_is self "linear_large") then
          final_lprobs <-
            forward_learnable_p self learnable_p_linear x encoder_out ;;
          Ok (final_lprobs, extra)
        else if with_TM_ensemble && with_TM_learnable_p
                && model_is self "attention_2" then
          final_lprobs <-
            forward_learnable_p self learnable_p_attention_2 x encoder_out ;;
          Ok (final_lprobs, extra)
        else
          final_lprobs <- forward_ensemble self x encoder_out ;;
          Ok (final_lprobs, extra)
    end.

(** [get_normalized_probs] and [get_normalized_probs_scriptable] (lines
    1205-1227).  [contiguous] changes the memory layout only. *)
Definition contiguous (t : Tensor3) : Tensor3 := t.

Definition get_normalized_probs_scriptable (self : TransformerDecoderBaseWithTM)
    (net_output : Tensor3 * Extra) (log_probs : bool)
    (sample : option (list (string * Tensor3))) : Tensor3 :=
  let logits := fst net_output in
  contiguous logits.

Definition get_normalized_probs (self : TransformerDecoderBaseWithTM)
    (net_output : Tensor3 * Extra) (log_probs : bool)
    (sample : option (list (string * Tensor3))) : Tensor3 :=
  get_normalized_probs_scriptable self net_output log_probs sample.

(* ------------------------------------------------------------------ *)
(** ** Vocabulary used by the statements *)

(** The weight function of a learned-weighting block of the chain. *)
Definition branch_learnable_p (br : branch)
  : option (TransformerDecoderBaseWithTM -> nat -> nat -> Tensor3 ->
            list (Tensor3 * Tensor3 * Tensor3) -> Tensor3) :=
  match br with
  | UnscalableLinear => Some learnable_p_unscalable_linear
  | AttentionPooled => Some learnable_p_attention
  | PairwiseLinear => Some learnable_p_linear
  | AttentionTwo => Some learnable_p_attention_2
  | _ => None
  end.



(** Among the first [S] positions of a mask row one is not padding. *)
Definition has_unpadded (S : nat) (mask_row : list bool) : bool :=
  existsb (fun j => negb (nth j mask_row false)) (seq 0 S).

(** Mass that [scatter_add_] moves to vocabulary id [v]. *)
Definition copy_mass (v : nat) (index : list nat) (src : vec) : R :=
  Rsum (map snd (filter (fun p => fst p =? v) (combine index src))).

(** Every row of [t] has [bsz] entries: [t] has shape [S x bsz]. *)
Definition batch_width {A} (bsz : nat) (t : list (list A)) : bool :=
  forallb (fun row => length row =? bsz) t.

(** The parts of [copy_generate_row], named: the two gates (lines 393-394),
    the state after the feed-forward refinement (lines 396-406) and the
    vocabulary softmax (line 409). *)
Definition gates (self : TransformerDecoderBaseWithTM)
    (clone_x attn_normalized : vec) : vec :=
  softmax (let ab := diverter self (clone_x ++ attn_normalized) in
           [fst ab; snd ab]).

Definition refined (self : TransformerDecoderBaseWithTM) (clone_x attn : vec)
  : vec :=
  let clone_x := alignment_layer_norm self (vadd clone_x attn) in
  let residual := clone_x in
  let clone_x := if normalize_before self then ff_layer_norm self clone_x else clone_x in
  let clone_x := activation_fn self (ff_layer_1 self clone_x) in
  let clone_x := activation_dropout_module self clone_x in
  let clone_x := ff_layer_2 self clone_x in
  let clone_x := dropout_module self clone_x in
  let clone_x := vadd clone_x residual in
  if negb (normalize_before self) then ff_layer_norm self clone_x else clone_x.

Definition vocab_softmax (self : TransformerDecoderBaseWithTM)
    (clone_x attn : vec) : vec :=
  softmax (output_layer self (refined self clone_x attn)).

(** Entry [v] of the probabilities of one block of memory at target
    position [t] and batch element [b], written out: the generate gate
    times the vocabulary softmax, plus the copy gate times the alignment
    weights of the positions of [index] whose id is [v]. *)
Definition fused_entry (self : TransformerDecoderBaseWithTM) (seq_len bsz : nat)
    (x cur_memory : Tensor3) (cur_memory_encoder_padding_mask : list (list bool))
    (index : list nat) (t b v : nat) : R :=
  let '(attn, alignment_weight, attn_normalized) :=
    attend self seq_len bsz x cur_memory cur_memory_encoder_padding_mask in
  let g := gates self (at2 x t b) (at2 attn_normalized t b) in
  (nth 0 g 0 * nth v (vocab_softmax self (at2 x t b) (at2 attn t b)) 0
   + copy_mass v index
       (map (fun a => nth 1 g 0 * a) (at2 alignment_weight b t)))%R.

(** Number of entries of the probability row of one block of memory at
    target position [t] and batch element [b]: the size of the axis that
    [output_layer] returns and [F.softmax] normalizes (the vocabulary when
    [output_layer] projects, the features when an adaptive softmax is
    configured). *)
Definition fused_width (self : TransformerDecoderBaseWithTM) (seq_len bsz : nat)
    (x cur_memory : Tensor3) (cur_memory_encoder_padding_mask : list (list bool))
    (t b : nat) : nat :=
  let '(attn, _, _) :=
    attend self seq_len bsz x cur_memory cur_memory_encoder_padding_mask in
  length (vocab_softmax self (at2 x t b) (at2 attn t b)).

(** [out] ([B x T] cells) is the logarithm, with the 1e-12 floor, of the
    fused probabilities of the [n] blocks of memory [mems], [masks], [seqs]
    summed with the weights [weight i b t]: every cell is as wide as the
    probability row, and entry [v] of the cell of batch element [b] and
    target position [t] is
    [log (sum_i weight i b t * fused_entry_i t b v + 1e-12)], the ids of
    block [i] being those that [copy_index] hands to [scatter_add_]. *)
Definition log_of_fused (self : TransformerDecoderBaseWithTM) (x : Tensor3)
    (mems : list Tensor3) (masks : list (list (list bool)))
    (seqs : list (list (list nat))) (n : nat) (weight : nat -> nat -> nat -> R)
    (out : Tensor3) : Prop :=
  let bsz := batch_size x in
  let seq_len := target_len x in
  let xT := transpose_0_1 bsz seq_len x in
  exists indices : list (list (list nat)),
    length indices = n
    /\ (forall i, i < n ->
          copy_index (nth i seqs []) bsz = Ok (nth i indices []))
    /\ length out = bsz
    /\ forall b, b < bsz ->
         length (nth b out []) = seq_len
         /\ forall t, t < seq_len ->
              length (at2 out b t)
              = fused_width self seq_len bsz xT (nth 0 mems []) (nth 0 masks [])
                  t b
              /\ forall v, v < length (at2 out b t) ->
                   nth v (at2 out b t) 0%R
                   = ln (Rsum (map (fun i =>
                                      (weight i b t
                                       * fused_entry self seq_len bsz xT
                                           (nth i mems []) (nth i masks [])
                                           (nth b (nth i indices []) [])
                                           t b v)%R)
                                   (seq 0 n))
                         + 1e-12)%R.

(* ------------------------------------------------------------------ *)
(** ** Concrete decoders and inputs

    A small decoder: every learned map is the identity or a constant, the
    vocabulary has [vocab] entries, the feature extractor embeds a token as
    a one-entry feature vector. *)
Definition toy_attention : attention := {|
  attn_score := fun _ _ => 0%R;
  attn_output := fun query _ _ => query
|}.

Definition toy_extra : Extra := {| attn := [None]; inner_states := [] |}.

Definition toy_decoder (ensemble : bool) (tm_num : nat) (learnable_p : bool)
    (model : option string) (vocab fc2_out : nat) : TransformerDecoderBaseWithTM := {|
  with_TM_ensemble := ensemble;
  TM_num := tm_num;
  with_TM_learnable_p := learnable_p;
  with_TM_learnable_p_model := model;
  normalize_before := false;
  adaptive_softmax := None;
  alignment_layer := toy_attention;
  alignment_layer_norm := fun v => v;
  diverter := fun _ => (0%R, 0%R);
  ff_layer_1 := fun v => v;
  ff_layer_2 := fun v => v;
  ff_layer_norm := fun v => v;
  activation_fn := fun v => v;
  activation_dropout_module := fun v => v;
  dropout_module := fun v => v;
  output_projection := fun _ => repeat 0%R vocab;
  learnable_p_fc1 := fun v => v;
  learnable_p_fc2 := fun _ => repeat 0%R fc2_out;
  learnable_p_attn := toy_attention;
  extract_features := fun prev_output_tokens _ _ _ _ _ =>
    (map (map (fun tok => [INR tok])) prev_output_tokens, toy_extra)
|}.

(** Two exemplars of two positions each, the last position padding; one
    batch element, vocabulary of three ids. *)
Definition toy_encoder_out (similarity : option (list (list R))) : EncoderOut := {|
  memory_encoder_out := [[[0%R]]; [[0%R]]; [[0%R]]; [[0%R]]];
  memory_encoder_padding_mask := [[false; false; false; true]];
  TMs := [[0]; [1]; [2]; [2]];
  TMs_similarity := similarity
|}.

(** Two batch elements: two exemplar positions with one id for each batch
    element ([TMs] is [2 x 2]); the second position of the second batch
    element is padding. *)
Definition two_batch_encoder_out : EncoderOut := {|
  memory_encoder_out := [[[0%R]; [0%R]]; [[0%R]; [0%R]]];
  memory_encoder_padding_mask := [[false; false]; [false; true]];
  TMs := [[0; 1]; [1; 2]];
  TMs_similarity := None
|}.

(** The small decoder without ensemble, with an adaptive softmax
    configured: its projection has three outputs, its features one entry. *)
Definition adaptive_decoder : TransformerDecoderBaseWithTM := {|
  with_TM_ensemble := false;
  TM_num := 2;
  with_TM_learnable_p := false;
  with_TM_learnable_p_model := None;
  normalize_before := false;
  adaptive_softmax := Some tt;
  alignment_layer := toy_attention;
  alignment_layer_norm := fun v => v;
  diverter := fun _ => (0%R, 0%R);
  ff_layer_1 := fun v => v;
  ff_layer_2 := fun v => v;
  ff_layer_norm := fun v => v;
  activation_fn := fun v => v;
  activation_dropout_module := fun v => v;
  dropout_module := fun v => v;
  output_projection := fun _ => repeat 0%R 3;
  learnable_p_fc1 := fun v => v;
  learnable_p_fc2 := fun _ => [];
  learnable_p_attn := toy_attention;
  extract_features := fun prev_output_tokens _ _ _ _ _ =>
    (map (map (fun tok => [INR tok])) prev_output_tokens, toy_extra)
|}.

(** Two exemplar positions, both holding id 0; one batch element. *)
Definition adaptive_encoder_out : EncoderOut := {|
  memory_encoder_out := [[[0%R]]; [[0%R]]];
  memory_encoder_padding_mask := [[false; false]];
  TMs := [[0]; [0]];
  TMs_similarity := None
|}.

(** Four exemplar positions and two batch elements in the memory, but ids
    for one batch element only ([TMs] is [4 x 1]). *)
Definition one_column_encoder_out : EncoderOut := {|
  memory_encoder_out :=
    [[[0%R]; [0%R]]; [[0%R]; [0%R]]; [[0%R]; [0%R]]; [[0%R]; [0%R]]];
  memory_encoder_padding_mask :=
    [[false; false; false; false]; [false; false; false; false]];
  TMs := [[0]; [1]; [2]; [0]];
  TMs_similarity := None
|}.

(** Three exemplar positions in all: not a multiple of [TM_num = 2]. *)
Definition odd_encoder_out : EncoderOut := {|
  memory_encoder_out := [[[0%R]]; [[0%R]]; [[0%R]]];
  memory_encoder_padding_mask := [[false; false; false]];
  TMs := [[0]; [1]; [2]];
  TMs_similarity := None
|}.

(** The scenario of the specification (section 8, item 6): one batch element,
    three target positions, ten vocabulary ids, two exemplars of four
    positions each, no padding, similarity scores 0.7 and 0.3. *)
Definition scenario_decoder : TransformerDecoderBaseWithTM :=
  toy_decoder true 2 false None 10 0.

Definition scenario_encoder_out : EncoderOut := {|
  memory_encoder_out :=
    [[[0%R]]; [[0%R]]; [[0%R]]; [[0%R]]; [[0%R]]; [[0%R]]; [[0%R]]; [[0%R]]];
  memory_encoder_padding_mask :=
    [[false; false; false; false; false; false; false; false]];
  TMs := [[4]; [7]; [7]; [9]; [1]; [4]; [0]; [3]];
  TMs_similarity := Some [[0.7; 0.3]%R]
|}.

Definition scenario_prev_output_tokens : list (list nat) := [[2; 5; 8]].

(** The same decoder with the flag [with_TM_ensemble] set to [flag]. *)
Definition set_with_TM_ensemble (flag : bool) (self : TransformerDecoderBaseWithTM)
  : TransformerDecoderBaseWithTM := {|
  with_TM_ensemble := flag;
  TM_num := TM_num self;
  with_TM_learnable_p := with_TM_learnable_p self;
  with_TM_learnable_p_model := with_TM_learnable_p_model self;
  normalize_before := normalize_before self;
  adaptive_softmax := adaptive_softmax self;
  alignment_layer := alignment_layer self;
  alignment_layer_norm := alignment_layer_norm self;
  diverter := diverter self;
  ff_layer_1 := ff_layer_1 self;
  ff_layer_2 := ff_layer_2 self;
  ff_layer_norm := ff_layer_norm self;
  activation_fn := activation_fn self;
  activation_dropout_module := activation_dropout_module self;
  dropout_module := dropout_module self;
  output_projection := output_projection self;
  learnable_p_fc1 := learnable_p_fc1 self;
  learnable_p_fc2 := learnable_p_fc2 self;
  learnable_p_attn := learnable_p_attn self;
  extract_features := extract_features self
|}.

(** No row of the padding mask is longer than the first one (the mask is a
    matrix). *)
Definition mask_is_matrix (mask : list (list bool)) : Prop :=
  Forall (fun row => length row <= length (hd [] mask)) mask.

(** [final_lprobs] of the similarity-weighted block after [torch.sum]
    (line 496), before the logarithm. *)
Definition summed_similarity (self : TransformerDecoderBaseWithTM)
    (x : Tensor3) (encoder_out : EncoderOut) (similarity : list (list R))
  : result Tensor3 :=
  let bsz := batch_size x in
  let seq_len := target_len x in
  let x := transpose_0_1 bsz seq_len x in
  chunks <- chunk_exemplars self encoder_out ;;
  let '(TM_num_memorys, TM_num_memory_encoder_padding_masks, TM_num_copy_seqs) :=
    chunks in
  lprobs <- mapM (fun cur_idx =>
      probs <- exemplar_probs self seq_len bsz x TM_num_memorys
                 TM_num_memory_encoder_padding_masks TM_num_copy_seqs cur_idx ;;
      let probs := transpose_0_1 seq_len bsz probs in
      cur_TMs_similarity <- select_column similarity cur_idx ;;
      mul_batch probs cur_TMs_similarity)
    (seq 0 (TM_num self)) ;;
  stack_sum lprobs.

(** [final_lprobs] of the plain ensemble block after [torch.mean]
    (line 973), before the logarithm ([T x B x V]). *)
Definition mean_ensemble (self : TransformerDecoderBaseWithTM)
    (x : Tensor3) (encoder_out : EncoderOut) : result Tensor3 :=
  lprobs <- probs_ensemble self x encoder_out ;;
  stack_mean lprobs.

(** The same decoder with other learned-weighting modules. *)
Definition set_learnable_p_modules (fc1 fc2 : vec -> vec) (attn : attention)
    (self : TransformerDecoderBaseWithTM) : TransformerDecoderBaseWithTM := {|
  with_TM_ensemble := with_TM_ensemble self;
  TM_num := TM_num self;
  with_TM_learnable_p := with_TM_learnable_p self;
  with_TM_learnable_p_model := with_TM_learnable_p_model self;
  normalize_before := normalize_before self;
  adaptive_softmax := adaptive_softmax self;
  alignment_layer := alignment_layer self;
  alignment_layer_norm := alignment_layer_norm self;
  diverter := diverter self;
  ff_layer_1 := ff_layer_1 self;
  ff_layer_2 := ff_layer_2 self;
  ff_layer_norm := ff_layer_norm self;
  activation_fn := activation_fn self;
  activation_dropout_module := activation_dropout_module self;
  dropout_module := dropout_module self;
  output_projection := output_projection self;
  learnable_p_fc1 := fc1;
  learnable_p_fc2 := fc2;
  learnable_p_attn := attn;
  extract_features := extract_features self
|}.

(** The same decoder with other values of [TM_num], [with_TM_learnable_p]
    and [with_TM_learnable_p_model]. *)
Definition set_TM_options (tm_num : nat) (learnable_p : bool)
    (model : option string) (self : TransformerDecoderBaseWithTM)
  : TransformerDecoderBaseWithTM := {|
  with_TM_ensemble := with_TM_ensemble self;
  TM_num := tm_num;
  with_TM_learnable_p := learnable_p;
  with_TM_learnable_p_model := model;
  normalize_before := normalize_before self;
  adaptive_softmax := adaptive_softmax self;
  alignment_layer := alignment_layer self;
  alignment_layer_norm := alignment_layer_norm self;
  diverter := diverter self;
  ff_layer_1 := ff_layer_1 self;
  ff_layer_2 := ff_layer_2 self;
  ff_layer_norm := ff_layer_norm self;
  activation_fn := activation_fn self;
  activation_dropout_module := activation_dropout_module self;
  dropout_module := dropout_module self;
  output_projection := output_projection self;
  learnable_p_fc1 := learnable_p_fc1 self;
  learnable_p_fc2 := learnable_p_fc2 self;
  learnable_p_attn := learnable_p_attn self;
  extract_features := extract_features self
|}.

(* ------------------------------------------------------------------ *)
(** ** Construction of the learned-weighting modules *)

(** What [__init__] builds for the learned weighting (lines 223-271):
    [(in_features, out_features)] of the two [nn.Linear] and the number of
    heads of the attention; [None] for a module that is not built. *)
Record LearnableP : Type := {
  fc1_features : option (nat * nat);
  fc2_features : option (nat * nat);
  attn_num_heads : option nat
}.

(** Lines 223-271 of [__init__], on the options already read; the result
    is [None] when the assertion of line 224 fails. *)
Definition init_learnable_p (self : TransformerDecoderBaseWithTM) (embed_dim : nat)
  : option LearnableP :=
  if with_TM_ensemble self && with_TM_learnable_p self then
    match with_TM_learnable_p_model self with
    | None => None
    | Some _ =>
        if model_is self "unscalable_linear" then
          Some {| fc1_features := Some (embed_dim * (TM_num self + 1), embed_dim * 4);
                  fc2_features := Some (embed_dim * 4, TM_num self);
                  attn_num_heads := None |}
        else if model_is self "attention" then
          Some {| fc1_features := None; fc2_features := None;
                  attn_num_heads := Some 1 |}
        else if model_is self "linear" then
          Some {| fc1_features := Some (embed_dim * 2, embed_dim * 4);
                  fc2_features := Some (embed_dim * 4, 1);
                  attn_num_heads := None |}
        else if model_is self "attention_large" then
          Some {| fc1_features := None; fc2_features := None;
                  attn_num_heads := Some 1 |}
        else if model_is self "linear_large" then
          Some {| fc1_features := Some (embed_dim * 2, embed_dim * 12);
                  fc2_features := Some (embed_dim * 12, 1);
                  attn_num_heads := None |}
        else if model_is self "attention_2" then
          Some {| fc1_features := Some (embed_dim * 3, embed_dim * 4);
                  fc2_features := Some (embed_dim * 4, 1);
                  attn_num_heads := Some 8 |}
        else
          Some {| fc1_features := None; fc2_features := None;
                  attn_num_heads := None |}
    end
  else
    Some {| fc1_features := None; fc2_features := None; attn_num_heads := None |}.

(** The vectors that the block [br] of [forward] passes to
    [learnable_p_fc1] at target position [t] and batch element [b] (the
    [torch.cat] of lines 526, 719 and 841), for [x] of shape
    [seq_len x bsz x C]. *)
Definition learnable_p_fc1_inputs (self : TransformerDecoderBaseWithTM)
    (br : branch) (x : Tensor3) (a : list (Tensor3 * Tensor3 * Tensor3))
    (t b : nat) : list vec :=
  match br with
  | UnscalableLinear =>
      [at2 x t b ++ concat (map (fun at_ => at2 at_ t b) (attn_all a))]
  | PairwiseLinear =>
      map (fun an => at2 x t b ++ at2 an t b) (attn_normalized_all a)
  | AttentionTwo =>
      let cur_clone_attn_normalized :=
        map (fun an => at2 an t b) (attn_normalized_all a) in
      let learnable_p_attn_all :=
        fst (MultiheadAttention (learnable_p_attn self) (at2 x t b)
               cur_clone_attn_normalized None) in
      map (fun an => at2 x t b ++ at2 an t b ++ learnable_p_attn_all)
          (attn_normalized_all a)
  | _ => []
  end.

(** The names that [__init__] and [forward] compare
    [with_TM_learnable_p_model] with. *)
Definition known_models : list string :=
  ["unscalable_linear"; "attention"; "linear"; "attention_large";
   "linear_large"; "attention_2"]%string.

(** An attention module whose output has [embed_dim] entries, and a
    decoder with the model [linear] built on it: two exemplars, features
    of one entry. *)
Definition const_attention (embed_dim : nat) : attention := {|
  attn_score := fun _ _ => 0%R;
  attn_output := fun _ _ _ => repeat 0%R embed_dim
|}.

Definition linear_decoder : TransformerDecoderBaseWithTM := {|
  with_TM_ensemble := true;
  TM_num := 2;
  with_TM_learnable_p := true;
  with_TM_learnable_p_model := Some "linear"%string;
  normalize_before := false;
  adaptive_softmax := None;
  alignment_layer := const_attention 1;
  alignment_layer_norm := fun v => v;
  diverter := fun _ => (0%R, 0%R);
  ff_layer_1 := fun v => v;
  ff_layer_2 := fun v => v;
  ff_layer_norm := fun v => v;
  activation_fn := fun v => v;
  activation_dropout_module := fun v => v;
  dropout_module := fun v => v;
  output_projection := fun _ => repeat 0%R 3;
  learnable_p_fc1 := fun _ => repeat 0%R 4;
  learnable_p_fc2 := fun _ => [0%R];
  learnable_p_attn := const_attention 1;
  extract_features := fun prev_output_tokens _ _ _ _ _ =>
    (map (map (fun tok => [INR tok])) prev_output_tokens, toy_extra)
|}.

(* ------------------------------------------------------------------ *)
(** ** The cached causal mask

    [buffered_future_mask] (lines 1143-1155) keeps the last mask in
    [self._future_mask] and rebuilds it when it is empty, on another
    device, or too small. *)

(** An entry of the mask: [0.] or [float("-inf")]. *)
Inductive mask_entry : Type := Zero | NegInf.

Inductive device : Type := cpu | cuda (index : nat).

Definition device_eqb (d1 d2 : device) : bool :=
  match d1, d2 with
  | cpu, cpu => true
  | cuda i, cuda j => i =? j
  | _, _ => false
  end.

(** [self._future_mask]: the rows of the tensor and its device;
    [torch.empty(0)] has no row. *)
Record FutureMask : Type := {
  mask_rows : list (list mask_entry);
  mask_device : device
}.

(** [self._future_mask = torch.empty(0)] (line 80). *)
Definition empty_future_mask : FutureMask :=
  {| mask_rows := []; mask_device := cpu |}.

(** [torch.triu(utils.fill_with_neg_inf(torch.zeros([dim, dim])), 1)]: the
    entries strictly above the diagonal keep [-inf], the others are set to
    zero. *)
Definition triu_neg_inf (dim : nat) : list (list mask_entry) :=
  tab2 dim dim (fun i j => if i <? j then NegInf else Zero).

(** [buffered_future_mask] on a tensor with [dim] rows on device [dev]: the
    new cache and the returned mask [self._future_mask[:dim, :dim]]. *)
Definition buffered_future_mask (_future_mask : FutureMask) (dim : nat)
    (dev : device) : FutureMask * list (list mask_entry) :=
  let _future_mask :=
    if (length (mask_rows _future_mask) =? 0)
       || negb (device_eqb (mask_device _future_mask) dev)
       || (length (mask_rows _future_mask) <? dim)
    then {| mask_rows := triu_neg_inf dim; mask_device := cpu |}
    else _future_mask in
  let _future_mask :=
    {| mask_rows := mask_rows _future_mask; mask_device := dev |} in
  (_future_mask, map (firstn dim) (firstn dim (mask_rows _future_mask))).

(** The cache after a sequence of calls, each given by the number of rows
    and the device of its tensor. *)
Definition future_mask_after (calls : list (nat * device)) : FutureMask :=
  fold_left (fun m c => fst (buffered_future_mask m (fst c) (snd c)))
            calls empty_future_mask.

(* ------------------------------------------------------------------ *)
(** ** The stack of layers

    [__init__] builds [cfg.decoder.layers] decoder layers (lines 131-141)
    and, when no output projection is passed in, calls
    [build_output_projection], which inserts [cfg.base_layers] layers of
    class [BaseLayer] (lines 297-303). *)

(** A module of [self.layers]: the [k]-th decoder layer built, or the
    [i]-th [BaseLayer] inserted. *)
Inductive layer : Type :=
| DecoderLayer (k : nat)
| BaseLayer (i : nat).

Definition is_decoder_layer (m : layer) : bool :=
  match m with DecoderLayer _ => true | BaseLayer _ => false end.

(** [ModuleList.insert(index, module)] for [index <= len]: the modules from
    [index] on move up by one.  (Beyond [len] the library would leave a
    gap; [base_layer_index] never goes there.) *)
Definition insert {A} (index : nat) (module : A) (l : list A) : list A :=
  firstn index l ++ module :: skipn index l.

(** The index of line 300. *)
Definition base_layer_index (decoder_layers num_base_layers i : nat) : nat :=
  ((i + 1) * decoder_layers) / (num_base_layers + 1).

(** The loop of lines 298-303, its first [n] rounds. *)
Definition insert_base_layers (decoder_layers num_base_layers n : nat)
    (layers : list layer) : list layer :=
  fold_left (fun layers i =>
               insert (base_layer_index decoder_layers num_base_layers i)
                      (BaseLayer i) layers)
            (seq 0 n) layers.

Record LayerStack : Type := {
  layers : list layer;
  num_layers : nat
}.

(** Lines 131-149 of [__init__] with the loop of
    [build_output_projection]; [output_projection] tells whether the
    caller passed a projection. *)
Definition init_layers (decoder_layers base_layers : nat)
    (output_projection : option unit) : LayerStack :=
  let layers := tab decoder_layers DecoderLayer in
  let num_layers := length layers in
  let layers :=
    match output_projection with
    | None => insert_base_layers decoder_layers base_layers base_layers layers
    | Some _ => layers
    end in
  {| layers := layers; num_layers := num_layers |}.

(* ------------------------------------------------------------------ *)
(** ** The configuration file

    [__init__] reads [self.configs] from a text file when the file exists
    (lines 190-202) and takes the four options of the fusion from it
    (lines 203-221).  [str.strip], [str.lower] and [int] are the library's;
    they are arguments of the definitions. *)

Inductive init_error : Type := ValueError | AssertionError.

Inductive init_result (A : Type) : Type :=
| Built (a : A)
| Raised (e : init_error).
Arguments Built {A} a.
Arguments Raised {A} e.

(** [s.split(sep)] for a separator of one character. *)
Fixpoint str_split (sep : ascii) (s : string) : list string :=
  match s with
  | EmptyString => [EmptyString]
  | String c s' =>
      if Ascii.eqb c sep then EmptyString :: str_split sep s'
      else match str_split sep s' with
           | part :: parts => String c part :: parts
           | [] => [String c EmptyString]
           end
  end.

(** Number of occurrences of a character. *)
Fixpoint count_char (c : ascii) (s : string) : nat :=
  match s with
  | EmptyString => 0
  | String c' s' => (if Ascii.eqb c' c then 1 else 0) + count_char c s'
  end.

(** [self.configs], a [dict] from strings to strings, as its lookup. *)
Definition Configs : Type := string -> option string.

Definition empty_configs : Configs := fun _ => None.

(** [self.configs[key] = value]. *)
Definition set_config (key value : string) (configs : Configs) : Configs :=
  fun k => if String.eqb k key then Some value else configs k.

(** The loop of lines 194-198 over the lines of the file. *)
Fixpoint read_configs (strip : string -> string) (lines : list string)
    (configs : Configs) : init_result Configs :=
  match lines with
  | [] => Built configs
  | line :: lines =>
      if String.eqb (strip line) "" then read_configs strip lines configs
      else
        match str_split "=" (strip line) with
        | [key; value] => read_configs strip lines (set_config key value configs)
        | _ => Raised ValueError
        end
  end.

(** Lines 190-200; [config_file] is [None] when the path does not exist,
    and the result of [readlines()] otherwise. *)
Definition load_configs (strip : string -> string)
    (config_file : option (list string)) : init_result Configs :=
  match config_file with
  | None => Built empty_configs
  | Some lines => read_configs strip lines empty_configs
  end.

Record Options : Type := {
  opt_with_TM_ensemble : bool;
  opt_TM_num : Z;
  opt_with_TM_learnable_p : bool;
  opt_with_TM_learnable_p_model : option string
}.

(** Lines 203-208 and 213-218: a flag given as [true] or [false] in any
    case of the letters; anything else fails the assertion. *)
Definition parse_flag (lower : string -> string) (configs : Configs)
    (key : string) : init_result bool :=
  match configs key with
  | Some value =>
      if String.eqb (lower value) "true" || String.eqb (lower value) "false"
      then Built (String.eqb (lower value) "true")
      else Raised AssertionError
  | None => Built false
  end.

(** Lines 203-221. *)
Definition init_options (lower : string -> string) (int : string -> option Z)
    (configs : Configs) : init_result Options :=
  match parse_flag lower configs "with_TM_ensemble" with
  | Raised e => Raised e
  | Built with_TM_ensemble =>
      match (match configs "TM_num"%string with
             | Some value =>
                 match int value with
                 | Some n => Built n
                 | None => Raised ValueError
                 end
             | None => Built 5%Z
             end) with
      | Raised e => Raised e
      | Built TM_num =>
          match parse_flag lower configs "with_TM_learnable_p" with
          | Raised e => Raised e
          | Built with_TM_learnable_p =>
              Built {| opt_with_TM_ensemble := with_TM_ensemble;
                       opt_TM_num := TM_num;
                       opt_with_TM_learnable_p := with_TM_learnable_p;
                       opt_with_TM_learnable_p_model :=
                         configs "with_TM_learnable_p_model"%string |}
          end
      end
  end.

(** The four keys that [__init__] looks up. *)
Definition option_keys : list string :=
  ["with_TM_ensemble"; "TM_num"; "with_TM_learnable_p";
   "with_TM_learnable_p_model"]%string.

(** The text of a line that sets [key]: [key=value]. *)
Definition config_line (key value : string) : string :=
  (key ++ String "=" value)%string.

(* ------------------------------------------------------------------ *)
(** ** Upgrading a state dict

    [upgrade_state_dict_named] (lines 1157-1202) renames the entries of
    old checkpoints.  A state dict is given by its lookup; a value is the
    list of the entries of a tensor. *)

Definition StateDict : Type := string -> option vec.

(** [state_dict[key] = value] and [del state_dict[key]]. *)
Definition dict_set (key : string) (value : vec) (state_dict : StateDict)
  : StateDict :=
  fun k => if String.eqb k key then Some value else state_dict k.

Definition dict_del (key : string) (state_dict : StateDict) : StateDict :=
  fun k => if String.eqb k key then None else state_dict k.

(** [str(i)] for a number of [range]: its decimal digits ([Nat.to_uint]
    gives at least one digit). *)
Definition str_of_nat (i : nat) : string :=
  NilEmpty.string_of_uint (Nat.to_uint i).

(** ["{}.layers.{}.{}".format(name, i, rest)]. *)
Definition layer_key (name : string) (i : nat) (rest : string) : string :=
  (name ++ ".layers." ++ str_of_nat i ++ String "." rest)%string.

(** The keys of lines 1182 and 1185. *)
Definition old_layer_norm_key (name : string) (i : nat) (old m : string) : string :=
  layer_key name i ("layer_norms." ++ old ++ String "." m).

Definition new_layer_norm_key (name : string) (i : nat) (new m : string) : string :=
  layer_key name i (new ++ String "." m).

Definition layer_norm_map : list (string * string) :=
  [("0", "self_attn_layer_norm"); ("1", "encoder_attn_layer_norm");
   ("2", "final_layer_norm")]%string.

(** Lines 1183-1187: move the value of an old key to its new key. *)
Definition rename_key (k new_k : string) (state_dict : StateDict) : StateDict :=
  match state_dict k with
  | Some value => dict_del k (dict_set new_k value state_dict)
  | None => state_dict
  end.

(** The loops of lines 1173-1187. *)
Definition upgrade_layer_norms (name : string) (num_layers : nat)
    (state_dict : StateDict) : StateDict :=
  fold_left (fun state_dict i =>
    fold_left (fun state_dict old_new =>
      fold_left (fun state_dict m =>
          rename_key (old_layer_norm_key name i (fst old_new) m)
                     (new_layer_norm_key name i (snd old_new) m) state_dict)
        ["weight"; "bias"]%string state_dict)
      layer_norm_map state_dict)
    (seq 0 num_layers) state_dict.

(** Lines 1159-1165. *)
Definition upgrade_embed_positions (sinusoidal : bool) (uninitialized : R)
    (name : string) (state_dict : StateDict) : StateDict :=
  if sinusoidal then
    let weights_key := (name ++ ".embed_positions.weights")%string in
    let state_dict :=
      match state_dict weights_key with
      | Some _ => dict_del weights_key state_dict
      | None => state_dict
      end in
    dict_set (name ++ ".embed_positions._float_tensor")%string [uninitialized]
      state_dict
  else state_dict.

(** Lines 1167-1178. *)
Definition upgrade_output_projection (share_input_output_embed : bool)
    (name : string) (state_dict : StateDict) : StateDict :=
  match state_dict (name ++ ".output_projection.weight")%string with
  | None =>
      let embed_out_key :=
        if share_input_output_embed then (name ++ ".embed_tokens.weight")%string
        else (name ++ ".embed_out")%string in
      match state_dict embed_out_key with
      | Some value =>
          let state_dict :=
            dict_set (name ++ ".output_projection.weight")%string value
              state_dict in
          if negb share_input_output_embed then dict_del embed_out_key state_dict
          else state_dict
      | None => state_dict
      end
  | Some _ => state_dict
  end.

(** Lines 1189-1195: the new state dict and whether [self.layer_norm] was
    set to [None]. *)
Definition upgrade_version (name : string) (state_dict : StateDict)
  : result (StateDict * bool) :=
  let version_key := (name ++ ".version")%string in
  let version :=
    match state_dict version_key with
    | Some value => value
    | None => [1%R]
    end in
  item <- get version 0 ;;
  if Rle_dec item 2 then Ok (dict_set version_key [1%R] state_dict, true)
  else Ok (state_dict, false).

(** [upgrade_state_dict_named]; [sinusoidal] tells whether
    [self.embed_positions] is a [SinusoidalPositionalEmbedding],
    [uninitialized] is the entry of [torch.FloatTensor(1)]. *)
Definition upgrade_state_dict_named (sinusoidal share_input_output_embed : bool)
    (num_layers : nat) (uninitialized : R)
    (state_dict : StateDict) (name : string) : result (StateDict * bool) :=
  let state_dict := upgrade_embed_positions sinusoidal uninitialized name state_dict in
  let state_dict := upgrade_output_projection share_input_output_embed name state_dict in
  let state_dict := upgrade_layer_norms name num_layers state_dict in
  upgrade_version name state_dict.

(** The pairs (old key, new key) in the order in which the loops of lines
    1173-1187 meet them, and the renaming of a list of pairs in order. *)
Definition layer_norm_renames (name : string) (num_layers : nat)
  : list (string * string) :=
  flat_map (fun i =>
    flat_map (fun old_new =>
      map (fun m => (old_layer_norm_key name i (fst old_new) m,
                     new_layer_norm_key name i (snd old_new) m))
          ["weight"; "bias"]%string)
      layer_norm_map)
    (seq 0 num_layers).

Definition rename_all (renames : list (string * string)) (state_dict : StateDict)
  : StateDict :=
  fold_left (fun state_dict r => rename_key (fst r) (snd r) state_dict)
            renames state_dict.

(** The keys outside [layers] that [upgrade_state_dict_named] reads or
    writes. *)
Definition fixed_suffixes : list string :=
  [".embed_positions.weights"; ".embed_positions._float_tensor";
   ".output_projection.weight"; ".embed_tokens.weight"; ".embed_out";
   ".version"]%string.

(** A checkpoint of the old format: one layer norm of layer 0 under its
    old key, the output embedding under [embed_out], no version. *)
Definition old_state_dict : StateDict :=
  dict_set "decoder.layers.0.layer_norms.0.weight" [2%R]
    (dict_set "decoder.embed_out" [3%R] (fun _ => None)).

(* ================================================================== *)
(** * Properties *)

(** ** The failure monad and tabulated lists *)

Lemma bind_Ok {A B} (c : result A) (k : A -> result B) (b : B) :
  bind c k = Ok b -> exists a, c = Ok a /\ k a = Ok b.
Proof.
  destruct c as [a | e]; simpl; intros H.
  - exists a; split; [reflexivity | exact H].
  - discriminate.
Qed.

Lemma mapM_Ok {A B} (f : A -> result B) (l : list A) (r : list B) :
  mapM f l = Ok r ->
  length r = length l /\
  forall i a b, i < length l -> f (nth i l a) = Ok (nth i r b).
Proof.
  revert r. induction l as [| x l IH]; simpl; intros r H.
  - injection H as <-. split; [reflexivity | intros; lia].
  - apply bind_Ok in H as (y & Hy & H).
    apply bind_Ok in H as (ys & Hys & H).
    injection H as <-.
    destruct (IH _ Hys) as [Hlen Hnth].
    split; [simpl; congruence |].
    intros [| i] a b Hi; simpl.
    + exact Hy.
    + apply Hnth. lia.
Qed.

Lemma mapM_Err {A B} (f : A -> result B) (l : list A) (a : A) (e : error) :
  In a l -> f a = Err e -> exists e', mapM f l = Err e'.
Proof.
  induction l as [| x l IH]; simpl; [tauto |].
  intros [-> | Hin] Ha.
  - rewrite Ha. eexists; reflexivity.
  - destruct (f x) as [y | e0]; simpl; [| eexists; reflexivity].
    destruct (IH Hin Ha) as [e' ->]. eexists; reflexivity.
Qed.

Lemma mapM_total {A B} (f : A -> result B) (l : list A) :
  (forall a, In a l -> exists b, f a = Ok b) -> exists r, mapM f l = Ok r.
Proof.
  induction l as [| x l IH]; simpl; intros H.
  - eexists; reflexivity.
  - destruct (H x (or_introl eq_refl)) as [y ->].
    destruct IH as [r ->]; [intros a Ha; apply H; right; exact Ha |].
    eexists; reflexivity.
Qed.

Lemma get_Ok {A} (l : list A) (i : nat) (a d : A) :
  get l i = Ok a -> i < length l /\ nth i l d = a.
Proof.
  unfold get. destruct (nth_error l i) as [a' |] eqn:E; [| discriminate].
  intros H; injection H as <-. split.
  - apply nth_error_Some. congruence.
  - apply nth_error_nth. exact E.
Qed.

Lemma get_lt {A} (l : list A) (i : nat) (d : A) :
  i < length l -> get l i = Ok (nth i l d).
Proof.
  intros H. unfold get.
  rewrite (nth_error_nth' l d H). reflexivity.
Qed.

Lemma get_ge {A} (l : list A) (i : nat) :
  length l <= i -> get l i = Err IndexError.
Proof.
  intros H. unfold get.
  apply nth_error_None in H. rewrite H. reflexivity.
Qed.

Lemma length_tab {A} (n : nat) (f : nat -> A) : length (tab n f) = n.
Proof. unfold tab. rewrite length_map, length_seq. reflexivity. Qed.

Lemma nth_tab {A} (n : nat) (f : nat -> A) (i : nat) (d : A) :
  i < n -> nth i (tab n f) d = f i.
Proof.
  intros H. unfold tab.
  rewrite (nth_indep _ d (f 0)) by (rewrite length_map, length_seq; exact H).
  rewrite (map_nth f (seq 0 n) 0 i), seq_nth by exact H. reflexivity.
Qed.

Lemma at2_tab2 (n m : nat) (f : nat -> nat -> vec) (i j : nat) :
  i < n -> j < m -> at2 (tab2 n m f) i j = f i j.
Proof.
  intros Hi Hj. unfold at2, tab2.
  rewrite nth_tab by exact Hi. apply nth_tab. exact Hj.
Qed.

Lemma at2_transpose (n m : nat) (t : Tensor3) (i j : nat) :
  i < n -> j < m -> at2 (transpose_0_1 n m t) j i = at2 t i j.
Proof. intros Hi Hj. unfold transpose_0_1. rewrite at2_tab2 by assumption. reflexivity. Qed.

Lemma tabM_Ok {A} (n : nat) (f : nat -> result A) (r : list A) :
  tabM n f = Ok r ->
  length r = n /\ forall i d, i < n -> f i = Ok (nth i r d).
Proof.
  unfold tabM. intros H. apply mapM_Ok in H as [Hlen Hnth].
  rewrite length_seq in Hlen, Hnth. split; [exact Hlen |].
  intros i d Hi. specialize (Hnth i 0 d Hi).
  rewrite seq_nth in Hnth by exact Hi. exact Hnth.
Qed.

Lemma tabM_total {A} (n : nat) (f : nat -> result A) :
  (forall i, i < n -> exists a, f i = Ok a) -> exists r, tabM n f = Ok r.
Proof.
  intros H. apply mapM_total. intros i Hi.
  apply in_seq in Hi. apply H. lia.
Qed.

Lemma tab_ext {A} (n : nat) (f g : nat -> A) :
  (forall i, i < n -> f i = g i) -> tab n f = tab n g.
Proof.
  intros H. unfold tab. apply map_ext_in. intros i Hi.
  apply in_seq in Hi. apply H. lia.
Qed.

Lemma tab2_ext {A} (n m : nat) (f g : nat -> nat -> A) :
  (forall i j, i < n -> j < m -> f i j = g i j) -> tab2 n m f = tab2 n m g.
Proof.
  intros H. unfold tab2. apply tab_ext. intros i Hi.
  apply tab_ext. intros j Hj. apply H; assumption.
Qed.

Lemma tabM_ext {A} (n : nat) (f g : nat -> result A) :
  (forall i, i < n -> f i = g i) -> tabM n f = tabM n g.
Proof.
  intros H. unfold tabM.
  assert (E : forall l, (forall i, In i l -> f i = g i) -> mapM f l = mapM g l).
  { induction l as [| a l IH]; intros Hl; [reflexivity |].
    simpl. rewrite (Hl a (or_introl eq_refl)).
    rewrite IH by (intros i Hi; apply Hl; right; exact Hi). reflexivity. }
  apply E. intros i Hi. apply in_seq in Hi. apply H. lia.
Qed.

Lemma nth_map_lt {A B} (f : A -> B) (l : list A) (i : nat) (d : A) (d' : B) :
  i < length l -> nth i (map f l) d' = f (nth i l d).
Proof.
  intros H. rewrite (nth_indep _ d' (f d)) by (rewrite length_map; exact H).
  apply map_nth.
Qed.



(** ** The library operations on small inputs *)

Example chunk_7_into_2 :
  chunk_dim0 [1; 2; 3; 4; 5; 6; 7] 2 = Ok [[1; 2; 3; 4]; [5; 6; 7]].
Proof. reflexivity. Qed.

Example chunk_5_into_4 :
  chunk_dim0 [1; 2; 3; 4; 5] 4 = Ok [[1; 2]; [3; 4]; [5]].
Proof. reflexivity. Qed.

Example chunk_6_into_3 :
  chunk_dim0 [1; 2; 3; 4; 5; 6] 3 = Ok [[1; 2]; [3; 4]; [5; 6]].
Proof. reflexivity. Qed.

Example chunk_empty_into_3 : chunk_dim0 (@nil nat) 3 = Ok [[]; []; []].
Proof. reflexivity. Qed.

Example chunk_into_0 : chunk_dim0 [1; 2] 0 = Err RuntimeError.
Proof. reflexivity. Qed.

Example chunk_mask_columns :
  chunk_dim1 [[true; false; false]; [false; false; true]] 2
  = Ok [[[true; false]; [false; false]]; [[false]; [true]]].
Proof. reflexivity. Qed.

Example scatter_add_accumulates (a b c : R) :
  scatter_add_ [0; 0; 0]%R [2; 0; 2] [a; b; c]
  = Ok [(0 + b)%R; 0%R; (0 + a + c)%R].
Proof. reflexivity. Qed.

Example scatter_add_bad_id (a : R) :
  scatter_add_ [0; 0; 0]%R [3] [a] = Err RuntimeError.
Proof. reflexivity. Qed.

Example transpose_2_by_1 (u v : vec) :
  transpose_0_1 2 1 [[u]; [v]] = [[u; v]].
Proof. reflexivity. Qed.

(** ** Sums, softmax and the masked softmax *)

Lemma Rsum_scale (c : R) (l : list R) :
  Rsum (map (fun a => (c * a)%R) l) = (c * Rsum l)%R.
Proof.
  induction l as [| a l IH]; simpl; [lra |]. rewrite IH. lra.
Qed.

Lemma Rsum_map_div {A} (f : A -> R) (z : R) (l : list A) :
  Rsum (map (fun a => (f a / z)%R) l) = (Rsum (map f l) / z)%R.
Proof.
  induction l as [| a l IH]; simpl; [lra |]. rewrite IH. lra.
Qed.

Lemma Rsum_nonneg (l : list R) : Forall (fun a => (0 <= a)%R) l -> (0 <= Rsum l)%R.
Proof.
  induction 1 as [| a l Ha _ IH]; simpl; lra.
Qed.

Lemma Rsum_pos (l : list R) :
  Forall (fun a => (0 <= a)%R) l -> Exists (fun a => (0 < a)%R) l -> (0 < Rsum l)%R.
Proof.
  intros Hall Hex. induction Hex as [a l Ha | a l _ IH].
  - inversion Hall as [| ? ? _ Hl]; subst. simpl.
    pose proof (Rsum_nonneg l Hl). lra.
  - inversion Hall as [| ? ? Ha Hl]; subst. simpl.
    specialize (IH Hl). lra.
Qed.

Lemma Rsum_exp_pos (l : list R) : l <> [] -> (0 < Rsum (map exp l))%R.
Proof.
  destruct l as [| a l]; [congruence | intros _].
  apply Rsum_pos.
  - apply Forall_forall. intros y Hy. apply in_map_iff in Hy as (v & <- & _).
    left. apply exp_pos.
  - left. apply exp_pos.
Qed.

Lemma length_softmax (l : vec) : length (softmax l) = length l.
Proof. unfold softmax. apply length_map. Qed.

(** A softmax over a non-empty axis sums to one. *)
Lemma softmax_sum (l : vec) : l <> [] -> Rsum (softmax l) = 1%R.
Proof.
  intros H. unfold softmax.
  rewrite (Rsum_map_div exp).
  pose proof (Rsum_exp_pos l H). field. lra.
Qed.

(** The numerically stable form (subtracting a constant from every logit)
    is the same function. *)
Lemma softmax_shift (c : R) (l : vec) :
  softmax (map (fun v => (v - c)%R) l) = softmax l.
Proof.
  unfold softmax. rewrite !map_map.
  assert (Hz : Rsum (map (fun v => exp (v - c)) l)
               = (Rsum (map exp l) * / exp c)%R).
  { induction l as [| a l IH]; simpl; [lra |].
    rewrite IH. unfold Rminus. rewrite exp_plus, exp_Ropp. lra. }
  rewrite Hz. destruct l as [| a0 l0]; [reflexivity |].
  pose proof (Rsum_exp_pos (a0 :: l0)) as Hp.
  specialize (Hp ltac:(discriminate)).
  apply map_ext. intros v.
  unfold Rminus. rewrite exp_plus, exp_Ropp.
  pose proof (exp_pos c). field. split; lra.
Qed.

(** The generate gate and the copy gate sum to one. *)
Lemma gates_sum (a b : R) :
  (nth 0 (softmax [a; b]) 0 + nth 1 (softmax [a; b]) 0 = 1)%R.
Proof.
  pose proof (softmax_sum [a; b] ltac:(discriminate)) as H.
  simpl in *. lra.
Qed.

Lemma length_masked_softmax (scores : list R) (mask : list bool) :
  length (masked_softmax scores mask) = length scores.
Proof.
  unfold masked_softmax.
  rewrite !length_map, length_combine, length_seq. lia.
Qed.

Lemma nth_masked_exp (scores : list R) (mask : list bool) (j : nat) :
  j < length scores ->
  nth j (map (fun js : nat * R =>
                if nth (fst js) mask false then 0%R else exp (snd js))
             (combine (seq 0 (length scores)) scores)) 0%R
  = if nth j mask false then 0%R else exp (nth j scores 0%R).
Proof.
  intros Hj.
  set (f := fun js : nat * R => if nth (fst js) mask false then 0%R else exp (snd js)).
  rewrite (nth_indep _ 0%R (f (0, 0%R)))
    by (rewrite length_map, length_combine, length_seq; lia).
  rewrite map_nth, combine_nth by (rewrite length_seq; reflexivity).
  rewrite seq_nth by exact Hj. reflexivity.
Qed.

(** A padded position gets weight zero, whatever its score. *)
Lemma masked_softmax_padding (scores : list R) (mask : list bool) (j : nat) :
  nth j mask false = true -> nth j (masked_softmax scores mask) 0%R = 0%R.
Proof.
  intros Hm.
  destruct (Nat.lt_ge_cases j (length scores)) as [Hj | Hj].
  - unfold masked_softmax.
    set (e := map _ (combine _ scores)).
    set (z := Rsum e).
    rewrite (nth_indep _ 0%R ((fun v => (v / z)%R) 0%R))
      by (rewrite length_map; unfold e;
          rewrite length_map, length_combine, length_seq; lia).
    rewrite (map_nth (fun v => (v / z)%R)).
    unfold e. rewrite nth_masked_exp by exact Hj. rewrite Hm. lra.
  - apply nth_overflow. rewrite length_masked_softmax. exact Hj.
Qed.

(** With one position that is not padding, the masked weights sum to one. *)
Lemma masked_softmax_sum (scores : list R) (mask : list bool) :
  has_unpadded (length scores) mask = true ->
  Rsum (masked_softmax scores mask) = 1%R.
Proof.
  intros H. unfold has_unpadded in H.
  apply existsb_exists in H as (j & Hj & Hm).
  apply in_seq in Hj. apply negb_true_iff in Hm.
  unfold masked_softmax.
  set (e := map _ (combine _ scores)).
  rewrite (Rsum_map_div (fun v => v)), map_id.
  assert (Hpos : (0 < Rsum e)%R).
  { apply Rsum_pos.
    - apply Forall_forall. intros y Hy. unfold e in Hy.
      apply in_map_iff in Hy as ([k s] & <- & _). simpl.
      destruct (nth k mask false); [lra | left; apply exp_pos].
    - apply Exists_exists. exists (nth j e 0%R). split.
      + apply nth_In. unfold e.
        rewrite length_map, length_combine, length_seq. lia.
      + unfold e. rewrite nth_masked_exp by lia. rewrite Hm. apply exp_pos. }
  field. lra.
Qed.

(** ** [scatter_add_] *)

Lemma length_add_at (i : nat) (s : R) (self : vec) :
  length (add_at i s self) = length self.
Proof.
  revert i. induction self as [| v rest IH]; intros [| i]; simpl; auto.
Qed.


Lemma Rsum_add_at (i : nat) (s : R) (self : vec) :
  i < length self -> Rsum (add_at i s self) = (Rsum self + s)%R.
Proof.
  revert i. induction self as [| v rest IH]; intros [| i] H; simpl in *;
    try lia; [lra |].
  rewrite IH by lia. lra.
Qed.

Lemma nth_add_at (i v : nat) (s : R) (self : vec) :
  i < length self ->
  nth v (add_at i s self) 0%R
  = (nth v self 0 + if i =? v then s else 0)%R.
Proof.
  revert i v. induction self as [| a rest IH]; intros [| i] [| v] H;
    simpl in *; try lia; try lra.
  apply IH. lia.
Qed.

(** [scatter_add_] succeeds exactly when [index] is no longer than [src]
    and every id is inside [self]; it then adds the entries one by one. *)
Lemma scatter_add_fold (self : vec) (index : list nat) (src : vec) :
  scatter_add_ self index src =
  if (length index <=? length src) && forallb (fun i => i <? length self) index
  then Ok (fold_left (fun acc p => add_at (fst p) (snd p) acc)
                     (combine index src) self)
  else Err RuntimeError.
Proof.
  revert self src. induction index as [| i index IH]; intros self src; simpl.
  - reflexivity.
  - destruct src as [| s src]; simpl; [reflexivity |].
    destruct (i <? length self) eqn:Hi; simpl.
    + rewrite IH, length_add_at. reflexivity.
    + rewrite andb_false_r. reflexivity.
Qed.





Lemma scatter_add_length (self : vec) (index : list nat) (src out : vec) :
  scatter_add_ self index src = Ok out -> length out = length self.
Proof.
  revert self src. induction index as [| i index IH]; intros self src; simpl.
  - intros H; injection H as <-. reflexivity.
  - destruct src as [| s src]; [discriminate |].
    destruct (i <? length self); [| discriminate].
    intros H. apply IH in H. rewrite length_add_at in H. exact H.
Qed.

(** No mass is lost: the scattered row sums to what was there plus what
    was scattered. *)
Lemma scatter_add_Rsum (self : vec) (index : list nat) (src out : vec) :
  length index = length src ->
  scatter_add_ self index src = Ok out ->
  Rsum out = (Rsum self + Rsum src)%R.
Proof.
  revert self src. induction index as [| i index IH]; intros self src Hlen; simpl.
  - destruct src; [| discriminate]. intros H; injection H as <-. simpl. lra.
  - destruct src as [| s src]; [discriminate |].
    destruct (i <? length self) eqn:Hi; [| discriminate].
    apply Nat.ltb_lt in Hi. intros H.
    apply IH in H; [| simpl in Hlen; lia].
    rewrite H, Rsum_add_at by exact Hi. simpl. lra.
Qed.

(** Entry [v] of the scattered row: what was there plus the mass of every
    position whose id is [v]. *)
Lemma scatter_add_entry (self : vec) (index : list nat) (src out : vec) (v : nat) :
  scatter_add_ self index src = Ok out ->
  nth v out 0%R = (nth v self 0 + copy_mass v index src)%R.
Proof.
  unfold copy_mass.
  revert self src. induction index as [| i index IH]; intros self src; simpl.
  - intros H; injection H as <-. simpl. lra.
  - destruct src as [| s src]; [discriminate |].
    destruct (i <? length self) eqn:Hi; [| discriminate].
    apply Nat.ltb_lt in Hi. intros H. apply IH in H.
    rewrite H, nth_add_at by exact Hi. simpl.
    destruct (i =? v); simpl; lra.
Qed.





(** ** Padding and the alignment weights *)

(** C8.  Whatever the strategy, the alignment weights come from [attend];
    in the weights it returns ([B x T x S], one distribution over the
    positions of the exemplar for every batch element and target position)
    a position that the padding mask marks has weight exactly zero,
    whatever the scores of the attention. *)
Theorem padding_gets_zero_alignment_weight
    (self : TransformerDecoderBaseWithTM) (seq_len bsz : nat)
    (x cur_memory : Tensor3) (cur_memory_encoder_padding_mask : list (list bool))
    (b t j : nat) :
  b < bsz -> t < seq_len ->
  nth j (nth b cur_memory_encoder_padding_mask []) false = true ->
  let alignment_weight :=
    snd (fst (attend self seq_len bsz x cur_memory cur_memory_encoder_padding_mask)) in
  nth j (at2 alignment_weight b t) 0%R = 0%R.
Proof.
  intros Hb Ht Hm. simpl. rewrite at2_tab2 by assumption.
  simpl. apply masked_softmax_padding. exact Hm.
Qed.

Lemma padding_gets_zero_alignment_weight_witness :
  nth 3 (at2 (snd (fst (attend (toy_decoder true 2 false None 3 0) 1 1
                          [[[1%R]]] (memory_encoder_out (toy_encoder_out None))
                          (memory_encoder_padding_mask (toy_encoder_out None)))))
             0 0) 0%R = 0%R.
Proof.
  apply (padding_gets_zero_alignment_weight (toy_decoder true 2 false None 3 0)
           1 1 [[[1%R]]] _ _ 0 0 3); [lia | lia | reflexivity].
Defined.

(** ** [get_normalized_probs] and the unused flag *)

(** C9.  [get_normalized_probs] and [get_normalized_probs_scriptable]
    return the first component of the network output as it is, for
    [log_probs = true] and for [log_probs = false] alike: no softmax and no
    log-softmax is applied to what [forward] returned. *)
Theorem get_normalized_probs_is_first_output
    (self : TransformerDecoderBaseWithTM) (net_output : Tensor3 * Extra)
    (log_probs : bool) (sample : option (list (string * Tensor3))) :
  get_normalized_probs self net_output log_probs sample = fst net_output
  /\ get_normalized_probs_scriptable self net_output log_probs sample
     = fst net_output
  /\ get_normalized_probs self net_output true sample
     = get_normalized_probs self net_output false sample.
Proof. repeat split. Qed.

(** [forward] runs the block that [branch_taken] names, on the extracted
    features, and hands the diagnostics through. *)
Lemma forward_run_branch (self : TransformerDecoderBaseWithTM)
    (prev_output_tokens : list (list nat)) (encoder_out : EncoderOut)
    (incremental_state : option IncrementalState)
    (features_only full_context_alignment : bool)
    (alignment_layer alignment_heads : option nat)
    (src_lengths : option (list nat)) (return_all_hiddens : bool) :
  let xe := extract_features self prev_output_tokens encoder_out incremental_state
              full_context_alignment alignment_layer alignment_heads in
  forward self prev_output_tokens encoder_out incremental_state features_only
    full_context_alignment alignment_layer alignment_heads src_lengths
    return_all_hiddens
  = (lprobs <- run_branch self (branch_taken self encoder_out) (fst xe) encoder_out ;;
     Ok (lprobs, snd xe)).
Proof.
  simpl. unfold forward, branch_taken.
  destruct (extract_features self prev_output_tokens encoder_out incremental_state
              full_context_alignment alignment_layer alignment_heads) as [x extra].
  simpl.
  destruct (with_TM_ensemble self); simpl; [| reflexivity].
  destruct (TMs_similarity encoder_out) as [similarity |] eqn:Es; simpl.
  - rewrite Es. reflexivity.
  - destruct (with_TM_learnable_p self); simpl; [| reflexivity].
    destruct (model_is self "unscalable_linear"); simpl; [reflexivity |].
    destruct (model_is self "attention" || model_is self "attention_large");
      simpl; [reflexivity |].
    destruct (model_is self "linear" || model_is self "linear_large");
      simpl; [reflexivity |].
    destruct (model_is self "attention_2"); reflexivity.
Qed.

(** ** Order of the branches *)

(** C4.  When [with_TM_ensemble] is on and similarity scores are present,
    [forward] takes the similarity-weighted block, whatever
    [with_TM_learnable_p] and the model name are; a learned-weighting block
    is taken only when the similarity scores are absent. *)
Theorem similarity_takes_priority (self : TransformerDecoderBaseWithTM)
    (prev_output_tokens : list (list nat)) (encoder_out : EncoderOut)
    (incremental_state : option IncrementalState)
    (features_only full_context_alignment : bool)
    (alignment_layer alignment_heads : option nat)
    (src_lengths : option (list nat)) (return_all_hiddens : bool)
    (similarity : list (list R)) :
  with_TM_ensemble self = true ->
  TMs_similarity encoder_out = Some similarity ->
  branch_taken self encoder_out = SimilarityWeighted
  /\ forward self prev_output_tokens encoder_out incremental_state features_only
       full_context_alignment alignment_layer alignment_heads src_lengths
       return_all_hiddens
     = (let xe := extract_features self prev_output_tokens encoder_out
                    incremental_state full_context_alignment alignment_layer
                    alignment_heads in
        final_lprobs <- forward_similarity self (fst xe) encoder_out similarity ;;
        Ok (final_lprobs, snd xe))
  /\ (forall encoder_out',
        branch_learnable_p (branch_taken self encoder_out') <> None ->
        TMs_similarity encoder_out' = None).
Proof.
  intros He Hs.
  assert (Hb : branch_taken self encoder_out = SimilarityWeighted).
  { unfold branch_taken. rewrite He, Hs. reflexivity. }
  split; [exact Hb | split].
  - rewrite forward_run_branch. simpl. rewrite Hb. simpl. rewrite Hs. reflexivity.
  - intros encoder_out'. unfold branch_taken. rewrite He. simpl.
    destruct (TMs_similarity encoder_out'); simpl; congruence.
Qed.

Lemma similarity_takes_priority_witness :
  branch_taken (toy_decoder true 2 true (Some "attention"%string) 3 0)
    (toy_encoder_out (Some [[0.7; 0.3]%R])) = SimilarityWeighted.
Proof.
  apply (similarity_takes_priority
           (toy_decoder true 2 true (Some "attention"%string) 3 0)
           [[1]] (toy_encoder_out (Some [[0.7; 0.3]%R]))
           None false false None None None false [[0.7; 0.3]%R]);
    reflexivity.
Defined.

(** ** One block of memory: the probabilities before the logarithm *)


Lemma copy_generate_row_length (self : TransformerDecoderBaseWithTM)
    (clone_x attn attn_normalized : vec) (alignment_weight : list R)
    (index : list nat) (V : nat) (out : vec) :
  (forall v, length (output_layer self v) = V) ->
  copy_generate_row self clone_x attn attn_normalized alignment_weight index
  = Ok out ->
  length out = V.
Proof.
  intros HV H. unfold copy_generate_row in H.
  apply scatter_add_length in H.
  rewrite length_map, length_softmax, HV in H. exact H.
Qed.

(** Generate mass plus copy mass: one row sums to one as soon as the
    alignment weights do and every position has an id. *)
Lemma copy_generate_row_sum (self : TransformerDecoderBaseWithTM)
    (clone_x attn attn_normalized : vec) (alignment_weight : list R)
    (index : list nat) (V : nat) (out : vec) :
  0 < V ->
  (forall v, length (output_layer self v) = V) ->
  length index = length alignment_weight ->
  Rsum alignment_weight = 1%R ->
  copy_generate_row self clone_x attn attn_normalized alignment_weight index
  = Ok out ->
  Rsum out = 1%R.
Proof.
  intros HV0 HV Hlen Hw H. unfold copy_generate_row in H.
  apply scatter_add_Rsum in H; [| rewrite length_map; exact Hlen].
  rewrite H, !Rsum_scale, Hw, softmax_sum.
  - destruct (diverter self (clone_x ++ attn_normalized)) as [a b]. simpl fst; simpl snd.
    pose proof (gates_sum a b). lra.
  - intros E. apply (f_equal (@length R)) in E. rewrite HV in E. simpl in E. lia.
Qed.


Lemma length_select_batch {A} (d : A) (b : nat) (t : list (list A)) :
  length (select_batch d b t) = length t.
Proof. unfold select_batch. apply length_map. Qed.

(** The alignment weights that [fuse] reads at (t, b) after [attend]. *)
Lemma attend_alignment_weight (self : TransformerDecoderBaseWithTM)
    (seq_len bsz : nat) (x cur_memory : Tensor3) (cur_mask : list (list bool))
    (t b : nat) :
  t < seq_len -> b < bsz ->
  at2 (transpose_0_1 bsz seq_len
         (snd (fst (attend self seq_len bsz x cur_memory cur_mask)))) t b
  = masked_softmax
      (map (attn_score (alignment_layer self) (at2 x t b))
           (select_batch [] b cur_memory))
      (nth b cur_mask []).
Proof.
  intros Ht Hb. rewrite at2_transpose by assumption.
  simpl. rewrite at2_tab2 by assumption. reflexivity.
Qed.

Lemma TM_probs_fuse (self : TransformerDecoderBaseWithTM) (seq_len bsz : nat)
    (x cur_memory : Tensor3) (cur_mask : list (list bool))
    (cur_copy_seq : list (list nat)) :
  TM_probs self seq_len bsz x cur_memory cur_mask cur_copy_seq
  = fuse self seq_len bsz x
      (fst (fst (attend self seq_len bsz x cur_memory cur_mask)))
      (snd (fst (attend self seq_len bsz x cur_memory cur_mask)))
      (snd (attend self seq_len bsz x cur_memory cur_mask))
      cur_copy_seq.
Proof. reflexivity. Qed.

(** *** The index of the scatter *)

Lemma length_concat_same {A} (cols : list (list A)) (S : nat) :
  Forall (fun c => length c = S) cols ->
  length (concat cols) = length cols * S.
Proof.
  induction 1 as [| c cols Hc _ IH]; simpl; [reflexivity |].
  rewrite length_app, Hc, IH. reflexivity.
Qed.

Lemma narrow_concat_same {A} (cols : list (list A)) (S b : nat) :
  Forall (fun c => length c = S) cols ->
  b < length cols ->
  narrow (b * S) S (concat cols) = nth b cols [].
Proof.
  intros H. revert b. induction H as [| c cols Hc _ IH]; intros b Hb;
    [simpl in Hb; lia |].
  unfold narrow in *. destruct b as [| b]; simpl concat.
  - simpl. rewrite firstn_app, Hc, Nat.sub_diag, firstn_O, app_nil_r.
    apply firstn_all2. lia.
  - cbn [Nat.mul nth]. rewrite skipn_app, Hc.
    rewrite skipn_all2 by lia. cbn [app].
    replace (S + b * S - S) with (b * S) by lia.
    apply IH. simpl in Hb. lia.
Qed.

Lemma column_matrix (bsz b : nat) (t : list (list nat)) :
  batch_width bsz t = true -> b < bsz ->
  column b t = select_batch 0 b t.
Proof.
  unfold batch_width, column, select_batch. intros H Hb.
  induction t as [| row t IH]; [reflexivity |].
  simpl in H. apply andb_true_iff in H as [Hrow H]. apply Nat.eqb_eq in Hrow.
  cbn [flat_map map]. rewrite (IH H).
  destruct (nth_error row b) as [a |] eqn:E.
  - rewrite (nth_error_nth _ _ 0 E). reflexivity.
  - apply nth_error_None in E. lia.
Qed.

(** What [view] returns: [bsz] rows of one width that hold the entries in
    their order. *)
Lemma view_1_bsz_Ok {A} (bsz : nat) (flat : list A) (rows : list (list A)) :
  view_1_bsz bsz flat = Ok rows ->
  0 < bsz
  /\ length flat = bsz * (length flat / bsz)
  /\ rows = tab bsz (fun b => narrow (b * (length flat / bsz))
                                     (length flat / bsz) flat).
Proof.
  unfold view_1_bsz. destruct (bsz =? 0) eqn:E0; [discriminate |].
  apply Nat.eqb_neq in E0.
  destruct (length flat mod bsz =? 0) eqn:Em; [| discriminate].
  apply Nat.eqb_eq in Em. intros H. injection H as <-.
  split; [lia |]. split; [| reflexivity].
  apply Nat.Div0.div_exact. exact Em.
Qed.

Lemma view_1_bsz_Err {A} (bsz : nat) (flat : list A) (e : error) :
  view_1_bsz bsz flat = Err e -> e = RuntimeError.
Proof.
  unfold view_1_bsz. destruct (bsz =? 0); [congruence |].
  destruct (length flat mod bsz =? 0); congruence.
Qed.

(** When the ids are a matrix [S x bsz], the row of batch element [b] is
    column [b]. *)
Lemma copy_index_matrix (cur_copy_seq : list (list nat)) (bsz : nat) :
  batch_width bsz cur_copy_seq = true -> 0 < bsz ->
  copy_index cur_copy_seq bsz
  = Ok (tab bsz (fun b => select_batch 0 b cur_copy_seq)).
Proof.
  intros Hw Hb. unfold copy_index, transpose_flat.
  assert (Hcols : tab (length (hd [] cur_copy_seq))
                      (fun b => column b cur_copy_seq)
                  = match cur_copy_seq with
                    | [] => []
                    | _ => tab bsz (fun b => select_batch 0 b cur_copy_seq)
                    end).
  { destruct cur_copy_seq as [| row t]; [reflexivity |].
    pose proof Hw as Hw'. unfold batch_width in Hw'. simpl in Hw'.
    apply andb_true_iff in Hw' as [Hrow _]. apply Nat.eqb_eq in Hrow.
    cbn [hd]. rewrite Hrow. apply tab_ext. intros b Hb'.
    apply (column_matrix bsz); assumption. }
  rewrite Hcols. unfold view_1_bsz.
  destruct (bsz =? 0) eqn:E0; [apply Nat.eqb_eq in E0; lia |].
  destruct cur_copy_seq as [| row t].
  - simpl concat. cbn [length]. rewrite Nat.Div0.mod_0_l. cbn [Nat.eqb].
    rewrite Nat.Div0.div_0_l. reflexivity.
  - set (cs := row :: t) in *. set (S := length cs).
    assert (Hall : Forall (fun c => length c = S)
                     (tab bsz (fun b => select_batch 0 b cs))).
    { apply Forall_forall. intros c Hc. unfold tab in Hc.
      apply in_map_iff in Hc as (b & <- & _). apply length_select_batch. }
    rewrite (length_concat_same _ S Hall), length_tab, (Nat.mul_comm bsz S).
    rewrite Nat.Div0.mod_mul. cbn [Nat.eqb].
    rewrite Nat.div_mul by lia. cbv zeta. apply f_equal. apply tab_ext.
    intros b Hb'.
    rewrite (narrow_concat_same _ S b Hall) by (rewrite length_tab; exact Hb').
    apply (nth_tab bsz (fun b => select_batch 0 b cs)). exact Hb'.
Qed.

(** On a matrix of ids [fuse] scatters, for batch element [b], the
    alignment weights of the exemplar positions at the ids of column [b]. *)
Lemma fuse_matrix (self : TransformerDecoderBaseWithTM) (seq_len bsz : nat)
    (x at_ aw an : Tensor3) (cur_copy_seq : list (list nat)) :
  batch_width bsz cur_copy_seq = true -> 0 < bsz ->
  fuse self seq_len bsz x at_ aw an cur_copy_seq
  = tabM seq_len (fun t => tabM bsz (fun b =>
      copy_generate_row self (at2 x t b) (at2 at_ t b) (at2 an t b)
        (at2 (transpose_0_1 bsz seq_len aw) t b)
        (select_batch 0 b cur_copy_seq))).
Proof.
  intros Hw Hb. unfold fuse. rewrite copy_index_matrix by assumption.
  cbn [bind]. apply tabM_ext. intros t _. apply tabM_ext. intros b Hb'.
  rewrite nth_tab by exact Hb'. reflexivity.
Qed.


(** What [fuse] returns: one row per target position and batch element,
    scattered at the ids that [copy_index] gives the batch element. *)
Lemma fuse_shape (self : TransformerDecoderBaseWithTM) (seq_len bsz : nat)
    (x at_ aw an : Tensor3) (cur_copy_seq : list (list nat)) (probs : Tensor3) :
  fuse self seq_len bsz x at_ aw an cur_copy_seq = Ok probs ->
  exists index,
    copy_index cur_copy_seq bsz = Ok index
    /\ length probs = seq_len
    /\ forall t, t < seq_len ->
         length (nth t probs []) = bsz
         /\ forall b, b < bsz ->
              copy_generate_row self (at2 x t b) (at2 at_ t b) (at2 an t b)
                (at2 (transpose_0_1 bsz seq_len aw) t b) (nth b index [])
              = Ok (at2 probs t b).
Proof.
  unfold fuse. intros H. apply bind_Ok in H as (index & Hi & H).
  exists index. split; [exact Hi |].
  apply tabM_Ok in H as [Hlen Hrow].
  split; [exact Hlen |]. intros t Ht.
  specialize (Hrow t [] Ht). apply tabM_Ok in Hrow as [Hlen' Hcell].
  split; [exact Hlen' |]. intros b Hb. apply (Hcell b [] Hb).
Qed.

(** The same on a matrix of ids. *)
Lemma fuse_shape_matrix (self : TransformerDecoderBaseWithTM) (seq_len bsz : nat)
    (x at_ aw an : Tensor3) (cur_copy_seq : list (list nat)) (probs : Tensor3) :
  batch_width bsz cur_copy_seq = true -> 0 < bsz ->
  fuse self seq_len bsz x at_ aw an cur_copy_seq = Ok probs ->
  forall t b, t < seq_len -> b < bsz ->
    copy_generate_row self (at2 x t b) (at2 at_ t b) (at2 an t b)
      (at2 (transpose_0_1 bsz seq_len aw) t b)
      (select_batch 0 b cur_copy_seq)
    = Ok (at2 probs t b).
Proof.
  intros Hw Hbsz H t b Ht Hb.
  apply fuse_shape in H as (index & Hi & _ & H).
  rewrite copy_index_matrix in Hi by assumption. injection Hi as <-.
  destruct (H t Ht) as [_ Hcell]. specialize (Hcell b Hb).
  rewrite nth_tab in Hcell by exact Hb. exact Hcell.
Qed.

(** [copy_generate_row], part by part. *)
Lemma copy_generate_row_parts (self : TransformerDecoderBaseWithTM)
    (clone_x attn attn_normalized : vec) (alignment_weight : list R)
    (index : list nat) :
  copy_generate_row self clone_x attn attn_normalized alignment_weight index
  = scatter_add_
      (map (fun p => (nth 0 (gates self clone_x attn_normalized) 0 * p)%R)
           (vocab_softmax self clone_x attn))
      index
      (map (fun a => (nth 1 (gates self clone_x attn_normalized) 0 * a)%R)
           alignment_weight).
Proof. reflexivity. Qed.

(** Entry [v] of a row: generate mass plus copy mass. *)
Lemma copy_generate_row_entry (self : TransformerDecoderBaseWithTM)
    (clone_x attn attn_normalized : vec) (alignment_weight : list R)
    (index : list nat) (out : vec) (v : nat) :
  copy_generate_row self clone_x attn attn_normalized alignment_weight index
  = Ok out ->
  nth v out 0%R
  = (nth 0 (gates self clone_x attn_normalized) 0
     * nth v (vocab_softmax self clone_x attn) 0
     + copy_mass v index
         (map (fun a => (nth 1 (gates self clone_x attn_normalized) 0 * a)%R)
              alignment_weight))%R.
Proof.
  rewrite copy_generate_row_parts. intros H.
  rewrite (scatter_add_entry _ _ _ _ v H). f_equal.
  set (g := nth 0 (gates self clone_x attn_normalized) 0%R).
  replace 0%R with ((fun p => (g * p)%R) 0%R) at 1 by lra.
  apply (map_nth (fun p => (g * p)%R)).
Qed.

(** A row is returned exactly when there are no more ids than alignment
    weights and every id is an index of the probability row. *)
Lemma copy_generate_row_Ok_iff (self : TransformerDecoderBaseWithTM)
    (clone_x attn attn_normalized : vec) (alignment_weight : list R)
    (index : list nat) :
  (exists out,
     copy_generate_row self clone_x attn attn_normalized alignment_weight index
     = Ok out)
  <-> (length index <= length alignment_weight
       /\ forallb (fun i => i <? length (vocab_softmax self clone_x attn)) index
          = true).
Proof.
  rewrite copy_generate_row_parts, scatter_add_fold, !length_map.
  destruct (length index <=? length alignment_weight) eqn:E1; simpl.
  - apply Nat.leb_le in E1.
    destruct (forallb _ index) eqn:E2.
    + split; [intros _; split; [exact E1 | reflexivity] | intros _; eexists; reflexivity].
    + split; [intros [out H]; discriminate | intros [_ H]; discriminate].
  - apply Nat.leb_gt in E1.
    split; [intros [out H]; discriminate | intros [H _]; lia].
Qed.

Lemma copy_generate_row_width (self : TransformerDecoderBaseWithTM)
    (clone_x attn attn_normalized : vec) (alignment_weight : list R)
    (index : list nat) (out : vec) :
  copy_generate_row self clone_x attn attn_normalized alignment_weight index
  = Ok out ->
  length out = length (vocab_softmax self clone_x attn).
Proof.
  rewrite copy_generate_row_parts. intros H.
  apply scatter_add_length in H. rewrite length_map in H. exact H.
Qed.

(** Generate mass plus copy mass, for a row of any width. *)
Lemma copy_generate_row_mass (self : TransformerDecoderBaseWithTM)
    (clone_x attn attn_normalized : vec) (alignment_weight : list R)
    (index : list nat) (out : vec) :
  0 < length (vocab_softmax self clone_x attn) ->
  length index = length alignment_weight ->
  Rsum alignment_weight = 1%R ->
  copy_generate_row self clone_x attn attn_normalized alignment_weight index
  = Ok out ->
  Rsum out = 1%R.
Proof.
  intros Hpos Hlen Hw H. rewrite copy_generate_row_parts in H.
  apply scatter_add_Rsum in H; [| rewrite length_map; exact Hlen].
  rewrite H, !Rsum_scale, Hw. unfold vocab_softmax in *. rewrite softmax_sum.
  - unfold gates.
    destruct (diverter self (clone_x ++ attn_normalized)) as [a b]. simpl fst; simpl snd.
    pose proof (gates_sum a b). lra.
  - intros E. rewrite length_softmax, E in Hpos. simpl in Hpos. lia.
Qed.

Lemma fused_width_attend (self : TransformerDecoderBaseWithTM) (seq_len bsz : nat)
    (x cur_memory : Tensor3) (cur_mask : list (list bool)) (t b : nat) :
  fused_width self seq_len bsz x cur_memory cur_mask t b
  = length (vocab_softmax self (at2 x t b)
              (at2 (fst (fst (attend self seq_len bsz x cur_memory cur_mask))) t b)).
Proof.
  unfold fused_width.
  destruct (attend self seq_len bsz x cur_memory cur_mask) as [[at_ aw] an].
  reflexivity.
Qed.

(** The width of every row of what [fuse] returns after [attend]. *)
Lemma TM_probs_width (self : TransformerDecoderBaseWithTM) (seq_len bsz : nat)
    (x cur_memory : Tensor3) (cur_mask : list (list bool))
    (cur_copy_seq : list (list nat)) (probs : Tensor3) (t b : nat) :
  TM_probs self seq_len bsz x cur_memory cur_mask cur_copy_seq = Ok probs ->
  t < seq_len -> b < bsz ->
  length (at2 probs t b) = fused_width self seq_len bsz x cur_memory cur_mask t b.
Proof.
  rewrite TM_probs_fuse. intros H Ht Hb.
  apply fuse_shape in H as (index & _ & _ & H).
  destruct (H t Ht) as [_ Hcell]. specialize (Hcell b Hb).
  rewrite fused_width_attend.
  apply (copy_generate_row_width _ _ _ _ _ _ _ Hcell).
Qed.

(** Entry [v] of what [fuse] returns after [attend]. *)
Lemma TM_probs_entry (self : TransformerDecoderBaseWithTM) (seq_len bsz : nat)
    (x cur_memory : Tensor3) (cur_mask : list (list bool))
    (cur_copy_seq : list (list nat)) (probs : Tensor3) :
  TM_probs self seq_len bsz x cur_memory cur_mask cur_copy_seq = Ok probs ->
  exists index,
    copy_index cur_copy_seq bsz = Ok index
    /\ forall t b v, t < seq_len -> b < bsz ->
         nth v (at2 probs t b) 0%R
         = fused_entry self seq_len bsz x cur_memory cur_mask (nth b index [])
             t b v.
Proof.
  rewrite TM_probs_fuse. intros H.
  apply fuse_shape in H as (index & Hi & _ & H).
  exists index. split; [exact Hi |]. intros t b v Ht Hb.
  destruct (H t Ht) as [_ Hcell]. specialize (Hcell b Hb).
  rewrite (copy_generate_row_entry _ _ _ _ _ _ _ v Hcell).
  unfold fused_entry.
  destruct (attend self seq_len bsz x cur_memory cur_mask) as [[at_ aw] an].
  cbn [fst snd]. rewrite at2_transpose by assumption. reflexivity.
Qed.

Lemma TM_probs_row_sum (self : TransformerDecoderBaseWithTM) (seq_len bsz : nat)
    (x cur_memory : Tensor3) (cur_mask : list (list bool))
    (cur_copy_seq : list (list nat)) (V : nat) (probs : Tensor3) (t b : nat) :
  0 < V ->
  (forall v, length (output_layer self v) = V) ->
  batch_width bsz cur_copy_seq = true ->
  length cur_copy_seq = length cur_memory ->
  has_unpadded (length cur_memory) (nth b cur_mask []) = true ->
  TM_probs self seq_len bsz x cur_memory cur_mask cur_copy_seq = Ok probs ->
  t < seq_len -> b < bsz ->
  Rsum (at2 probs t b) = 1%R.
Proof.
  intros HV0 HV Hw Hlen Hpad H Ht Hb. rewrite TM_probs_fuse in H.
  pose proof (fuse_shape_matrix self _ _ _ _ _ _ _ _ Hw ltac:(lia) H t b Ht Hb)
    as Hcell.
  rewrite attend_alignment_weight in Hcell by assumption.
  apply (copy_generate_row_sum self _ _ _ _ _ V _ HV0 HV) in Hcell; [exact Hcell | |].
  - rewrite length_masked_softmax, length_map, !length_select_batch. exact Hlen.
  - apply masked_softmax_sum.
    rewrite length_map, length_select_batch. exact Hpad.
Qed.

(** C2.  With [with_TM_ensemble] off, on a valid input (at least one batch
    element; the exemplar ids a matrix [S x B], one row per exemplar
    position and one column per batch element; every id an index of the
    probability row, that is a vocabulary id; for every batch element a
    position that is not padding), whatever the learned maps and the other
    options of the decoder, [forward] succeeds and returns the logarithm
    (with the 1e-12 floor) of the probability tensor
    [probs_without_ensemble]; every entry of that tensor is the generate
    gate times the vocabulary softmax plus the copy gate times the
    alignment weights of the exemplar positions that hold the id
    ([fused_entry], the ids of batch element [b] being column [b] of
    [TMs]); and, over the reals, the tensor sums to one over the vocabulary
    axis at every (target position, batch element). *)
Theorem probs_before_log_sum_to_one (self : TransformerDecoderBaseWithTM)
    (prev_output_tokens : list (list nat)) (encoder_out : EncoderOut)
    (incremental_state : option IncrementalState)
    (features_only full_context_alignment : bool)
    (alignment_layer alignment_heads : option nat)
    (src_lengths : option (list nat)) (return_all_hiddens : bool)
    (x : Tensor3) (extra : Extra) :
  extract_features self prev_output_tokens encoder_out incremental_state
    full_context_alignment alignment_layer alignment_heads = (x, extra) ->
  with_TM_ensemble self = false ->
  0 < batch_size x ->
  batch_width (batch_size x) (TMs encoder_out) = true ->
  length (TMs encoder_out) = length (memory_encoder_out encoder_out) ->
  (forall t b, t < target_len x -> b < batch_size x ->
     forallb (fun id =>
                id <? fused_width self (target_len x) (batch_size x)
                        (transpose_0_1 (batch_size x) (target_len x) x)
                        (memory_encoder_out encoder_out)
                        (memory_encoder_padding_mask encoder_out) t b)
       (select_batch 0 b (TMs encoder_out)) = true) ->
  (forall b, b < batch_size x ->
     has_unpadded (length (memory_encoder_out encoder_out))
       (nth b (memory_encoder_padding_mask encoder_out) []) = true) ->
  exists probs,
    probs_without_ensemble self x encoder_out = Ok probs
    /\ forward self prev_output_tokens encoder_out incremental_state features_only
         full_context_alignment alignment_layer alignment_heads src_lengths
         return_all_hiddens
       = Ok (transpose_0_1 (target_len x) (batch_size x) (log_floor3 probs), extra)
    /\ length probs = target_len x
    /\ (forall t, t < target_len x -> length (nth t probs []) = batch_size x)
    /\ (forall t b v, t < target_len x -> b < batch_size x ->
          length (at2 probs t b)
          = fused_width self (target_len x) (batch_size x)
              (transpose_0_1 (batch_size x) (target_len x) x)
              (memory_encoder_out encoder_out)
              (memory_encoder_padding_mask encoder_out) t b
          /\ nth v (at2 probs t b) 0%R
             = fused_entry self (target_len x) (batch_size x)
                 (transpose_0_1 (batch_size x) (target_len x) x)
                 (memory_encoder_out encoder_out)
                 (memory_encoder_padding_mask encoder_out)
                 (select_batch 0 b (TMs encoder_out)) t b v)
    /\ forall t b, t < target_len x -> b < batch_size x ->
         Rsum (at2 probs t b) = 1%R.
Proof.
  intros Hx He Hbsz Hw Hlen Hids Hpad.
  set (bsz := batch_size x) in *. set (seq_len := target_len x) in *.
  set (xT := transpose_0_1 bsz seq_len x) in *.
  set (mem := memory_encoder_out encoder_out) in *.
  set (mask := memory_encoder_padding_mask encoder_out) in *.
  assert (Hp : exists probs,
            TM_probs self seq_len bsz xT mem mask (TMs encoder_out) = Ok probs).
  { rewrite TM_probs_fuse, fuse_matrix by assumption.
    apply tabM_total. intros t Ht. apply tabM_total. intros b Hb.
    apply copy_generate_row_Ok_iff. split.
    - rewrite attend_alignment_weight by assumption.
      rewrite length_masked_softmax, length_map, !length_select_batch.
      rewrite Hlen. apply Nat.le_refl.
    - rewrite <- fused_width_attend. apply Hids; assumption. }
  destruct Hp as [probs Hp]. exists probs.
  pose proof Hp as Hf. rewrite TM_probs_fuse in Hf.
  pose proof (fuse_shape self _ _ _ _ _ _ _ _ Hf) as (index & _ & Hl1 & Hl2).
  split; [exact Hp |].
  split.
  { unfold forward. rewrite Hx, He. simpl.
    unfold forward_without_ensemble, probs_without_ensemble.
    fold bsz seq_len xT mem mask. rewrite Hp. reflexivity. }
  split; [exact Hl1 |].
  split; [intros t Ht; apply (Hl2 t Ht) |].
  split.
  - intros t b v Ht Hb. split.
    + apply (TM_probs_width self _ _ _ _ _ _ _ t b Hp Ht Hb).
    + destruct (TM_probs_entry self _ _ _ _ _ _ _ Hp) as (index' & Hi & Hentry).
      rewrite copy_index_matrix in Hi by assumption. injection Hi as <-.
      rewrite (Hentry t b v Ht Hb). rewrite nth_tab by exact Hb. reflexivity.
  - intros t b Ht Hb.
    pose proof (fuse_shape_matrix self _ _ _ _ _ _ _ _ Hw Hbsz Hf t b Ht Hb)
      as Hcell.
    rewrite attend_alignment_weight in Hcell by assumption.
    apply (copy_generate_row_mass self _ _ _ _ _ _) in Hcell; [exact Hcell | | |].
    + rewrite <- fused_width_attend.
      specialize (Hids t b Ht Hb). specialize (Hpad b Hb).
      destruct (TMs encoder_out) as [| row rest] eqn:Etm.
      * simpl in Hlen. rewrite <- Hlen in Hpad. discriminate.
      * simpl in Hids. apply andb_true_iff in Hids as [Hid _].
        apply Nat.ltb_lt in Hid. lia.
    + rewrite length_masked_softmax, length_map, !length_select_batch.
      exact Hlen.
    + apply masked_softmax_sum.
      rewrite length_map, length_select_batch. exact (Hpad b Hb).
Qed.

Lemma probs_before_log_sum_to_one_witness :
  exists probs,
    probs_without_ensemble (toy_decoder false 2 false None 3 0)
      [[[INR 1]]; [[INR 2]]] two_batch_encoder_out = Ok probs
    /\ length probs = 1
    /\ length (nth 0 probs []) = 2
    /\ length (at2 probs 0 0) = 3
    /\ length (at2 probs 0 1) = 3
    /\ Rsum (at2 probs 0 0) = 1%R
    /\ Rsum (at2 probs 0 1) = 1%R.
Proof.
  destruct (probs_before_log_sum_to_one (toy_decoder false 2 false None 3 0)
              [[1]; [2]] two_batch_encoder_out None false false None None None
              false [[[INR 1]]; [[INR 2]]] toy_extra)
    as (probs & Hp & _ & Hl1 & Hl2 & Hcell & Hsum).
  - reflexivity.
  - reflexivity.
  - unfold batch_size. simpl. lia.
  - reflexivity.
  - reflexivity.
  - intros t b Ht Hb. unfold target_len in Ht. unfold batch_size in Hb.
    simpl in Ht, Hb. rewrite fused_width_attend.
    unfold vocab_softmax. rewrite length_softmax.
    destruct b as [| [| b]]; [reflexivity | reflexivity | lia].
  - intros b Hb. unfold batch_size in Hb. simpl in Hb.
    destruct b as [| [| b]]; [reflexivity | reflexivity | lia].
  - assert (H0 : 0 < target_len [[[INR 1]]; [[INR 2]]])
      by (unfold target_len; simpl; lia).
    assert (B0 : 0 < batch_size [[[INR 1]]; [[INR 2]]])
      by (unfold batch_size; simpl; lia).
    assert (B1 : 1 < batch_size [[[INR 1]]; [[INR 2]]])
      by (unfold batch_size; simpl; lia).
    exists probs.
    split; [exact Hp |].
    split; [exact Hl1 |].
    split; [exact (Hl2 0 H0) |].
    split; [rewrite (proj1 (Hcell 0 0 0 H0 B0)), fused_width_attend;
            unfold vocab_softmax; rewrite length_softmax; reflexivity |].
    split; [rewrite (proj1 (Hcell 0 1 0 H0 B1)), fused_width_attend;
            unfold vocab_softmax; rewrite length_softmax; reflexivity |].
    split; [exact (Hsum 0 0 H0 B0) | exact (Hsum 0 1 H0 B1)].
Defined.

(** ** Stacking, reducing and the logarithm, entry by entry *)

Lemma list_as_tab {A} (d : A) (l : list A) :
  l = map (fun i => nth i l d) (seq 0 (length l)).
Proof.
  apply (nth_ext _ _ d d).
  - rewrite length_map, length_seq. reflexivity.
  - intros n Hn.
    rewrite (nth_map_lt _ _ _ 0) by (rewrite length_seq; exact Hn).
    rewrite seq_nth by exact Hn. reflexivity.
Qed.

Lemma nth_map_nil {A B} (f : A -> B) (l : list (list A)) (i : nat) :
  nth i (map (map f) l) [] = map f (nth i l []).
Proof.
  destruct (Nat.lt_ge_cases i (length l)) as [H | H].
  - apply nth_map_lt. exact H.
  - rewrite !nth_overflow by (rewrite ?length_map; exact H). reflexivity.
Qed.

Lemma at2_log_floor3 (t : Tensor3) (i j : nat) :
  at2 (log_floor3 t) i j = map log_floor (at2 t i j).
Proof.
  unfold at2, log_floor3. rewrite nth_map_nil.
  exact (nth_map_nil log_floor (nth i t []) j).
Qed.

Lemma stack_reduce_Ok (red : list R -> R) (ps : list Tensor3) (out : Tensor3) :
  stack_reduce red ps = Ok out ->
  ps <> []
  /\ length out = length (hd [] ps)
  /\ forall i, i < length (hd [] ps) ->
       length (nth i out []) = length (nth i (hd [] ps) [])
       /\ forall j, j < length (nth i (hd [] ps) []) ->
            at2 out i j
            = tab (length (at2 (hd [] ps) i j))
                  (fun v => red (map (fun q => nth v (at2 q i j) 0%R) ps)).
Proof.
  unfold stack_reduce. destruct ps as [| p ps]; [discriminate |].
  destruct (forallb (same_shape p) (p :: ps)); [| discriminate].
  intros H; injection H as <-. simpl hd.
  split; [discriminate | split; [apply length_tab |]].
  intros i Hi. rewrite nth_tab by exact Hi.
  split; [apply length_tab |].
  intros j Hj. unfold at2 at 1. rewrite nth_tab by exact Hi.
  rewrite nth_tab by exact Hj. reflexivity.
Qed.

Lemma select_column_Ok (t : list (list R)) (cur_idx : nat) (s : list R) :
  select_column t cur_idx = Ok s ->
  length s = length t
  /\ forall b, b < length t -> nth b s 0%R = nth cur_idx (nth b t []) 0%R.
Proof.
  unfold select_column. intros H. apply mapM_Ok in H as [Hlen Hnth].
  split; [exact Hlen |]. intros b Hb.
  specialize (Hnth b [] 0%R Hb). apply (get_Ok _ _ _ 0%R) in Hnth as [_ Hnth].
  symmetry. exact Hnth.
Qed.

Lemma nth_map_scale (c : R) (l : list R) (v : nat) :
  nth v (map (fun p => (p * c)%R) l) 0%R = (nth v l 0 * c)%R.
Proof.
  replace 0%R with ((fun p => (p * c)%R) 0%R) at 1 by lra.
  apply (map_nth (fun p => (p * c)%R)).
Qed.

Lemma length_transpose (n m : nat) (t : Tensor3) :
  length (transpose_0_1 n m t) = m.
Proof. unfold transpose_0_1, tab2. apply length_tab. Qed.

Lemma length_nth_transpose (n m : nat) (t : Tensor3) (j : nat) :
  j < m -> length (nth j (transpose_0_1 n m t) []) = n.
Proof.
  intros Hj. unfold transpose_0_1, tab2. rewrite nth_tab by exact Hj.
  apply length_tab.
Qed.

(** [mul_batch] when there is one score per batch element. *)
Lemma mul_batch_entry (seq_len bsz : nat) (p : Tensor3) (s : list R) (q : Tensor3)
    (b t : nat) :
  length s = bsz ->
  mul_batch (transpose_0_1 seq_len bsz p) s = Ok q ->
  b < bsz -> t < seq_len ->
  length q = bsz
  /\ length (nth b q []) = seq_len
  /\ at2 q b t = map (fun v => (v * nth b s 0)%R) (at2 p t b).
Proof.
  intros Hs H Hb Ht. unfold mul_batch in H.
  rewrite length_transpose, Hs, Nat.eqb_refl in H. injection H as <-.
  split; [apply length_tab |].
  rewrite nth_tab by exact Hb. rewrite length_map.
  rewrite length_nth_transpose by exact Hb. split; [reflexivity |].
  unfold at2 at 1. rewrite nth_tab by exact Hb.
  rewrite (nth_map_lt _ _ _ [])
    by (rewrite length_nth_transpose by exact Hb; exact Ht).
  f_equal. exact (at2_transpose seq_len bsz p t b Ht Hb).
Qed.

Lemma mul_position_entry (seq_len bsz : nat) (p : Tensor3) (w : list (list R))
    (b t : nat) :
  b < bsz -> t < seq_len ->
  at2 (mul_position bsz seq_len (transpose_0_1 seq_len bsz p) w) b t
  = map (fun v => (v * nth t (nth b w []) 0)%R) (at2 p t b).
Proof.
  intros Hb Ht. unfold mul_position. rewrite at2_tab2 by assumption.
  rewrite at2_transpose by assumption. reflexivity.
Qed.

Lemma probs_ensemble_chunks (self : TransformerDecoderBaseWithTM) (x : Tensor3)
    (encoder_out : EncoderOut) (mems : list Tensor3)
    (masks : list (list (list bool))) (seqs : list (list (list nat))) :
  chunk_exemplars self encoder_out = Ok (mems, masks, seqs) ->
  probs_ensemble self x encoder_out
  = mapM (exemplar_probs self (target_len x) (batch_size x)
            (transpose_0_1 (batch_size x) (target_len x) x) mems masks seqs)
         (seq 0 (TM_num self)).
Proof. intros H. unfold probs_ensemble. rewrite H. reflexivity. Qed.

(** The similarity-weighted block, entry by entry. *)
Lemma forward_similarity_entry (self : TransformerDecoderBaseWithTM)
    (x : Tensor3) (encoder_out : EncoderOut) (similarity : list (list R))
    (out : Tensor3) :
  length similarity = batch_size x ->
  forward_similarity self x encoder_out similarity = Ok out ->
  exists ps,
    probs_ensemble self x encoder_out = Ok ps
    /\ length ps = TM_num self
    /\ forall b t v,
         b < batch_size x -> t < target_len x -> v < length (at2 out b t) ->
         nth v (at2 out b t) 0%R
         = log_floor
             (Rsum (map (fun i =>
                           (nth i (nth b similarity []) 0
                            * nth v (at2 (nth i ps []) t b) 0)%R)
                        (seq 0 (TM_num self)))).
Proof.
  intros Hsim H. unfold forward_similarity in H.
  apply bind_Ok in H as ([[mems masks] seqs] & Hch & H).
  apply bind_Ok in H as (lprobs & Hmap & H).
  apply bind_Ok in H as (final & Hstack & H). injection H as <-.
  set (bsz := batch_size x) in *. set (seq_len := target_len x) in *.
  set (xT := transpose_0_1 bsz seq_len x) in *.
  apply mapM_Ok in Hmap as [Hlen Hbody]. rewrite length_seq in Hlen, Hbody.
  (* every exemplar's own probabilities exist *)
  assert (Hex : forall i, i < TM_num self ->
            exists p s,
              exemplar_probs self seq_len bsz xT mems masks seqs i = Ok p
              /\ select_column similarity i = Ok s
              /\ mul_batch (transpose_0_1 seq_len bsz p) s = Ok (nth i lprobs [])).
  { intros i Hi. specialize (Hbody i 0 [] Hi). rewrite seq_nth in Hbody by exact Hi.
    simpl in Hbody.
    apply bind_Ok in Hbody as (p & Hp & Hbody).
    apply bind_Ok in Hbody as (s & Hs & Hbody).
    exists p, s. auto. }
  destruct (mapM_total (exemplar_probs self seq_len bsz xT mems masks seqs)
              (seq 0 (TM_num self))) as [ps Hps].
  { intros i Hi. apply in_seq in Hi. destruct (Hex i) as (p & _ & Hp & _); [lia |].
    exists p. exact Hp. }
  exists ps. rewrite (probs_ensemble_chunks self x encoder_out _ _ _ Hch).
  fold bsz seq_len xT. split; [exact Hps |].
  apply mapM_Ok in Hps as [Hpslen Hpsnth]. rewrite length_seq in Hpslen, Hpsnth.
  split; [exact Hpslen |].
  intros b t v Hb Ht Hv.
  (* the scaled tensor of every exemplar *)
  assert (Hq : forall i, i < TM_num self ->
            length (nth i lprobs []) = bsz
            /\ length (nth b (nth i lprobs []) []) = seq_len
            /\ at2 (nth i lprobs []) b t
               = map (fun u => (u * nth i (nth b similarity []) 0)%R)
                     (at2 (nth i ps []) t b)).
  { intros i Hi. destruct (Hex i Hi) as (p & s & Hp & Hs & Hm).
    specialize (Hpsnth i 0 [] Hi). rewrite seq_nth in Hpsnth by exact Hi.
    simpl in Hpsnth. rewrite Hp in Hpsnth. injection Hpsnth as ->.
    apply select_column_Ok in Hs as [Hslen Hsnth].
    destruct (mul_batch_entry seq_len bsz _ s _ b t ltac:(lia) Hm Hb Ht)
      as (H1 & H2 & H3).
    rewrite Hsnth in H3 by lia. auto. }
  apply stack_reduce_Ok in Hstack as (Hne & Hfl & Hrows).
  assert (H0 : 0 < TM_num self).
  { destruct lprobs; [congruence | simpl in Hlen; lia]. }
  assert (Hhd : hd [] lprobs = nth 0 lprobs []) by (destruct lprobs; reflexivity).
  rewrite Hhd in Hfl, Hrows.
  destruct (Hq 0 H0) as (Hq1 & Hq2 & Hq3).
  destruct (Hrows b ltac:(lia)) as [_ Hcell].
  specialize (Hcell t ltac:(lia)).
  rewrite at2_log_floor3 in Hv |- *. rewrite length_map in Hv.
  rewrite (nth_map_lt _ _ _ 0%R) by exact Hv.
  rewrite Hcell in Hv |- *. rewrite length_tab in Hv.
  rewrite nth_tab by exact Hv. f_equal. f_equal.
  rewrite (@list_as_tab Tensor3 [] lprobs) at 1. rewrite Hlen, map_map.
  apply map_ext_in. intros i Hi. apply in_seq in Hi.
  destruct (Hq i ltac:(lia)) as (_ & _ & Hqi).
  rewrite Hqi, nth_map_scale. lra.
Qed.

(** ** The other blocks, entry by entry *)

Lemma exemplar_probs_shape (self : TransformerDecoderBaseWithTM) (seq_len bsz : nat)
    (x : Tensor3) (mems : list Tensor3) (masks : list (list (list bool)))
    (seqs : list (list (list nat))) (i : nat) (p : Tensor3) :
  exemplar_probs self seq_len bsz x mems masks seqs i = Ok p ->
  length p = seq_len /\ forall t, t < seq_len -> length (nth t p []) = bsz.
Proof.
  unfold exemplar_probs. intros H.
  apply bind_Ok in H as (m & _ & H). apply bind_Ok in H as (k & _ & H).
  destruct (attend self seq_len bsz x m k) as [[at_ aw] an].
  apply bind_Ok in H as (cs & _ & H).
  apply fuse_shape in H as (index & _ & Hlen & Hrows). split; [exact Hlen |].
  intros t Ht. apply (Hrows t Ht).
Qed.

Lemma exemplar_probs_TM_probs (self : TransformerDecoderBaseWithTM)
    (seq_len bsz : nat) (x : Tensor3) (mems : list Tensor3)
    (masks : list (list (list bool))) (seqs : list (list (list nat)))
    (i : nat) (p : Tensor3) :
  exemplar_probs self seq_len bsz x mems masks seqs i = Ok p ->
  TM_probs self seq_len bsz x (nth i mems []) (nth i masks []) (nth i seqs [])
  = Ok p.
Proof.
  intros H. unfold exemplar_probs in H.
  apply bind_Ok in H as (m & Hm & H). apply bind_Ok in H as (k & Hk & H).
  apply (get_Ok _ _ _ []) in Hm as [_ Hm]. apply (get_Ok _ _ _ []) in Hk as [_ Hk].
  assert (Hp : exists cs, nth i seqs [] = cs
                          /\ TM_probs self seq_len bsz x m k cs = Ok p).
  { unfold TM_probs. destruct (attend self seq_len bsz x m k) as [[at_ aw] an].
    apply bind_Ok in H as (cs & Hcs & H).
    apply (get_Ok _ _ _ []) in Hcs as [_ Hcs]. exists cs. auto. }
  destruct Hp as (cs & Hcs & Hp). subst m k cs. exact Hp.
Qed.


(** The block without ensemble: the logarithm of the one block's
    probabilities, no mean. *)
Lemma forward_without_ensemble_entry (self : TransformerDecoderBaseWithTM)
    (x : Tensor3) (encoder_out : EncoderOut) (out : Tensor3) :
  forward_without_ensemble self x encoder_out = Ok out ->
  exists probs,
    probs_without_ensemble self x encoder_out = Ok probs
    /\ forall b t,
         b < batch_size x -> t < target_len x ->
         at2 out b t = map log_floor (at2 probs t b).
Proof.
  unfold forward_without_ensemble. intros H.
  apply bind_Ok in H as (probs & Hp & H). injection H as <-.
  exists probs. split; [exact Hp |]. intros b t Hb Ht.
  rewrite at2_transpose by assumption. apply at2_log_floor3.
Qed.

(** The plain ensemble block: the arithmetic mean of the per-exemplar
    probabilities, then the logarithm. *)
Lemma forward_ensemble_entry (self : TransformerDecoderBaseWithTM)
    (x : Tensor3) (encoder_out : EncoderOut) (out : Tensor3) :
  forward_ensemble self x encoder_out = Ok out ->
  exists ps,
    probs_ensemble self x encoder_out = Ok ps
    /\ length ps = TM_num self
    /\ forall b t v,
         b < batch_size x -> t < target_len x -> v < length (at2 out b t) ->
         nth v (at2 out b t) 0%R
         = log_floor
             (Rsum (map (fun i => nth v (at2 (nth i ps []) t b) 0%R)
                        (seq 0 (TM_num self)))
              / INR (TM_num self))%R.
Proof.
  unfold forward_ensemble. intros H.
  apply bind_Ok in H as (ps & Hps & H).
  apply bind_Ok in H as (final & Hstack & H). injection H as <-.
  exists ps. split; [exact Hps |].
  unfold probs_ensemble in Hps.
  apply bind_Ok in Hps as ([[mems masks] seqs] & _ & Hps).
  apply mapM_Ok in Hps as [Hlen Hnth]. rewrite length_seq in Hlen, Hnth.
  split; [exact Hlen |].
  intros b t v Hb Ht Hv.
  apply stack_reduce_Ok in Hstack as (Hne & _ & Hrows).
  assert (H0 : 0 < TM_num self) by (destruct ps; [congruence | simpl in Hlen; lia]).
  assert (Hhd : hd [] ps = nth 0 ps []) by (destruct ps; reflexivity).
  rewrite Hhd in Hrows.
  specialize (Hnth 0 0 [] H0). rewrite seq_nth in Hnth by exact H0.
  apply exemplar_probs_shape in Hnth as [Hp0 Hp0'].
  destruct (Hrows t ltac:(lia)) as [_ Hcell].
  specialize (Hcell b ltac:(rewrite Hp0' by exact Ht; exact Hb)).
  rewrite at2_transpose in Hv |- * by assumption.
  rewrite at2_log_floor3 in Hv |- *. rewrite length_map in Hv.
  rewrite (nth_map_lt _ _ _ 0%R) by exact Hv.
  rewrite Hcell in Hv |- *. rewrite length_tab in Hv.
  rewrite nth_tab by exact Hv. rewrite length_map, Hlen.
  f_equal. f_equal. f_equal.
  rewrite (@list_as_tab Tensor3 [] ps) at 1. rewrite Hlen, map_map.
  reflexivity.
Qed.

Lemma attend_all_Ok (self : TransformerDecoderBaseWithTM) (seq_len bsz : nat)
    (x : Tensor3) (mems : list Tensor3) (masks : list (list (list bool)))
    (a : list (Tensor3 * Tensor3 * Tensor3)) :
  attend_all self seq_len bsz x mems masks = Ok a ->
  length a = TM_num self
  /\ forall i, i < TM_num self ->
       exists m k,
         get mems i = Ok m /\ get masks i = Ok k
         /\ get a i = Ok (attend self seq_len bsz x m k).
Proof.
  unfold attend_all. intros H. apply mapM_Ok in H as [Hlen Hnth].
  rewrite length_seq in Hlen, Hnth. split; [exact Hlen |].
  intros i Hi. specialize (Hnth i 0 ([], [], []) Hi).
  rewrite seq_nth in Hnth by exact Hi. simpl in Hnth.
  apply bind_Ok in Hnth as (m & Hm & Hnth).
  apply bind_Ok in Hnth as (k & Hk & Hnth).
  exists m, k. split; [exact Hm | split; [exact Hk |]].
  injection Hnth as Hnth. rewrite Hnth.
  apply get_lt. lia.
Qed.

Lemma select_last_Ok (w : Tensor3) (cur_idx : nat) (cw : list (list R)) (b t : nat) :
  select_last w cur_idx = Ok cw ->
  b < length w -> t < length (nth b w []) ->
  nth t (nth b cw []) 0%R = nth cur_idx (at2 w b t) 0%R.
Proof.
  unfold select_last. intros H Hb Ht. apply mapM_Ok in H as [_ Hnth].
  specialize (Hnth b [] [] Hb).
  apply select_column_Ok in Hnth as [_ Hnth]. apply Hnth. exact Ht.
Qed.

(** A learned-weighting block: the weighted sum of the per-exemplar
    probabilities with the weights [input_for_learnable_p], then the
    logarithm. *)
Lemma weighted_sum_entry (self : TransformerDecoderBaseWithTM) (seq_len bsz : nat)
    (x : Tensor3) (a : list (Tensor3 * Tensor3 * Tensor3))
    (mems : list Tensor3) (masks : list (list (list bool)))
    (seqs : list (list (list nat))) (w out : Tensor3) :
  attend_all self seq_len bsz x mems masks = Ok a ->
  length w = bsz ->
  (forall b, b < bsz -> length (nth b w []) = seq_len) ->
  weighted_sum self seq_len bsz x a mems masks seqs w = Ok out ->
  exists ps,
    mapM (exemplar_probs self seq_len bsz x mems masks seqs) (seq 0 (TM_num self))
    = Ok ps
    /\ length ps = TM_num self
    /\ forall b t v,
         b < bsz -> t < seq_len -> v < length (at2 out b t) ->
         nth v (at2 out b t) 0%R
         = log_floor
             (Rsum (map (fun i =>
                           (nth i (at2 w b t) 0
                            * nth v (at2 (nth i ps []) t b) 0)%R)
                        (seq 0 (TM_num self)))).
Proof.
  intros Ha Hw Hw' H. unfold weighted_sum in H.
  apply bind_Ok in H as (lprobs & Hmap & H).
  apply bind_Ok in H as (final & Hstack & H). injection H as <-.
  apply attend_all_Ok in Ha as [Halen Ha].
  apply mapM_Ok in Hmap as [Hlen Hbody]. rewrite length_seq in Hlen, Hbody.
  assert (Hex : forall i, i < TM_num self ->
            exists p cw,
              exemplar_probs self seq_len bsz x mems masks seqs i = Ok p
              /\ select_last w i = Ok cw
              /\ nth i lprobs []
                 = mul_position bsz seq_len (transpose_0_1 seq_len bsz p) cw).
  { intros i Hi. specialize (Hbody i 0 [] Hi). rewrite seq_nth in Hbody by exact Hi.
    simpl in Hbody. destruct (Ha i Hi) as (m & k & Hm & Hk & Hr).
    apply bind_Ok in Hbody as (r & Hr' & Hbody).
    rewrite Hr in Hr'. injection Hr' as <-.
    unfold exemplar_probs. rewrite Hm, Hk. cbn [bind].
    destruct (attend self seq_len bsz x m k) as [[at_ aw] an].
    rewrite Hm, Hk in Hbody. cbn [bind] in Hbody.
    apply bind_Ok in Hbody as (cs & Hcs & Hbody). rewrite Hcs. cbn [bind].
    apply bind_Ok in Hbody as (p & Hp & Hbody).
    apply bind_Ok in Hbody as (cw & Hcw & Hbody). injection Hbody as Hbody.
    exists p, cw. auto. }
  destruct (mapM_total (exemplar_probs self seq_len bsz x mems masks seqs)
              (seq 0 (TM_num self))) as [ps Hps].
  { intros i Hi. apply in_seq in Hi. destruct (Hex i) as (p & _ & Hp & _); [lia |].
    exists p. exact Hp. }
  exists ps. split; [exact Hps |].
  apply mapM_Ok in Hps as [Hpslen Hpsnth]. rewrite length_seq in Hpslen, Hpsnth.
  split; [exact Hpslen |].
  intros b t v Hb Ht Hv.
  assert (Hq : forall i, i < TM_num self ->
            length (nth i lprobs []) = bsz
            /\ length (nth b (nth i lprobs []) []) = seq_len
            /\ at2 (nth i lprobs []) b t
               = map (fun u => (u * nth i (at2 w b t) 0)%R) (at2 (nth i ps []) t b)).
  { intros i Hi. destruct (Hex i Hi) as (p & cw & Hp & Hcw & Hm).
    specialize (Hpsnth i 0 [] Hi). rewrite seq_nth in Hpsnth by exact Hi.
    simpl in Hpsnth. rewrite Hp in Hpsnth. injection Hpsnth as ->.
    rewrite Hm. split; [apply length_tab |]. split.
    - unfold mul_position, tab2. rewrite nth_tab by exact Hb. apply length_tab.
    - rewrite mul_position_entry by assumption.
      rewrite (select_last_Ok w i cw b t Hcw) by (rewrite ?Hw' by exact Hb; lia).
      reflexivity. }
  apply stack_reduce_Ok in Hstack as (Hne & _ & Hrows).
  assert (H0 : 0 < TM_num self).
  { destruct lprobs; [congruence | simpl in Hlen; lia]. }
  assert (Hhd : hd [] lprobs = nth 0 lprobs []) by (destruct lprobs; reflexivity).
  rewrite Hhd in Hrows.
  destruct (Hq 0 H0) as (Hq1 & Hq2 & Hq3).
  destruct (Hrows b ltac:(lia)) as [_ Hcell].
  specialize (Hcell t ltac:(lia)).
  rewrite at2_log_floor3 in Hv |- *. rewrite length_map in Hv.
  rewrite (nth_map_lt _ _ _ 0%R) by exact Hv.
  rewrite Hcell in Hv |- *. rewrite length_tab in Hv.
  rewrite nth_tab by exact Hv. f_equal. f_equal.
  rewrite (@list_as_tab Tensor3 [] lprobs) at 1. rewrite Hlen, map_map.
  apply map_ext_in. intros i Hi. apply in_seq in Hi.
  destruct (Hq i ltac:(lia)) as (_ & _ & Hqi).
  rewrite Hqi, nth_map_scale. lra.
Qed.

(** ** Mean or sum *)

(** C3 (amended).  What [forward] returns, block by block.  The arithmetic
    mean of the [TM_num] per-exemplar probability tensors, followed by the
    logarithm with the 1e-12 floor, is the last block of the chain (the
    plain ensemble: [with_TM_ensemble] on, no similarity scores, no
    learned-weighting model selected).  With [with_TM_ensemble] off the
    output is the logarithm with the floor of the probabilities of the
    packed memory taken as one block: no per-exemplar tensors and no mean.
    The similarity-weighted block and the learned-weighting blocks take a
    weighted sum, so the plain ensemble is the only block with a mean. *)
Theorem mean_only_in_plain_ensemble (self : TransformerDecoderBaseWithTM)
    (prev_output_tokens : list (list nat)) (encoder_out : EncoderOut)
    (incremental_state : option IncrementalState)
    (features_only full_context_alignment : bool)
    (alignment_layer alignment_heads : option nat)
    (src_lengths : option (list nat)) (return_all_hiddens : bool)
    (x : Tensor3) (extra : Extra) (out : Tensor3) (extra' : Extra) :
  extract_features self prev_output_tokens encoder_out incremental_state
    full_context_alignment alignment_layer alignment_heads = (x, extra) ->
  forward self prev_output_tokens encoder_out incremental_state features_only
    full_context_alignment alignment_layer alignment_heads src_lengths
    return_all_hiddens = Ok (out, extra') ->
  (branch_taken self encoder_out = WithoutEnsemble ->
   exists probs,
     probs_without_ensemble self x encoder_out = Ok probs
     /\ forall b t v,
          b < batch_size x -> t < target_len x -> v < length (at2 out b t) ->
          nth v (at2 out b t) 0%R = ln (nth v (at2 probs t b) 0 + 1e-12)%R)
  /\ (branch_taken self encoder_out = PlainEnsemble ->
      exists ps,
        probs_ensemble self x encoder_out = Ok ps
        /\ length ps = TM_num self
        /\ forall b t v,
             b < batch_size x -> t < target_len x -> v < length (at2 out b t) ->
             nth v (at2 out b t) 0%R
             = ln (Rsum (map (fun i => nth v (at2 (nth i ps []) t b) 0%R)
                             (seq 0 (TM_num self)))
                   / INR (TM_num self) + 1e-12)%R)
  /\ (branch_taken self encoder_out = SimilarityWeighted ->
      forall similarity,
        TMs_similarity encoder_out = Some similarity ->
        length similarity = batch_size x ->
        exists ps,
          probs_ensemble self x encoder_out = Ok ps
          /\ length ps = TM_num self
          /\ forall b t v,
               b < batch_size x -> t < target_len x -> v < length (at2 out b t) ->
               nth v (at2 out b t) 0%R
               = ln (Rsum (map (fun i =>
                                  (nth i (nth b similarity []) 0
                                   * nth v (at2 (nth i ps []) t b) 0)%R)
                               (seq 0 (TM_num self)))
                     + 1e-12)%R)
  /\ (forall learnable_p,
        branch_learnable_p (branch_taken self encoder_out) = Some learnable_p ->
        exists ps mems masks seqs a,
          probs_ensemble self x encoder_out = Ok ps
          /\ length ps = TM_num self
          /\ chunk_exemplars self encoder_out = Ok (mems, masks, seqs)
          /\ attend_all self (target_len x) (batch_size x)
               (transpose_0_1 (batch_size x) (target_len x) x) mems masks = Ok a
          /\ forall b t v,
               b < batch_size x -> t < target_len x -> v < length (at2 out b t) ->
               nth v (at2 out b t) 0%R
               = ln (Rsum (map (fun i =>
                                  (nth i (at2 (learnable_p self (target_len x)
                                                 (batch_size x)
                                                 (transpose_0_1 (batch_size x)
                                                    (target_len x) x) a) b t) 0
                                   * nth v (at2 (nth i ps []) t b) 0)%R)
                               (seq 0 (TM_num self)))
                     + 1e-12)%R).
Proof.
  intros Hx H. rewrite forward_run_branch in H. rewrite Hx in H. simpl in H.
  apply bind_Ok in H as (lprobs & Hrun & H). injection H as <- _.
  repeat split.
  - intros Hb. rewrite Hb in Hrun. simpl in Hrun.
    apply forward_without_ensemble_entry in Hrun as (probs & Hp & Hentry).
    exists probs. split; [exact Hp |]. intros b t v Hb' Ht Hv.
    rewrite Hentry in Hv |- * by assumption. rewrite length_map in Hv.
    rewrite (nth_map_lt _ _ _ 0%R) by exact Hv. reflexivity.
  - intros Hb. rewrite Hb in Hrun. simpl in Hrun.
    apply forward_ensemble_entry in Hrun as (ps & Hps & Hlen & Hentry).
    exists ps. split; [exact Hps | split; [exact Hlen |]].
    intros b t v Hb' Ht Hv. rewrite (Hentry b t v Hb' Ht Hv). reflexivity.
  - intros Hb similarity Hs Hlen. rewrite Hb in Hrun. simpl in Hrun.
    rewrite Hs in Hrun.
    apply (forward_similarity_entry self x encoder_out similarity lprobs Hlen)
      in Hrun as (ps & Hps & Hpl & Hentry).
    exists ps. split; [exact Hps | split; [exact Hpl |]].
    intros b t v Hb' Ht Hv. rewrite (Hentry b t v Hb' Ht Hv). reflexivity.
  - intros learnable_p Hl.
    assert (Hrun' : forward_learnable_p self learnable_p x encoder_out = Ok lprobs).
    { destruct (branch_taken self encoder_out); simpl in Hl; try discriminate;
        injection Hl as <-; exact Hrun. }
    clear Hrun. unfold forward_learnable_p in Hrun'.
    apply bind_Ok in Hrun' as ([[mems masks] seqs] & Hch & Hrun').
    apply bind_Ok in Hrun' as (a & Ha & Hrun').
    assert (Hlp : forall s l b0 xx aa, length (learnable_p s l b0 xx aa) = b0
              /\ forall b, b < b0 -> length (nth b (learnable_p s l b0 xx aa) []) = l).
    { intros s l b0 xx aa.
      destruct (branch_taken self encoder_out); simpl in Hl; try discriminate;
        injection Hl as <-;
        (split; [apply length_tab | intros b Hb; unfold learnable_p_unscalable_linear,
           learnable_p_attention, learnable_p_linear, learnable_p_attention_2, tab2;
           rewrite nth_tab by exact Hb; apply length_tab]). }
    destruct (Hlp self (target_len x) (batch_size x)
                (transpose_0_1 (batch_size x) (target_len x) x) a) as [Hw Hw'].
    destruct (weighted_sum_entry self _ _ _ a mems masks seqs _ lprobs Ha Hw Hw' Hrun')
      as (ps & Hps & Hpl & Hentry).
    exists ps, mems, masks, seqs, a.
    rewrite (probs_ensemble_chunks self x encoder_out _ _ _ Hch).
    split; [exact Hps | split; [exact Hpl | split; [exact Hch | split; [exact Ha |]]]].
    intros b t v Hb Ht Hv. rewrite (Hentry b t v Hb Ht Hv). reflexivity.
Qed.

Lemma mean_only_in_plain_ensemble_witness :
  exists out ps,
    forward (toy_decoder true 2 false None 3 0) [[1]] (toy_encoder_out None)
      None false false None None None false = Ok (out, toy_extra)
    /\ probs_ensemble (toy_decoder true 2 false None 3 0) [[[INR 1]]]
         (toy_encoder_out None) = Ok ps
    /\ forall v, v < 3 ->
         nth v (at2 out 0 0) 0%R
         = ln ((nth v (at2 (nth 0 ps []) 0 0) 0
                + (nth v (at2 (nth 1 ps []) 0 0) 0 + 0)) / (1 + 1) + 1e-12)%R.
Proof.
  eexists.
  assert (Hf : forward (toy_decoder true 2 false None 3 0) [[1]]
                 (toy_encoder_out None) None false false None None None false
               = Ok (?[out], toy_extra)) by (cbn; reflexivity).
  destruct (mean_only_in_plain_ensemble (toy_decoder true 2 false None 3 0)
              [[1]] (toy_encoder_out None) None false false None None None false
              [[[INR 1]]] toy_extra _ toy_extra eq_refl Hf)
    as (_ & Hmean & _).
  destruct (Hmean eq_refl) as (ps & Hps & _ & Hentry).
  exists ps. split; [exact Hf | split; [exact Hps |]].
  intros v Hv.
  apply (Hentry 0 0 v); unfold target_len, batch_size; simpl; lia.
Defined.

(** C3, as stated, fails: with [with_TM_ensemble] off and two exemplars (the
    second with a padded position) the output of [forward] is not the
    logarithm of the mean of the two per-exemplar probability tensors. *)
Lemma no_ensemble_is_not_a_mean :
  with_TM_ensemble (toy_decoder false 2 false None 3 0) = false
  /\ exists out ps,
       forward (toy_decoder false 2 false None 3 0) [[1]] (toy_encoder_out None)
         None false false None None None false = Ok (out, toy_extra)
       /\ probs_ensemble (toy_decoder false 2 false None 3 0) [[[INR 1]]]
            (toy_encoder_out None) = Ok ps
       /\ length ps = 2
       /\ nth 0 (at2 out 0 0) 0%R
          <> ln ((nth 0 (at2 (nth 0 ps []) 0 0) 0
                  + nth 0 (at2 (nth 1 ps []) 0 0) 0) / 2 + 1e-12)%R.
Proof.
  split; [reflexivity |].
  eexists. eexists.
  split; [cbn; reflexivity |].
  split; [cbn; reflexivity |].
  split; [reflexivity |].
  cbn. unfold log_floor. rewrite exp_0. intros H.
  apply ln_inv in H; lra.
Qed.

(** ** The learned ensemble weights *)

Lemma branch_fc2_out_features (self : TransformerDecoderBaseWithTM)
    (encoder_out : EncoderOut) :
  match branch_taken self encoder_out with
  | UnscalableLinear => learnable_p_fc2_out_features self = Some (TM_num self)
  | PairwiseLinear | AttentionTwo => learnable_p_fc2_out_features self = Some 1
  | _ => True
  end.
Proof.
  unfold branch_taken, learnable_p_fc2_out_features.
  destruct (with_TM_ensemble self); simpl; [| exact I].
  destruct (TMs_similarity encoder_out); simpl; [exact I |].
  destruct (with_TM_learnable_p self); simpl; [| exact I].
  destruct (model_is self "unscalable_linear"); simpl; [reflexivity |].
  destruct (model_is self "attention"); simpl; [exact I |].
  destruct (model_is self "attention_large"); simpl; [exact I |].
  destruct (model_is self "linear"); simpl; [reflexivity |].
  destruct (model_is self "linear_large"); simpl; [reflexivity |].
  destruct (model_is self "attention_2"); simpl; [reflexivity | exact I].
Qed.

Lemma length_learnable_p_mlp (self : TransformerDecoderBaseWithTM) (n : nat) (v : vec) :
  (forall u, length (learnable_p_fc2 self u) = n) ->
  (forall u, length (dropout_module self u) = length u) ->
  length (learnable_p_mlp self v) = n.
Proof.
  intros Hfc Hdrop. unfold learnable_p_mlp. rewrite Hdrop. apply Hfc.
Qed.

Lemma length_concat_ones {A} (f : A -> vec) (l : list A) :
  (forall a, length (f a) = 1) -> length (concat (map f l)) = length l.
Proof.
  intros H. induction l as [| a l IH]; simpl; [reflexivity |].
  rewrite length_app, H, IH. reflexivity.
Qed.

Lemma softmax_sum_length (l : vec) (n : nat) :
  0 < n -> length l = n -> length (softmax l) = n /\ Rsum (softmax l) = 1%R.
Proof.
  intros Hn Hl. split; [rewrite length_softmax; exact Hl |].
  apply softmax_sum. intros ->. simpl in Hl. lia.
Qed.

Lemma length_attn_normalized_all (a : list (Tensor3 * Tensor3 * Tensor3)) :
  length (attn_normalized_all a) = length a.
Proof. unfold attn_normalized_all. apply length_map. Qed.

Lemma learnable_p_unscalable_linear_row (self : TransformerDecoderBaseWithTM)
    (seq_len bsz : nat) (x : Tensor3) (a : list (Tensor3 * Tensor3 * Tensor3))
    (b t : nat) :
  b < bsz -> t < seq_len ->
  at2 (learnable_p_unscalable_linear self seq_len bsz x a) b t
  = softmax (learnable_p_mlp self
               (at2 x t b ++ concat (map (fun at_ => at2 at_ t b) (attn_all a)))).
Proof.
  intros Hb Ht. unfold learnable_p_unscalable_linear.
  rewrite at2_tab2 by assumption. rewrite at2_transpose by assumption.
  rewrite !at2_tab2 by assumption. reflexivity.
Qed.

Lemma learnable_p_attention_row (self : TransformerDecoderBaseWithTM)
    (seq_len bsz : nat) (x : Tensor3) (a : list (Tensor3 * Tensor3 * Tensor3))
    (b t : nat) :
  b < bsz -> t < seq_len ->
  at2 (learnable_p_attention self seq_len bsz x a) b t
  = softmax (map (attn_score (learnable_p_attn self) (at2 x t b))
                 (map (fun an => at2 an t b) (attn_normalized_all a))).
Proof.
  intros Hb Ht. unfold learnable_p_attention.
  rewrite at2_tab2 by assumption. reflexivity.
Qed.

Lemma learnable_p_linear_row (self : TransformerDecoderBaseWithTM)
    (seq_len bsz : nat) (x : Tensor3) (a : list (Tensor3 * Tensor3 * Tensor3))
    (b t : nat) :
  b < bsz -> t < seq_len ->
  at2 (learnable_p_linear self seq_len bsz x a) b t
  = softmax (concat (map (fun an => learnable_p_mlp self (at2 x t b ++ at2 an t b))
                         (attn_normalized_all a))).
Proof.
  intros Hb Ht. unfold learnable_p_linear.
  rewrite !at2_tab2 by assumption. rewrite map_map. f_equal. f_equal.
  apply map_ext. intros an. rewrite at2_transpose by assumption.
  rewrite at2_tab2 by assumption. reflexivity.
Qed.

Lemma learnable_p_attention_2_row (self : TransformerDecoderBaseWithTM)
    (seq_len bsz : nat) (x : Tensor3) (a : list (Tensor3 * Tensor3 * Tensor3))
    (b t : nat) :
  b < bsz -> t < seq_len ->
  exists pooled,
    at2 (learnable_p_attention_2 self seq_len bsz x a) b t
    = softmax (concat (map (fun an =>
                              learnable_p_mlp self
                                (at2 x t b ++ at2 an t b ++ pooled))
                           (attn_normalized_all a))).
Proof.
  intros Hb Ht. unfold learnable_p_attention_2.
  eexists. rewrite !at2_tab2 by assumption. rewrite map_map. f_equal. f_equal.
  apply map_ext. intros an. rewrite at2_transpose by assumption.
  rewrite at2_tab2 by assumption. rewrite at2_tab2 by assumption. reflexivity.
Qed.

Lemma chunk_exemplars_TM_num (self : TransformerDecoderBaseWithTM)
    (encoder_out : EncoderOut) (mems : list Tensor3)
    (masks : list (list (list bool))) (seqs : list (list (list nat))) :
  chunk_exemplars self encoder_out = Ok (mems, masks, seqs) -> 0 < TM_num self.
Proof.
  unfold chunk_exemplars, chunk_dim0, chunk_with.
  destruct (TM_num self =? 0) eqn:E; [discriminate |].
  intros _. apply Nat.eqb_neq in E. lia.
Qed.

(** C5.  In every learned-weighting block (models [unscalable_linear],
    [attention], [attention_large], [linear], [linear_large],
    [attention_2]) the weights [input_for_learnable_p] that scale the
    per-exemplar probabilities hold, at every (batch element, target
    position), one weight per exemplar, and these sum to one;
    [learnable_p_fc2] has the width that [__init__] gives it and dropout
    keeps the width.  The similarity-weighted block is the exception: the
    weight it reads for exemplar [cur_idx] and batch element [b] is the raw
    score [similarity[b][cur_idx]]. *)
Theorem learned_weights_sum_to_one (self : TransformerDecoderBaseWithTM)
    (encoder_out : EncoderOut)
    (learnable_p : TransformerDecoderBaseWithTM -> nat -> nat -> Tensor3 ->
                   list (Tensor3 * Tensor3 * Tensor3) -> Tensor3)
    (x : Tensor3) (mems : list Tensor3) (masks : list (list (list bool)))
    (seqs : list (list (list nat))) (a : list (Tensor3 * Tensor3 * Tensor3))
    (b t : nat) :
  branch_learnable_p (branch_taken self encoder_out) = Some learnable_p ->
  (forall n, learnable_p_fc2_out_features self = Some n ->
             forall v, length (learnable_p_fc2 self v) = n) ->
  (forall v, length (dropout_module self v) = length v) ->
  chunk_exemplars self encoder_out = Ok (mems, masks, seqs) ->
  attend_all self (target_len x) (batch_size x)
    (transpose_0_1 (batch_size x) (target_len x) x) mems masks = Ok a ->
  b < batch_size x -> t < target_len x ->
  let input_for_learnable_p :=
    learnable_p self (target_len x) (batch_size x)
      (transpose_0_1 (batch_size x) (target_len x) x) a in
  (length (at2 input_for_learnable_p b t) = TM_num self
   /\ Rsum (at2 input_for_learnable_p b t) = 1%R)
  /\ (forall similarity cur_idx cur_TMs_similarity b',
        select_column similarity cur_idx = Ok cur_TMs_similarity ->
        b' < length similarity ->
        nth b' cur_TMs_similarity 0%R = nth cur_idx (nth b' similarity []) 0%R).
Proof.
  intros Hl Hfc Hdrop Hch Hatt Hb Ht. cbv zeta.
  pose proof (chunk_exemplars_TM_num _ _ _ _ _ Hch) as H0.
  apply attend_all_Ok in Hatt as [Ha _].
  set (seq_len := target_len x) in *. set (bsz := batch_size x) in *.
  set (xT := transpose_0_1 bsz seq_len x). split.
  - pose proof (branch_fc2_out_features self encoder_out) as Hw.
    destruct (branch_taken self encoder_out); simpl in Hl; try discriminate;
      injection Hl as <-.
    + rewrite learnable_p_unscalable_linear_row by assumption.
      apply softmax_sum_length; [exact H0 |].
      apply length_learnable_p_mlp; [apply Hfc; exact Hw | exact Hdrop].
    + rewrite learnable_p_attention_row by assumption.
      apply softmax_sum_length; [exact H0 |].
      rewrite !length_map, length_attn_normalized_all. exact Ha.
    + rewrite learnable_p_linear_row by assumption.
      apply softmax_sum_length; [exact H0 |].
      rewrite length_concat_ones, length_attn_normalized_all; [exact Ha |].
      intros an. apply length_learnable_p_mlp; [apply Hfc; exact Hw | exact Hdrop].
    + destruct (learnable_p_attention_2_row self seq_len bsz xT a b t Hb Ht)
        as [pooled ->].
      apply softmax_sum_length; [exact H0 |].
      rewrite length_concat_ones, length_attn_normalized_all; [exact Ha |].
      intros an. apply length_learnable_p_mlp; [apply Hfc; exact Hw | exact Hdrop].
  - intros similarity cur_idx s b' Hs Hb'.
    apply select_column_Ok in Hs as [_ Hs]. apply Hs. exact Hb'.
Qed.

Lemma learned_weights_sum_to_one_witness :
  exists a,
    attend_all (toy_decoder true 2 true (Some "linear"%string) 3 1) 1 1
      [[[INR 1]]] [[[[0%R]]; [[0%R]]]; [[[0%R]]; [[0%R]]]]
      [[[false; false]]; [[false; true]]] = Ok a
    /\ Rsum (at2 (learnable_p_linear
                    (toy_decoder true 2 true (Some "linear"%string) 3 1) 1 1
                    [[[INR 1]]] a) 0 0) = 1%R.
Proof.
  eexists.
  assert (Hatt : attend_all (toy_decoder true 2 true (Some "linear"%string) 3 1)
                   1 1 [[[INR 1]]] [[[[0%R]]; [[0%R]]]; [[[0%R]]; [[0%R]]]]
                   [[[false; false]]; [[false; true]]] = Ok ?[a])
    by (cbn; reflexivity).
  split; [exact Hatt |].
  apply (learned_weights_sum_to_one
           (toy_decoder true 2 true (Some "linear"%string) 3 1)
           (toy_encoder_out None) learnable_p_linear [[[INR 1]]]
           [[[[0%R]]; [[0%R]]]; [[[0%R]]; [[0%R]]]]
           [[[false; false]]; [[false; true]]]
           [[[0]; [1]]; [[2]; [2]]] _ 0 0 eq_refl).
  - intros n Hn v. cbn in Hn. injection Hn as <-. reflexivity.
  - intros v. reflexivity.
  - reflexivity.
  - exact Hatt.
  - unfold batch_size. simpl. lia.
  - unfold target_len. simpl. lia.
Defined.

(** ** Chunking the exemplar axis *)

Lemma split_size_exact (n L : nat) : 0 < n -> split_size (n * L) n = L.
Proof.
  intros Hn. unfold split_size. symmetry.
  apply (Nat.div_unique _ n L (n - 1)); lia.
Qed.

Lemma num_splits_exact (n L : nat) : 0 < n -> 0 < L -> num_splits (n * L) L = n.
Proof.
  intros Hn HL. unfold num_splits.
  replace ((n * L + L - 1) / L) with n; [lia |].
  apply (Nat.div_unique _ L n (L - 1)); lia.
Qed.

(** When the length is a multiple of [chunks], [chunk] returns [chunks]
    pieces of equal length. *)
Lemma chunk_dim0_exact {A} (l : list A) (chunks : nat) :
  0 < chunks -> length l mod chunks = 0 ->
  exists cs,
    chunk_dim0 l chunks = Ok cs
    /\ length cs = chunks
    /\ Forall (fun c => length c = length l / chunks) cs.
Proof.
  intros Hn Hmod.
  assert (HS : length l = chunks * (length l / chunks))
    by (apply Nat.Div0.div_exact; exact Hmod).
  set (L := length l / chunks) in *.
  unfold chunk_dim0, chunk_with.
  destruct (chunks =? 0) eqn:E; [apply Nat.eqb_eq in E; lia |].
  cbv zeta. rewrite HS. rewrite split_size_exact by exact Hn.
  destruct (L =? 0) eqn:EL; cbn [andb].
  - apply Nat.eqb_eq in EL.
    replace (chunks * L =? 0) with true by (symmetry; apply Nat.eqb_eq; nia).
    eexists. split; [reflexivity |].
    split; [apply repeat_length |].
    apply Forall_forall. intros c Hc. apply repeat_spec in Hc. subst c.
    rewrite EL. reflexivity.
  - apply Nat.eqb_neq in EL. eexists. split; [reflexivity |].
    rewrite num_splits_exact by lia.
    split; [apply length_tab |].
    apply Forall_forall. intros c Hc. unfold tab in Hc.
    apply in_map_iff in Hc as (k & <- & Hk). apply in_seq in Hk.
    unfold narrow. rewrite length_firstn, length_skipn. nia.
Qed.

Lemma chunk_exemplars_Ok (self : TransformerDecoderBaseWithTM)
    (encoder_out : EncoderOut) (mems : list Tensor3)
    (masks : list (list (list bool))) (seqs : list (list (list nat))) :
  chunk_exemplars self encoder_out = Ok (mems, masks, seqs) ->
  chunk_dim0 (memory_encoder_out encoder_out) (TM_num self) = Ok mems.
Proof.
  unfold chunk_exemplars. intros H.
  apply bind_Ok in H as (m & Hm & H). apply bind_Ok in H as (k & _ & H).
  apply bind_Ok in H as (s & _ & H). injection H as <- _ _. exact Hm.
Qed.

Lemma exemplar_probs_missing (self : TransformerDecoderBaseWithTM)
    (seq_len bsz : nat) (x : Tensor3) (mems : list Tensor3)
    (masks : list (list (list bool))) (seqs : list (list (list nat))) (i : nat) :
  length mems <= i ->
  exemplar_probs self seq_len bsz x mems masks seqs i = Err IndexError.
Proof.
  intros H. unfold exemplar_probs. rewrite get_ge by exact H. reflexivity.
Qed.

Lemma mapM_seq_Err {B} (f : nat -> result B) (n i : nat) (e : error) :
  i < n -> f i = Err e -> exists e', mapM f (seq 0 n) = Err e'.
Proof.
  intros Hi He. apply (mapM_Err f _ i e); [apply in_seq; lia | exact He].
Qed.

Lemma bind_fails {A B} (c : result A) (k : A -> result B) :
  (exists e, c = Err e) -> exists e, bind c k = Err e.
Proof. intros [e ->]. exists e. reflexivity. Qed.

(** A block of the ensemble fails when [chunk] gives fewer than [TM_num]
    pieces of memory. *)
Lemma ensemble_branch_fails (self : TransformerDecoderBaseWithTM)
    (encoder_out : EncoderOut) (x : Tensor3) (br : branch) :
  br <> WithoutEnsemble ->
  (forall cs, chunk_dim0 (memory_encoder_out encoder_out) (TM_num self) = Ok cs ->
              length cs < TM_num self) ->
  (br = SimilarityWeighted -> TMs_similarity encoder_out <> None) ->
  exists e, run_branch self br x encoder_out = Err e.
Proof.
  intros Hbr Hfew Hsim.
  assert (Hex : forall mems masks seqs,
            chunk_exemplars self encoder_out = Ok (mems, masks, seqs) ->
            exists e,
              mapM (exemplar_probs self (target_len x) (batch_size x)
                      (transpose_0_1 (batch_size x) (target_len x) x)
                      mems masks seqs) (seq 0 (TM_num self)) = Err e).
  { intros mems masks seqs Hch.
    pose proof (Hfew _ (chunk_exemplars_Ok _ _ _ _ _ Hch)) as Hlt.
    apply (mapM_seq_Err _ _ (length mems) IndexError Hlt).
    apply exemplar_probs_missing. lia. }
  assert (Hlearn : forall f, exists e,
            forward_learnable_p self f x encoder_out = Err e).
  { intros f. unfold forward_learnable_p.
    destruct (chunk_exemplars self encoder_out) as [[[mems masks] seqs] | e] eqn:Hch;
      [| exists e; reflexivity].
    cbn [bind]. apply bind_fails. unfold attend_all.
    pose proof (Hfew _ (chunk_exemplars_Ok _ _ _ _ _ Hch)) as Hlt.
    apply (mapM_seq_Err _ _ (length mems) IndexError Hlt).
    rewrite get_ge by lia. reflexivity. }
  destruct br; simpl; try congruence; try apply Hlearn.
  - destruct (TMs_similarity encoder_out) as [similarity |];
      [| exfalso; apply Hsim; reflexivity].
    unfold forward_similarity.
    destruct (chunk_exemplars self encoder_out) as [[[mems masks] seqs] | e] eqn:Hch;
      [| exists e; reflexivity].
    cbn [bind]. apply bind_fails.
    pose proof (Hfew _ (chunk_exemplars_Ok _ _ _ _ _ Hch)) as Hlt.
    apply (mapM_seq_Err _ _ (length mems) IndexError Hlt).
    rewrite exemplar_probs_missing by lia. reflexivity.
  - unfold forward_ensemble. apply bind_fails. unfold probs_ensemble.
    destruct (chunk_exemplars self encoder_out) as [[[mems masks] seqs] | e] eqn:Hch;
      [| exists e; reflexivity].
    cbn [bind]. apply (Hex _ _ _ eq_refl).
Qed.

(** C6 (amended).  [forward] has no divisibility check.  With
    [with_TM_ensemble] on it cuts the exemplar axis with [chunk]: when
    [chunk] returns fewer than [TM_num] pieces of memory (or refuses), the
    call fails; when the total exemplar length is a multiple of [TM_num],
    [chunk] returns [TM_num] pieces of equal length. *)
Theorem chunking_without_divisibility_check (self : TransformerDecoderBaseWithTM)
    (prev_output_tokens : list (list nat)) (encoder_out : EncoderOut)
    (incremental_state : option IncrementalState)
    (features_only full_context_alignment : bool)
    (alignment_layer alignment_heads : option nat)
    (src_lengths : option (list nat)) (return_all_hiddens : bool) :
  with_TM_ensemble self = true ->
  ((forall cs,
      chunk_dim0 (memory_encoder_out encoder_out) (TM_num self) = Ok cs ->
      length cs < TM_num self) ->
   exists e,
     forward self prev_output_tokens encoder_out incremental_state features_only
       full_context_alignment alignment_layer alignment_heads src_lengths
       return_all_hiddens = Err e)
  /\ (0 < TM_num self ->
      length (memory_encoder_out encoder_out) mod TM_num self = 0 ->
      exists TM_num_memorys,
        chunk_dim0 (memory_encoder_out encoder_out) (TM_num self)
        = Ok TM_num_memorys
        /\ length TM_num_memorys = TM_num self
        /\ Forall (fun cur_memory =>
                     length cur_memory
                     = length (memory_encoder_out encoder_out) / TM_num self)
                  TM_num_memorys).
Proof.
  intros He. split.
  - intros Hfew. rewrite forward_run_branch. cbv zeta. apply bind_fails.
    apply ensemble_branch_fails; [| exact Hfew |].
    + unfold branch_taken. rewrite He. simpl.
      destruct (TMs_similarity encoder_out); simpl; [discriminate |].
      repeat match goal with
             | |- context [if ?c then _ else _] => destruct c
             end; discriminate.
    + unfold branch_taken. rewrite He. simpl.
      destruct (TMs_similarity encoder_out); simpl; [discriminate |].
      repeat match goal with
             | |- context [if ?c then _ else _] => destruct c
             end; discriminate.
  - intros Hn Hmod. apply chunk_dim0_exact; assumption.
Qed.

Lemma chunking_without_divisibility_check_witness :
  exists e,
    forward (toy_decoder true 4 false None 3 0) [[1]] odd_encoder_out
      None false false None None None false = Err e.
Proof.
  apply (chunking_without_divisibility_check (toy_decoder true 4 false None 3 0)
           [[1]] odd_encoder_out None false false None None None false eq_refl).
  intros cs H. cbn in H. injection H as <-. simpl. lia.
Defined.

(** C6, as stated, fails: three exemplar positions are not a multiple of
    [TM_num = 2], [chunk] cuts them into a piece of two and a piece of one,
    and [forward] returns a result. *)
Lemma indivisible_length_is_accepted :
  length (memory_encoder_out odd_encoder_out)
    mod TM_num (toy_decoder true 2 false None 3 0) <> 0
  /\ chunk_dim0 (TMs odd_encoder_out) (TM_num (toy_decoder true 2 false None 3 0))
     = Ok [[[0]; [1]]; [[2]]]
  /\ exists out,
       forward (toy_decoder true 2 false None 3 0) [[1]] odd_encoder_out
         None false false None None None false = Ok out.
Proof.
  split; [simpl; discriminate |].
  split; [reflexivity |].
  eexists. cbn. reflexivity.
Qed.

(** ** The similarity-weighted block returns on well-formed input *)




Lemma length_narrow {A} (start len : nat) (l : list A) :
  length (narrow start len l) = Nat.min len (length l - start).
Proof. unfold narrow. rewrite length_firstn, length_skipn. reflexivity. Qed.



Lemma fuse_cell_length (self : TransformerDecoderBaseWithTM) (seq_len bsz : nat)
    (x at_ aw an : Tensor3) (cs : list (list nat)) (V : nat) (p : Tensor3)
    (t b : nat) :
  (forall v, length (output_layer self v) = V) ->
  fuse self seq_len bsz x at_ aw an cs = Ok p ->
  t < seq_len -> b < bsz -> length (at2 p t b) = V.
Proof.
  intros HV H Ht Hb. apply fuse_shape in H as (index & _ & _ & H).
  destruct (H t Ht) as [_ Hcell].
  apply (copy_generate_row_length self _ _ _ _ _ V _ HV (Hcell b Hb)).
Qed.

Lemma shape3_scaled (seq_len bsz V : nat) (p : Tensor3) (s : list R) (q : Tensor3) :
  length s = bsz ->
  (forall t b, t < seq_len -> b < bsz -> length (at2 p t b) = V) ->
  mul_batch (transpose_0_1 seq_len bsz p) s = Ok q ->
  shape3 q = tab2 bsz seq_len (fun _ _ => V).
Proof.
  intros Hs Hp H. unfold mul_batch in H.
  rewrite length_transpose, Hs, Nat.eqb_refl in H. injection H as <-.
  unfold shape3, tab2, tab. rewrite map_map.
  apply map_ext_in. intros b Hb. apply in_seq in Hb.
  unfold transpose_0_1, tab2. rewrite nth_tab by lia.
  unfold tab. rewrite !map_map.
  apply map_ext_in. intros t Ht. apply in_seq in Ht.
  rewrite length_map. apply Hp; lia.
Qed.



(* ================================================================== *)
(** * Further properties of [forward] *)

(** ** Shapes *)

Lemma tab_nth {A} (d : A) (l : list A) : tab (length l) (fun i => nth i l d) = l.
Proof. symmetry. apply list_as_tab. Qed.

Lemma map_tab {A B} (g : A -> B) (n : nat) (f : nat -> A) :
  map g (tab n f) = tab n (fun i => g (f i)).
Proof. unfold tab. apply map_map. Qed.

Lemma shape3_as_tab (t : Tensor3) :
  shape3 t
  = tab (length t) (fun i =>
      tab (length (nth i t [])) (fun j => length (at2 t i j))).
Proof.
  unfold shape3.
  rewrite <- (tab_nth [] t) at 1. rewrite map_tab.
  apply tab_ext. intros i Hi.
  rewrite <- (tab_nth [] (nth i t [])) at 1. rewrite map_tab.
  reflexivity.
Qed.

Lemma shape3_tab2 (n m : nat) (f : nat -> nat -> vec) :
  shape3 (tab2 n m f) = tab2 n m (fun i j => length (f i j)).
Proof.
  unfold shape3, tab2. rewrite map_tab. apply tab_ext. intros i Hi.
  apply map_tab.
Qed.

Lemma shape3_log_floor3 (t : Tensor3) : shape3 (log_floor3 t) = shape3 t.
Proof.
  unfold shape3, log_floor3. rewrite map_map. apply map_ext. intros r.
  rewrite map_map. apply map_ext. intros c. apply length_map.
Qed.

Lemma stack_reduce_shape (red : list R -> R) (ps : list Tensor3) (out : Tensor3) :
  stack_reduce red ps = Ok out -> shape3 out = shape3 (hd [] ps).
Proof.
  unfold stack_reduce. destruct ps as [| p ps]; [discriminate |].
  destruct (forallb (same_shape p) (p :: ps)); [| discriminate].
  intros H; injection H as <-. simpl hd.
  rewrite (shape3_as_tab p). unfold shape3. rewrite map_tab.
  apply tab_ext. intros i Hi. rewrite map_tab.
  apply tab_ext. intros j Hj. apply length_tab.
Qed.

Lemma exemplar_probs_cell (self : TransformerDecoderBaseWithTM) (seq_len bsz : nat)
    (x : Tensor3) (mems : list Tensor3) (masks : list (list (list bool)))
    (seqs : list (list (list nat))) (i V : nat) (p : Tensor3) (t b : nat) :
  (forall v, length (output_layer self v) = V) ->
  exemplar_probs self seq_len bsz x mems masks seqs i = Ok p ->
  t < seq_len -> b < bsz -> length (at2 p t b) = V.
Proof.
  intros HV H Ht Hb. unfold exemplar_probs in H.
  apply bind_Ok in H as (m & _ & H). apply bind_Ok in H as (k & _ & H).
  destruct (attend self seq_len bsz x m k) as [[at_ aw] an].
  apply bind_Ok in H as (cs & _ & H).
  apply (fuse_cell_length self _ _ _ _ _ _ _ V p t b HV H Ht Hb).
Qed.

Lemma shape3_transposed_cells (n m V : nat) (t : Tensor3) :
  (forall i j, i < n -> j < m -> length (at2 t i j) = V) ->
  shape3 (transpose_0_1 n m t) = tab2 m n (fun _ _ => V).
Proof.
  intros H. unfold transpose_0_1. rewrite shape3_tab2.
  apply tab2_ext. intros j i Hj Hi. apply H; assumption.
Qed.

(** What the loop of the similarity-weighted block leaves behind. *)
Lemma forward_similarity_inv (self : TransformerDecoderBaseWithTM)
    (x : Tensor3) (encoder_out : EncoderOut) (similarity : list (list R))
    (out : Tensor3) :
  forward_similarity self x encoder_out similarity = Ok out ->
  exists mems masks seqs lprobs final,
    chunk_exemplars self encoder_out = Ok (mems, masks, seqs)
    /\ length lprobs = TM_num self
    /\ (forall i, i < TM_num self ->
          exists p s,
            exemplar_probs self (target_len x) (batch_size x)
              (transpose_0_1 (batch_size x) (target_len x) x) mems masks seqs i
            = Ok p
            /\ select_column similarity i = Ok s
            /\ mul_batch (transpose_0_1 (target_len x) (batch_size x) p) s
               = Ok (nth i lprobs []))
    /\ stack_sum lprobs = Ok final
    /\ out = log_floor3 final.
Proof.
  intros H. unfold forward_similarity in H.
  apply bind_Ok in H as ([[mems masks] seqs] & Hch & H).
  apply bind_Ok in H as (lprobs & Hmap & H).
  apply bind_Ok in H as (final & Hstack & H). injection H as <-.
  exists mems, masks, seqs, lprobs, final.
  apply mapM_Ok in Hmap as [Hlen Hbody]. rewrite length_seq in Hlen, Hbody.
  repeat split; try assumption.
  intros i Hi. specialize (Hbody i 0 [] Hi). rewrite seq_nth in Hbody by exact Hi.
  simpl in Hbody.
  apply bind_Ok in Hbody as (p & Hp & Hbody).
  apply bind_Ok in Hbody as (s & Hs & Hbody).
  exists p, s. auto.
Qed.

(** What the loops of a learned-weighting block leave behind. *)
Lemma forward_learnable_p_inv (self : TransformerDecoderBaseWithTM)
    (learnable_p : TransformerDecoderBaseWithTM -> nat -> nat -> Tensor3 ->
                   list (Tensor3 * Tensor3 * Tensor3) -> Tensor3)
    (x : Tensor3) (encoder_out : EncoderOut) (out : Tensor3) :
  forward_learnable_p self learnable_p x encoder_out = Ok out ->
  exists mems masks seqs a lprobs final,
    chunk_exemplars self encoder_out = Ok (mems, masks, seqs)
    /\ attend_all self (target_len x) (batch_size x)
         (transpose_0_1 (batch_size x) (target_len x) x) mems masks = Ok a
    /\ length lprobs = TM_num self
    /\ (forall i, i < TM_num self ->
          exists p cw,
            exemplar_probs self (target_len x) (batch_size x)
              (transpose_0_1 (batch_size x) (target_len x) x) mems masks seqs i
            = Ok p
            /\ select_last
                 (learnable_p self (target_len x) (batch_size x)
                    (transpose_0_1 (batch_size x) (target_len x) x) a) i = Ok cw
            /\ nth i lprobs []
               = mul_position (batch_size x) (target_len x)
                   (transpose_0_1 (target_len x) (batch_size x) p) cw)
    /\ stack_sum lprobs = Ok final
    /\ out = log_floor3 final.
Proof.
  intros H. unfold forward_learnable_p in H.
  apply bind_Ok in H as ([[mems masks] seqs] & Hch & H).
  apply bind_Ok in H as (a & Ha & H).
  unfold weighted_sum in H.
  apply bind_Ok in H as (lprobs & Hmap & H).
  apply bind_Ok in H as (final & Hstack & H). injection H as <-.
  exists mems, masks, seqs, a, lprobs, final.
  pose proof (attend_all_Ok _ _ _ _ _ _ _ Ha) as [_ Hall].
  apply mapM_Ok in Hmap as [Hlen Hbody]. rewrite length_seq in Hlen, Hbody.
  repeat split; try assumption.
  intros i Hi. specialize (Hbody i 0 [] Hi). rewrite seq_nth in Hbody by exact Hi.
  simpl in Hbody. destruct (Hall i Hi) as (m & k & Hm & Hk & Hr).
  apply bind_Ok in Hbody as (r & Hr' & Hbody).
  rewrite Hr in Hr'. injection Hr' as <-.
  unfold exemplar_probs. rewrite Hm, Hk. cbn [bind].
  destruct (attend self _ _ _ m k) as [[at_ aw] an].
  rewrite Hm, Hk in Hbody. cbn [bind] in Hbody.
  apply bind_Ok in Hbody as (cs & Hcs & Hbody). rewrite Hcs. cbn [bind].
  apply bind_Ok in Hbody as (p & Hp & Hbody).
  apply bind_Ok in Hbody as (cw & Hcw & Hbody). injection Hbody as Hbody.
  exists p, cw. auto.
Qed.

Lemma run_branch_shape (self : TransformerDecoderBaseWithTM) (br : branch)
    (x : Tensor3) (encoder_out : EncoderOut) (V : nat) (out : Tensor3) :
  (forall v, length (output_layer self v) = V) ->
  (forall similarity,
     TMs_similarity encoder_out = Some similarity ->
     length similarity = batch_size x) ->
  run_branch self br x encoder_out = Ok out ->
  shape3 out = tab2 (batch_size x) (target_len x) (fun _ _ => V).
Proof.
  intros HV Hsim H.
  set (bsz := batch_size x) in *. set (seq_len := target_len x) in *.
  assert (Hlearn : forall f, forward_learnable_p self f x encoder_out = Ok out ->
            shape3 out = tab2 bsz seq_len (fun _ _ => V)).
  { intros f Hf.
    apply forward_learnable_p_inv in Hf
      as (mems & masks & seqs & a & lprobs & final & Hch & Ha & Hlen & Hbody
          & Hstack & ->).
    rewrite shape3_log_floor3, (stack_reduce_shape _ _ _ Hstack).
    pose proof (chunk_exemplars_TM_num _ _ _ _ _ Hch) as H0.
    replace (hd [] lprobs) with (nth 0 lprobs []) by (destruct lprobs; reflexivity).
    destruct (Hbody 0 H0) as (p & cw & Hp & _ & ->).
    unfold mul_position. rewrite shape3_tab2. apply tab2_ext. intros b t Hb Ht.
    rewrite length_map, at2_transpose by assumption.
    apply (exemplar_probs_cell self _ _ _ _ _ _ _ V p t b HV Hp Ht Hb). }
  destruct br; cbn [run_branch] in H; try (eapply Hlearn; exact H).
  - unfold forward_without_ensemble in H.
    apply bind_Ok in H as (probs & Hp & H). injection H as <-.
    unfold probs_without_ensemble in Hp. rewrite TM_probs_fuse in Hp.
    apply shape3_transposed_cells. intros t b Ht Hb.
    rewrite at2_log_floor3, length_map.
    apply (fuse_cell_length self _ _ _ _ _ _ _ V probs t b HV Hp Ht Hb).
  - destruct (TMs_similarity encoder_out) as [similarity |]; [| discriminate].
    specialize (Hsim similarity eq_refl).
    apply forward_similarity_inv in H
      as (mems & masks & seqs & lprobs & final & Hch & Hlen & Hbody & Hstack & ->).
    rewrite shape3_log_floor3, (stack_reduce_shape _ _ _ Hstack).
    pose proof (chunk_exemplars_TM_num _ _ _ _ _ Hch) as H0.
    replace (hd [] lprobs) with (nth 0 lprobs []) by (destruct lprobs; reflexivity).
    destruct (Hbody 0 H0) as (p & s & Hp & Hs & Hm).
    apply select_column_Ok in Hs as [Hslen _].
    apply (shape3_scaled seq_len bsz V p s _); [lia | | exact Hm].
    intros t b Ht Hb.
    apply (exemplar_probs_cell self _ _ _ _ _ _ _ V p t b HV Hp Ht Hb).
  - unfold forward_ensemble in H.
    apply bind_Ok in H as (ps & Hps & H).
    apply bind_Ok in H as (final & Hstack & H). injection H as <-.
    unfold probs_ensemble in Hps.
    apply bind_Ok in Hps as ([[mems masks] seqs] & Hch & Hps).
    pose proof (chunk_exemplars_TM_num _ _ _ _ _ Hch) as H0.
    apply mapM_Ok in Hps as [Hlen Hnth]. rewrite length_seq in Hlen, Hnth.
    specialize (Hnth 0 0 [] H0). rewrite seq_nth in Hnth by exact H0.
    pose proof (exemplar_probs_shape _ _ _ _ _ _ _ _ _ Hnth) as [Hp0 Hp0'].
    apply stack_reduce_Ok in Hstack as (_ & _ & Hrows).
    replace (hd [] ps) with (nth 0 ps []) in Hrows by (destruct ps; reflexivity).
    apply shape3_transposed_cells. intros t b Ht Hb.
    rewrite at2_log_floor3, length_map.
    destruct (Hrows t ltac:(fold seq_len in Hp0; lia)) as [_ Hcell].
    rewrite Hcell by (rewrite Hp0' by exact Ht; exact Hb).
    rewrite length_tab.
    apply (exemplar_probs_cell self _ _ _ _ _ _ _ V _ t b HV Hnth Ht Hb).
Qed.

(** ** The similarity-weighted output *)



(** ** What [forward] returns, whatever [features_only] *)

Lemma run_branch_learnable_p (self : TransformerDecoderBaseWithTM) (br : branch)
    (learnable_p : TransformerDecoderBaseWithTM -> nat -> nat -> Tensor3 ->
                   list (Tensor3 * Tensor3 * Tensor3) -> Tensor3)
    (x : Tensor3) (encoder_out : EncoderOut) :
  branch_learnable_p br = Some learnable_p ->
  run_branch self br x encoder_out
  = forward_learnable_p self learnable_p x encoder_out.
Proof.
  destruct br; simpl; intros H; try discriminate; injection H as <-; reflexivity.
Qed.

Lemma shape3_tab2_inv (n m : nat) (w : nat -> nat -> nat) (out : Tensor3) :
  shape3 out = tab2 n m w ->
  length out = n
  /\ forall b, b < n ->
       length (nth b out []) = m
       /\ forall t, t < m -> length (at2 out b t) = w b t.
Proof.
  intros H. split.
  - apply (f_equal (@length _)) in H. unfold shape3, tab2 in H.
    rewrite length_map, length_tab in H. exact H.
  - intros b Hb.
    assert (Hrow : map (@length R) (nth b out []) = tab m (w b)).
    { apply (f_equal (fun s => nth b s [])) in H. unfold shape3 in H.
      rewrite nth_map_nil in H. unfold tab2 in H.
      rewrite nth_tab in H by exact Hb. exact H. }
    split.
    + apply (f_equal (@length _)) in Hrow.
      rewrite length_map, length_tab in Hrow. exact Hrow.
    + intros t Ht. apply (f_equal (fun s => nth t s 0)) in Hrow.
      rewrite nth_tab in Hrow by exact Ht. rewrite <- Hrow. unfold at2.
      symmetry. exact (map_nth (@length R) (nth b out []) [] t).
Qed.

Lemma shape3_scaled_cells (seq_len bsz : nat) (p : Tensor3) (s : list R)
    (q : Tensor3) :
  length s = bsz ->
  mul_batch (transpose_0_1 seq_len bsz p) s = Ok q ->
  shape3 q = tab2 bsz seq_len (fun b t => length (at2 p t b)).
Proof.
  intros Hs H. unfold mul_batch in H.
  rewrite length_transpose, Hs, Nat.eqb_refl in H. injection H as <-.
  unfold shape3, tab2, tab. rewrite map_map.
  apply map_ext_in. intros b Hb. apply in_seq in Hb.
  unfold transpose_0_1, tab2. rewrite nth_tab by lia.
  unfold tab. rewrite !map_map.
  apply map_ext_in. intros t Ht. apply in_seq in Ht.
  rewrite length_map. reflexivity.
Qed.

(** From the probability tensors of the blocks to [log_of_fused]. *)
Lemma log_of_fused_intro (self : TransformerDecoderBaseWithTM) (x : Tensor3)
    (mems : list Tensor3) (masks : list (list (list bool)))
    (seqs : list (list (list nat))) (n : nat) (weight : nat -> nat -> nat -> R)
    (out : Tensor3) (ps : list Tensor3) :
  0 < n ->
  (forall i, i < n ->
     TM_probs self (target_len x) (batch_size x)
       (transpose_0_1 (batch_size x) (target_len x) x)
       (nth i mems []) (nth i masks []) (nth i seqs []) = Ok (nth i ps [])) ->
  shape3 out
  = tab2 (batch_size x) (target_len x)
      (fun b t => length (at2 (nth 0 ps []) t b)) ->
  (forall b t v,
     b < batch_size x -> t < target_len x -> v < length (at2 out b t) ->
     nth v (at2 out b t) 0%R
     = log_floor (Rsum (map (fun i => (weight i b t
                                       * nth v (at2 (nth i ps []) t b) 0)%R)
                            (seq 0 n)))) ->
  log_of_fused self x mems masks seqs n weight out.
Proof.
  intros Hn Hps Hshape Hentry. unfold log_of_fused. cbv zeta.
  set (bsz := batch_size x) in *. set (seq_len := target_len x) in *.
  set (xT := transpose_0_1 bsz seq_len x) in *.
  exists (tab n (fun i => match copy_index (nth i seqs []) bsz with
                          | Ok index => index
                          | Err _ => []
                          end)).
  assert (Hix : forall i, i < n ->
            exists index,
              copy_index (nth i seqs []) bsz = Ok index
              /\ forall t b v, t < seq_len -> b < bsz ->
                   nth v (at2 (nth i ps []) t b) 0%R
                   = fused_entry self seq_len bsz xT (nth i mems [])
                       (nth i masks []) (nth b index []) t b v).
  { intros i Hi. apply (TM_probs_entry self _ _ _ _ _ _ _ (Hps i Hi)). }
  split; [apply length_tab |]. split.
  - intros i Hi. destruct (Hix i Hi) as (index & Hc & _).
    rewrite nth_tab by exact Hi. rewrite Hc. reflexivity.
  - destruct (shape3_tab2_inv _ _ _ _ Hshape) as [Hl Hrows].
    split; [exact Hl |].
    intros b Hb. destruct (Hrows b Hb) as [Hr Hcells]. split; [exact Hr |].
    intros t Ht. split.
    + rewrite (Hcells t Ht).
      apply (TM_probs_width self _ _ _ _ _ _ _ t b (Hps 0 Hn) Ht Hb).
    + intros v Hv. rewrite (Hentry b t v Hb Ht Hv). unfold log_floor.
      f_equal. f_equal. apply f_equal.
      apply map_ext_in. intros i Hi. apply in_seq in Hi.
      destruct (Hix i ltac:(lia)) as (index & Hc & He).
      rewrite nth_tab by lia. rewrite Hc. rewrite (He t b v Ht Hb).
      reflexivity.
Qed.

Lemma forward_without_ensemble_fused (self : TransformerDecoderBaseWithTM)
    (x : Tensor3) (encoder_out : EncoderOut) (out : Tensor3) :
  forward_without_ensemble self x encoder_out = Ok out ->
  log_of_fused self x [memory_encoder_out encoder_out]
    [memory_encoder_padding_mask encoder_out] [TMs encoder_out] 1
    (fun _ _ _ => 1%R) out.
Proof.
  intros H. pose proof H as H'. unfold forward_without_ensemble in H'.
  apply bind_Ok in H' as (probs & Hp & Ho). injection Ho as Ho.
  apply (log_of_fused_intro self x _ _ _ 1 _ out [probs]).
  - lia.
  - intros i Hi. assert (i = 0) as -> by lia. exact Hp.
  - rewrite <- Ho. unfold transpose_0_1. rewrite shape3_tab2.
    apply tab2_ext. intros b t Hb Ht.
    rewrite at2_log_floor3, length_map. reflexivity.
  - intros b t v Hb Ht Hv.
    apply forward_without_ensemble_entry in H as (probs' & Hp' & He).
    rewrite Hp in Hp'. injection Hp' as <-.
    rewrite (He b t Hb Ht) in Hv |- *. rewrite length_map in Hv.
    rewrite (nth_map_lt _ _ _ 0%R) by exact Hv.
    unfold log_floor. apply f_equal. simpl. lra.
Qed.

Lemma forward_ensemble_fused (self : TransformerDecoderBaseWithTM)
    (x : Tensor3) (encoder_out : EncoderOut) (out : Tensor3) :
  forward_ensemble self x encoder_out = Ok out ->
  exists mems masks seqs,
    chunk_exemplars self encoder_out = Ok (mems, masks, seqs)
    /\ log_of_fused self x mems masks seqs (TM_num self)
         (fun _ _ _ => (/ INR (TM_num self))%R) out.
Proof.
  intros H.
  pose proof (forward_ensemble_entry _ _ _ _ H) as (ps & Hps & Hlen & Hentry).
  pose proof Hps as Hps'. unfold probs_ensemble in Hps'.
  apply bind_Ok in Hps' as ([[mems masks] seqs] & Hch & Hmap).
  apply mapM_Ok in Hmap as [_ Hnth]. rewrite length_seq in Hnth.
  exists mems, masks, seqs. split; [exact Hch |].
  pose proof (chunk_exemplars_TM_num _ _ _ _ _ Hch) as H0.
  assert (Hex : forall i, i < TM_num self ->
            exemplar_probs self (target_len x) (batch_size x)
              (transpose_0_1 (batch_size x) (target_len x) x) mems masks seqs i
            = Ok (nth i ps [])).
  { intros i Hi. specialize (Hnth i 0 [] Hi).
    rewrite seq_nth in Hnth by exact Hi. exact Hnth. }
  apply (log_of_fused_intro self x _ _ _ _ _ out ps).
  - exact H0.
  - intros i Hi. apply exemplar_probs_TM_probs. apply Hex. exact Hi.
  - unfold forward_ensemble in H. rewrite Hps in H. cbn [bind] in H.
    apply bind_Ok in H as (final & Hstack & Ho). injection Ho as <-.
    unfold transpose_0_1. rewrite shape3_tab2.
    apply tab2_ext. intros b t Hb Ht. rewrite at2_log_floor3, length_map.
    apply stack_reduce_Ok in Hstack as (_ & _ & Hrows).
    replace (hd [] ps) with (nth 0 ps []) in Hrows by (destruct ps; reflexivity).
    pose proof (exemplar_probs_shape _ _ _ _ _ _ _ _ _ (Hex 0 H0)) as [Hp0 Hp0'].
    destruct (Hrows t ltac:(lia)) as [_ Hcell].
    rewrite Hcell by (rewrite Hp0' by exact Ht; exact Hb).
    apply length_tab.
  - intros b t v Hb Ht Hv. rewrite (Hentry b t v Hb Ht Hv). f_equal.
    rewrite <- (map_map (fun i => nth v (at2 (nth i ps []) t b) 0%R)
                  (fun a => (/ INR (TM_num self) * a)%R)).
    rewrite Rsum_scale. unfold Rdiv. apply Rmult_comm.
Qed.

Lemma forward_similarity_fused (self : TransformerDecoderBaseWithTM)
    (x : Tensor3) (encoder_out : EncoderOut) (similarity : list (list R))
    (out : Tensor3) :
  length similarity = batch_size x ->
  forward_similarity self x encoder_out similarity = Ok out ->
  exists mems masks seqs,
    chunk_exemplars self encoder_out = Ok (mems, masks, seqs)
    /\ log_of_fused self x mems masks seqs (TM_num self)
         (fun i b _ => nth i (nth b similarity []) 0%R) out.
Proof.
  intros Hlen H.
  destruct (forward_similarity_entry self x encoder_out similarity out Hlen H)
    as (ps & Hps & Hpl & Hentry).
  pose proof Hps as Hps'. unfold probs_ensemble in Hps'.
  apply bind_Ok in Hps' as ([[mems masks] seqs] & Hch & Hmap).
  apply mapM_Ok in Hmap as [_ Hnth]. rewrite length_seq in Hnth.
  exists mems, masks, seqs. split; [exact Hch |].
  pose proof (chunk_exemplars_TM_num _ _ _ _ _ Hch) as H0.
  assert (Hex : forall i, i < TM_num self ->
            exemplar_probs self (target_len x) (batch_size x)
              (transpose_0_1 (batch_size x) (target_len x) x) mems masks seqs i
            = Ok (nth i ps [])).
  { intros i Hi. specialize (Hnth i 0 [] Hi).
    rewrite seq_nth in Hnth by exact Hi. exact Hnth. }
  apply (log_of_fused_intro self x _ _ _ _ _ out ps).
  - exact H0.
  - intros i Hi. apply exemplar_probs_TM_probs. apply Hex. exact Hi.
  - apply forward_similarity_inv in H
      as (mems' & masks' & seqs' & lprobs & final & Hch' & Hll & Hbody & Hstack
          & ->).
    rewrite Hch in Hch'. injection Hch' as <- <- <-.
    rewrite shape3_log_floor3, (stack_reduce_shape _ _ _ Hstack).
    replace (hd [] lprobs) with (nth 0 lprobs []) by (destruct lprobs; reflexivity).
    destruct (Hbody 0 H0) as (p & s & Hp & Hs & Hm).
    rewrite (Hex 0 H0) in Hp. injection Hp as <-.
    apply select_column_Ok in Hs as [Hslen _].
    apply (shape3_scaled_cells _ _ _ s); [lia | exact Hm].
  - intros b t v Hb Ht Hv. rewrite (Hentry b t v Hb Ht Hv). reflexivity.
Qed.

Lemma forward_learnable_p_fused (self : TransformerDecoderBaseWithTM)
    (br : branch)
    (learnable_p : TransformerDecoderBaseWithTM -> nat -> nat -> Tensor3 ->
                   list (Tensor3 * Tensor3 * Tensor3) -> Tensor3)
    (x : Tensor3) (encoder_out : EncoderOut) (out : Tensor3) :
  branch_learnable_p br = Some learnable_p ->
  forward_learnable_p self learnable_p x encoder_out = Ok out ->
  exists mems masks seqs a,
    chunk_exemplars self encoder_out = Ok (mems, masks, seqs)
    /\ attend_all self (target_len x) (batch_size x)
         (transpose_0_1 (batch_size x) (target_len x) x) mems masks = Ok a
    /\ log_of_fused self x mems masks seqs (TM_num self)
         (fun i b t =>
            nth i (at2 (learnable_p self (target_len x) (batch_size x)
                          (transpose_0_1 (batch_size x) (target_len x) x) a)
                     b t) 0%R) out.
Proof.
  intros Hl H.
  pose proof (forward_learnable_p_inv _ _ _ _ _ H)
    as (mems & masks & seqs & a & lprobs & final & Hch & Ha & Hll & Hbody
        & Hstack & Hout).
  exists mems, masks, seqs, a. split; [exact Hch | split; [exact Ha |]].
  unfold forward_learnable_p in H. rewrite Hch in H. cbn [bind] in H.
  rewrite Ha in H. cbn [bind] in H.
  assert (Hlp : forall s l b0 xx aa, length (learnable_p s l b0 xx aa) = b0
            /\ forall b, b < b0 -> length (nth b (learnable_p s l b0 xx aa) []) = l).
  { intros s0 l b0 xx aa.
    destruct br; simpl in Hl; try discriminate; injection Hl as <-;
      (split; [apply length_tab | intros b Hb; unfold learnable_p_unscalable_linear,
         learnable_p_attention, learnable_p_linear, learnable_p_attention_2, tab2;
         rewrite nth_tab by exact Hb; apply length_tab]). }
  destruct (Hlp self (target_len x) (batch_size x)
              (transpose_0_1 (batch_size x) (target_len x) x) a) as [Hw Hw'].
  destruct (weighted_sum_entry self _ _ _ a mems masks seqs _ out Ha Hw Hw' H)
    as (ps & Hps & Hpl & Hentry).
  apply mapM_Ok in Hps as [_ Hnth]. rewrite length_seq in Hnth.
  pose proof (chunk_exemplars_TM_num _ _ _ _ _ Hch) as H0.
  assert (Hex : forall i, i < TM_num self ->
            exemplar_probs self (target_len x) (batch_size x)
              (transpose_0_1 (batch_size x) (target_len x) x) mems masks seqs i
            = Ok (nth i ps [])).
  { intros i Hi. specialize (Hnth i 0 [] Hi).
    rewrite seq_nth in Hnth by exact Hi. exact Hnth. }
  apply (log_of_fused_intro self x _ _ _ _ _ out ps).
  - exact H0.
  - intros i Hi. apply exemplar_probs_TM_probs. apply Hex. exact Hi.
  - rewrite Hout.
    rewrite shape3_log_floor3, (stack_reduce_shape _ _ _ Hstack).
    replace (hd [] lprobs) with (nth 0 lprobs []) by (destruct lprobs; reflexivity).
    destruct (Hbody 0 H0) as (p & cw & Hp & _ & Hq).
    rewrite (Hex 0 H0) in Hp. injection Hp as <-.
    first [rewrite Hq | unfold Tensor3 in Hq |- *; rewrite Hq].
    unfold mul_position. rewrite shape3_tab2. apply tab2_ext. intros b t Hb Ht.
    rewrite length_map, at2_transpose by assumption. reflexivity.
  - intros b t v Hb Ht Hv. rewrite (Hentry b t v Hb Ht Hv). reflexivity.
Qed.

(** C10 (amended).  [features_only] is not read: [forward] gives the same
    result, or the same failure, for [features_only = true] and for
    [features_only = false].  Whenever it returns, it hands the diagnostics
    of the feature extractor through and its output is not the extracted
    features but the logarithm, with the 1e-12 floor, of the fused
    probabilities of the block that the options select ([log_of_fused]):
    generate gate times the softmax of [output_layer] plus the scattered
    copy mass, for the packed memory as one block when [with_TM_ensemble]
    is off, and summed over the [TM_num] exemplars with the weights of the
    block otherwise ([1 / TM_num] in the plain ensemble, the similarity
    scores, one row per batch element, in the similarity-weighted block,
    the learned weights in a learned-weighting block).  The vocabulary
    projection runs only when no adaptive softmax is configured: with one,
    [output_layer] returns the refined features as they are and the softmax
    ranges over the feature axis. *)
Theorem forward_ignores_features_only (self : TransformerDecoderBaseWithTM)
    (prev_output_tokens : list (list nat)) (encoder_out : EncoderOut)
    (incremental_state : option IncrementalState)
    (full_context_alignment : bool) (alignment_layer alignment_heads : option nat)
    (src_lengths : option (list nat)) (return_all_hiddens : bool)
    (x : Tensor3) (extra : Extra) :
  extract_features self prev_output_tokens encoder_out incremental_state
    full_context_alignment alignment_layer alignment_heads = (x, extra) ->
  forward self prev_output_tokens encoder_out incremental_state true
    full_context_alignment alignment_layer alignment_heads src_lengths
    return_all_hiddens
  = forward self prev_output_tokens encoder_out incremental_state false
      full_context_alignment alignment_layer alignment_heads src_lengths
      return_all_hiddens
  /\ (forall features_only out extra',
        forward self prev_output_tokens encoder_out incremental_state
          features_only full_context_alignment alignment_layer alignment_heads
          src_lengths return_all_hiddens = Ok (out, extra') ->
        extra' = extra
        /\ (branch_taken self encoder_out = WithoutEnsemble ->
            log_of_fused self x [memory_encoder_out encoder_out]
              [memory_encoder_padding_mask encoder_out] [TMs encoder_out] 1
              (fun _ _ _ => 1%R) out)
        /\ (branch_taken self encoder_out = PlainEnsemble ->
            exists mems masks seqs,
              chunk_exemplars self encoder_out = Ok (mems, masks, seqs)
              /\ log_of_fused self x mems masks seqs (TM_num self)
                   (fun _ _ _ => (/ INR (TM_num self))%R) out)
        /\ (branch_taken self encoder_out = SimilarityWeighted ->
            forall similarity,
              TMs_similarity encoder_out = Some similarity ->
              length similarity = batch_size x ->
              exists mems masks seqs,
                chunk_exemplars self encoder_out = Ok (mems, masks, seqs)
                /\ log_of_fused self x mems masks seqs (TM_num self)
                     (fun i b _ => nth i (nth b similarity []) 0%R) out)
        /\ (forall learnable_p,
              branch_learnable_p (branch_taken self encoder_out)
              = Some learnable_p ->
              exists mems masks seqs a,
                chunk_exemplars self encoder_out = Ok (mems, masks, seqs)
                /\ attend_all self (target_len x) (batch_size x)
                     (transpose_0_1 (batch_size x) (target_len x) x) mems masks
                   = Ok a
                /\ log_of_fused self x mems masks seqs (TM_num self)
                     (fun i b t =>
                        nth i (at2 (learnable_p self (target_len x) (batch_size x)
                                      (transpose_0_1 (batch_size x) (target_len x) x)
                                      a) b t) 0%R) out))
  /\ (forall clone_x attn,
        vocab_softmax self clone_x attn
        = softmax (match adaptive_softmax self with
                   | None => output_projection self (refined self clone_x attn)
                   | Some _ => refined self clone_x attn
                   end)).
Proof.
  intros Hx. split; [reflexivity | split].
  - intros features_only out extra' H.
    rewrite forward_run_branch in H. cbv zeta in H. rewrite Hx in H. simpl in H.
    apply bind_Ok in H as (lprobs & Hrun & H). injection H as <- <-.
    split; [reflexivity |].
    split; [| split; [| split]].
    + intros Hb. rewrite Hb in Hrun. cbn [run_branch] in Hrun.
      apply forward_without_ensemble_fused. exact Hrun.
    + intros Hb. rewrite Hb in Hrun. cbn [run_branch] in Hrun.
      apply forward_ensemble_fused. exact Hrun.
    + intros Hb similarity Hs Hlen. rewrite Hb in Hrun. cbn [run_branch] in Hrun.
      rewrite Hs in Hrun.
      apply (forward_similarity_fused self x encoder_out similarity lprobs Hlen Hrun).
    + intros learnable_p Hl.
      apply (forward_learnable_p_fused self (branch_taken self encoder_out)
               learnable_p x encoder_out lprobs Hl).
      rewrite <- (run_branch_learnable_p self _ learnable_p x encoder_out Hl).
      exact Hrun.
  - intros clone_x attn. unfold vocab_softmax, output_layer.
    destruct (adaptive_softmax self); reflexivity.
Qed.

Lemma forward_ignores_features_only_witness :
  exists out,
    forward (toy_decoder false 2 false None 3 0) [[1]; [2]] two_batch_encoder_out
      None true false None None None false = Ok (out, toy_extra)
    /\ log_of_fused (toy_decoder false 2 false None 3 0) [[[INR 1]]; [[INR 2]]]
         [memory_encoder_out two_batch_encoder_out]
         [memory_encoder_padding_mask two_batch_encoder_out]
         [TMs two_batch_encoder_out] 1 (fun _ _ _ => 1%R) out.
Proof.
  eexists.
  assert (Hf : forward (toy_decoder false 2 false None 3 0) [[1]; [2]]
                 two_batch_encoder_out None true false None None None false
               = Ok (?[out], toy_extra)) by (cbn; reflexivity).
  split; [exact Hf |].
  destruct (forward_ignores_features_only (toy_decoder false 2 false None 3 0)
              [[1]; [2]] two_batch_encoder_out None false None None None false
              [[[INR 1]]; [[INR 2]]] toy_extra eq_refl) as (_ & Hout & _).
  destruct (Hout true _ _ Hf) as (_ & Hno & _).
  apply Hno. reflexivity.
Defined.

(** C10, as stated, fails: with an adaptive softmax configured the
    vocabulary projection does not run.  The projection of
    [adaptive_decoder] has three outputs and its features one entry;
    [forward] returns cells of one entry: the logarithm of probabilities
    over the feature axis, not over the outputs of the projection. *)
Lemma adaptive_softmax_skips_projection :
  adaptive_softmax adaptive_decoder = Some tt
  /\ (forall features, length (output_projection adaptive_decoder features) = 3)
  /\ exists out,
       forward adaptive_decoder [[1]] adaptive_encoder_out
         None false false None None None false = Ok (out, toy_extra)
       /\ length (at2 out 0 0) = 1
       /\ length (at2 out 0 0)
          <> length (output_projection adaptive_decoder
                       (refined adaptive_decoder [INR 1] [INR 1])).
Proof.
  split; [reflexivity |].
  split; [intros features; reflexivity |].
  eexists. split; [cbn; reflexivity |].
  split; [reflexivity |]. cbn. discriminate.
Qed.

(** X1.  For a decoder whose [output_layer] returns [V] entries on every
    input (a projection to the vocabulary, no adaptive softmax) and an
    input whose similarity scores, when present, come one row per batch
    element: whatever block runs, a result of [forward] has the shape
    [B x T x V] (batch size and target length of the extracted features)
    and carries the diagnostics of the feature extractor unchanged. *)
Theorem forward_output_shape (self : TransformerDecoderBaseWithTM)
    (prev_output_tokens : list (list nat)) (encoder_out : EncoderOut)
    (incremental_state : option IncrementalState)
    (features_only full_context_alignment : bool)
    (alignment_layer alignment_heads : option nat)
    (src_lengths : option (list nat)) (return_all_hiddens : bool)
    (x : Tensor3) (extra : Extra) (V : nat) (out : Tensor3) (extra' : Extra) :
  extract_features self prev_output_tokens encoder_out incremental_state
    full_context_alignment alignment_layer alignment_heads = (x, extra) ->
  (forall v, length (output_layer self v) = V) ->
  (forall similarity,
     TMs_similarity encoder_out = Some similarity ->
     length similarity = batch_size x) ->
  forward self prev_output_tokens encoder_out incremental_state features_only
    full_context_alignment alignment_layer alignment_heads src_lengths
    return_all_hiddens = Ok (out, extra') ->
  shape3 out = tab2 (batch_size x) (target_len x) (fun _ _ => V)
  /\ extra' = extra.
Proof.
  intros Hx HV Hsim H. rewrite forward_run_branch in H. rewrite Hx in H.
  simpl in H. apply bind_Ok in H as (lprobs & Hrun & H).
  injection H as <- <-. split; [| reflexivity].
  apply (run_branch_shape self _ x encoder_out V lprobs HV Hsim Hrun).
Qed.

Lemma forward_output_shape_witness :
  exists out,
    forward scenario_decoder scenario_prev_output_tokens scenario_encoder_out
      None false false None None None false = Ok (out, toy_extra)
    /\ shape3 out = [[10; 10; 10]].
Proof.
  eexists.
  assert (Hf : forward scenario_decoder scenario_prev_output_tokens
                 scenario_encoder_out None false false None None None false
               = Ok (?[out], toy_extra)) by (cbn; reflexivity).
  split; [exact Hf |].
  apply (forward_output_shape scenario_decoder scenario_prev_output_tokens
           scenario_encoder_out None false false None None None false
           [[[INR 2]; [INR 5]; [INR 8]]] toy_extra 10 _ toy_extra eq_refl).
  - intros v. apply repeat_length.
  - intros similarity Hs. injection Hs as <-. reflexivity.
  - exact Hf.
Defined.

(** ** Failures of the block without ensemble *)




Lemma ln_le_compat (a b : R) : (0 < a)%R -> (a <= b)%R -> (ln a <= ln b)%R.
Proof.
  intros Ha [Hlt | ->]; [| lra]. left. apply ln_increasing; assumption.
Qed.

Lemma softmax_nonneg (l : vec) (v : nat) : (0 <= nth v (softmax l) 0)%R.
Proof.
  destruct (Nat.lt_ge_cases v (length l)) as [Hv | Hv].
  - unfold softmax. rewrite (nth_map_lt _ _ _ 0%R) by exact Hv.
    assert (Hz : (0 < Rsum (map exp l))%R).
    { apply Rsum_exp_pos. intros ->. simpl in Hv. lia. }
    pose proof (exp_pos (nth v l 0%R)).
    apply Rmult_le_pos; [lra |]. left. apply Rinv_0_lt_compat. exact Hz.
  - rewrite nth_overflow by (rewrite length_softmax; exact Hv). lra.
Qed.

Lemma masked_softmax_nonneg (scores : list R) (mask : list bool) (j : nat) :
  (0 <= nth j (masked_softmax scores mask) 0)%R.
Proof.
  destruct (Nat.lt_ge_cases j (length scores)) as [Hj | Hj].
  - unfold masked_softmax.
    set (e := map _ (combine _ scores)).
    assert (He : Forall (fun a => (0 <= a)%R) e).
    { apply Forall_forall. intros y Hy. unfold e in Hy.
      apply in_map_iff in Hy as ([k s] & <- & _). simpl.
      destruct (nth k mask false); [lra | left; apply exp_pos]. }
    assert (Hlen : length e = length scores).
    { unfold e. rewrite length_map, length_combine, length_seq. lia. }
    rewrite (nth_map_lt _ _ _ 0%R) by lia.
    pose proof (Rsum_nonneg e He) as Hz.
    assert (Hn : (0 <= nth j e 0)%R).
    { rewrite Forall_forall in He. apply He. apply nth_In. lia. }
    unfold Rdiv. apply Rmult_le_pos; [exact Hn |].
    destruct Hz as [Hz | <-]; [left; apply Rinv_0_lt_compat; exact Hz |].
    rewrite Rinv_0. lra.
  - rewrite nth_overflow by (rewrite length_masked_softmax; exact Hj). lra.
Qed.

Lemma copy_mass_nonneg (v : nat) (index : list nat) (src : vec) :
  Forall (fun a => (0 <= a)%R) src -> (0 <= copy_mass v index src)%R.
Proof.
  intros H. unfold copy_mass. apply Rsum_nonneg.
  apply Forall_forall. intros y Hy.
  apply in_map_iff in Hy as ([i s] & <- & Hin).
  apply filter_In in Hin as [Hin _]. apply in_combine_r in Hin.
  rewrite Forall_forall in H. apply H. exact Hin.
Qed.

Lemma nth_le_Rsum (l : list R) (v : nat) :
  Forall (fun a => (0 <= a)%R) l -> (nth v l 0 <= Rsum l)%R.
Proof.
  intros H. revert v. induction H as [| a l Ha Hl IH]; intros [| v]; simpl;
    try lra.
  - pose proof (Rsum_nonneg l Hl). lra.
  - specialize (IH v). lra.
Qed.

(** Every entry of a fused row is a non-negative number when the alignment
    weights are. *)
Lemma copy_generate_row_nonneg (self : TransformerDecoderBaseWithTM)
    (clone_x attn attn_normalized : vec) (alignment_weight : list R)
    (index : list nat) (out : vec) (v : nat) :
  (forall j, (0 <= nth j alignment_weight 0)%R) ->
  copy_generate_row self clone_x attn attn_normalized alignment_weight index
  = Ok out ->
  (0 <= nth v out 0)%R.
Proof.
  intros Hw H. unfold copy_generate_row in H.
  destruct (diverter self (clone_x ++ attn_normalized)) as [a b].
  simpl fst in H; simpl snd in H.
  rewrite (scatter_add_entry _ _ _ _ v H).
  set (gates := softmax [a; b]) in *.
  assert (Hg : forall k, (0 <= nth k gates 0)%R) by (intros k; apply softmax_nonneg).
  apply Rplus_le_le_0_compat.
  - set (sm := softmax _).
    destruct (Nat.lt_ge_cases v (length sm)) as [Hv | Hv].
    + rewrite (nth_map_lt _ _ _ 0%R) by exact Hv.
      apply Rmult_le_pos; [apply Hg | apply softmax_nonneg].
    + rewrite nth_overflow by (rewrite length_map; exact Hv). lra.
  - apply copy_mass_nonneg. apply Forall_forall. intros y Hy.
    apply in_map_iff in Hy as (w & <- & Hin).
    apply (In_nth _ _ 0%R) in Hin as (j & _ & <-).
    apply Rmult_le_pos; [apply Hg | apply Hw].
Qed.



(** ** A single exemplar *)

Lemma narrow_all {A} (l : list A) (len : nat) :
  length l <= len -> narrow 0 len l = l.
Proof. intros H. unfold narrow. simpl. apply firstn_all2. exact H. Qed.

Lemma chunk_dim0_one {A} (l : list A) : chunk_dim0 l 1 = Ok [l].
Proof.
  unfold chunk_dim0, chunk_with, split_size. simpl (1 =? 0).
  replace (length l + 1 - 1) with (length l) by lia. rewrite Nat.div_1_r.
  cbv zeta. destruct (length l =? 0) eqn:E; cbn [andb].
  - apply Nat.eqb_eq in E. destruct l; [reflexivity | discriminate].
  - apply Nat.eqb_neq in E. unfold num_splits.
    replace ((length l + length l - 1) / length l) with 1
      by (apply (Nat.div_unique _ (length l) 1 (length l - 1)); lia).
    unfold tab. cbn [Nat.max seq map Nat.mul].
    rewrite narrow_all by lia. reflexivity.
Qed.

Lemma chunk_dim1_one (mask : list (list bool)) :
  mask_is_matrix mask -> chunk_dim1 mask 1 = Ok [mask].
Proof.
  intros HM. unfold chunk_dim1, chunk_with, split_size. simpl (1 =? 0).
  set (d := length (hd [] mask)) in *.
  replace (d + 1 - 1) with d by lia. rewrite Nat.div_1_r. cbv zeta.
  assert (Hmap : map (narrow 0 d) mask = mask).
  { rewrite <- (map_id mask) at 2. apply map_ext_in. intros row Hrow.
    apply narrow_all. unfold mask_is_matrix in HM. rewrite Forall_forall in HM.
    apply HM. exact Hrow. }
  destruct (d =? 0) eqn:E; cbn [andb].
  - apply Nat.eqb_eq in E. rewrite E in Hmap. cbn [repeat].
    rewrite Hmap. reflexivity.
  - apply Nat.eqb_neq in E. unfold num_splits.
    replace ((d + d - 1) / d) with 1
      by (apply (Nat.div_unique _ d 1 (d - 1)); lia).
    unfold tab. cbn [Nat.max seq map Nat.mul]. rewrite Hmap. reflexivity.
Qed.

Lemma chunk_exemplars_one (self : TransformerDecoderBaseWithTM)
    (encoder_out : EncoderOut) :
  TM_num self = 1 ->
  mask_is_matrix (memory_encoder_padding_mask encoder_out) ->
  chunk_exemplars self encoder_out
  = Ok ([memory_encoder_out encoder_out],
        [memory_encoder_padding_mask encoder_out], [TMs encoder_out]).
Proof.
  intros H1 HM. unfold chunk_exemplars.
  rewrite H1, !chunk_dim0_one, (chunk_dim1_one _ HM). reflexivity.
Qed.

Lemma exemplar_probs_single (self : TransformerDecoderBaseWithTM) (seq_len bsz : nat)
    (x m : Tensor3) (k : list (list bool)) (cs : list (list nat)) :
  exemplar_probs self seq_len bsz x [m] [k] [cs] 0
  = TM_probs self seq_len bsz x m k cs.
Proof.
  unfold exemplar_probs, TM_probs. cbn [get nth_error bind].
  destruct (attend self seq_len bsz x m k) as [[at_ aw] an]. reflexivity.
Qed.

Lemma same_shape_refl (p : Tensor3) : same_shape p p = true.
Proof.
  unfold same_shape.
  destruct (list_eq_dec (list_eq_dec Nat.eq_dec) (shape3 p) (shape3 p));
    congruence.
Qed.

Lemma tensor_as_tab (p : Tensor3) :
  tab (length p) (fun i =>
    tab (length (nth i p [])) (fun j =>
      tab (length (at2 p i j)) (fun v => nth v (at2 p i j) 0%R)))
  = p.
Proof.
  transitivity (tab (length p) (fun i => nth i p [])); [| apply tab_nth].
  apply tab_ext. intros i Hi.
  transitivity (tab (length (nth i p [])) (fun j => nth j (nth i p []) []));
    [| apply tab_nth].
  apply tab_ext. intros j Hj. apply (tab_nth 0%R).
Qed.

Lemma stack_mean_single (p : Tensor3) : stack_mean [p] = Ok p.
Proof.
  unfold stack_mean, stack_reduce. cbn [forallb].
  rewrite same_shape_refl. cbn [andb]. f_equal.
  etransitivity; [| apply tensor_as_tab].
  apply tab_ext. intros i Hi. apply tab_ext. intros j Hj.
  apply tab_ext. intros v Hv. simpl. lra.
Qed.

Lemma log_floor3_transpose (n m : nat) (p : Tensor3) :
  log_floor3 (transpose_0_1 n m p) = transpose_0_1 n m (log_floor3 p).
Proof.
  unfold transpose_0_1, tab2. unfold log_floor3 at 1.
  rewrite map_tab. apply tab_ext. intros j Hj.
  rewrite map_tab. apply tab_ext. intros i Hi.
  symmetry. apply at2_log_floor3.
Qed.

(** With one exemplar the plain ensemble block is the block without
    ensemble. *)
Lemma forward_ensemble_single (self : TransformerDecoderBaseWithTM)
    (x : Tensor3) (encoder_out : EncoderOut) :
  TM_num self = 1 ->
  mask_is_matrix (memory_encoder_padding_mask encoder_out) ->
  forward_ensemble self x encoder_out
  = forward_without_ensemble self x encoder_out.
Proof.
  intros H1 HM.
  unfold forward_ensemble, forward_without_ensemble, probs_ensemble,
    probs_without_ensemble.
  rewrite (chunk_exemplars_one self encoder_out H1 HM), H1. cbn [bind seq mapM].
  rewrite exemplar_probs_single.
  destruct (TM_probs self _ _ _ _ _ _) as [p | e]; [| reflexivity].
  cbn [bind]. rewrite stack_mean_single. reflexivity.
Qed.

Lemma select_column_ones (similarity : list (list R)) :
  Forall (fun row => nth_error row 0 = Some 1%R) similarity ->
  select_column similarity 0 = Ok (map (fun _ => 1%R) similarity).
Proof.
  unfold select_column.
  induction 1 as [| row l Hrow _ IH]; simpl; [reflexivity |].
  unfold get at 1. rewrite Hrow. cbn [bind]. rewrite IH. reflexivity.
Qed.

Lemma stack_sum_scaled_by_one (seq_len bsz : nat) (p : Tensor3) (s : list R) :
  length s = bsz ->
  (forall b, b < bsz -> nth b s 0%R = 1%R) ->
  (q <- mul_batch (transpose_0_1 seq_len bsz p) s ;; stack_sum [q])
  = Ok (transpose_0_1 seq_len bsz p).
Proof.
  intros Hs H1. unfold mul_batch.
  rewrite length_transpose, Hs, Nat.eqb_refl. cbn [bind].
  set (q := tab bsz _).
  unfold stack_sum, stack_reduce. cbn [forallb].
  rewrite same_shape_refl. cbn [andb]. f_equal.
  unfold q at 1. rewrite length_tab.
  unfold transpose_0_1, tab2. apply tab_ext. intros b Hb.
  assert (Hrow : @nth (list vec) b q []
                 = map (map (fun u => (u * nth b s 0)%R))
                       (tab seq_len (fun t => at2 p t b))).
  { unfold q. rewrite nth_tab by exact Hb.
    unfold transpose_0_1, tab2. rewrite nth_tab by exact Hb. reflexivity. }
  rewrite Hrow, length_map, length_tab. apply tab_ext. intros t Ht.
  assert (Hcell : at2 q b t = map (fun u => (u * nth b s 0)%R) (at2 p t b)).
  { unfold at2 at 1. rewrite Hrow, map_tab, nth_tab by exact Ht. reflexivity. }
  rewrite Hcell, length_map.
  etransitivity; [| apply (tab_nth 0%R (at2 p t b))].
  apply tab_ext. intros v Hv. unfold Rsum. cbn [map fold_right].
  rewrite Hcell, nth_map_scale, (H1 b Hb). lra.
Qed.

(** With one exemplar and every score equal to one the similarity-weighted
    block is the block without ensemble. *)
Lemma forward_similarity_single (self : TransformerDecoderBaseWithTM)
    (x : Tensor3) (encoder_out : EncoderOut) (similarity : list (list R)) :
  TM_num self = 1 ->
  mask_is_matrix (memory_encoder_padding_mask encoder_out) ->
  length similarity = batch_size x ->
  Forall (fun row => nth_error row 0 = Some 1%R) similarity ->
  forward_similarity self x encoder_out similarity
  = forward_without_ensemble self x encoder_out.
Proof.
  intros H1 HM Hlen Hones.
  unfold forward_similarity, forward_without_ensemble, probs_without_ensemble.
  rewrite (chunk_exemplars_one self encoder_out H1 HM), H1. cbn [bind seq mapM].
  rewrite exemplar_probs_single.
  destruct (TM_probs self _ _ _ _ _ _) as [p | e]; [| reflexivity].
  cbn [bind]. rewrite (select_column_ones _ Hones). cbn [bind].
  pose proof (stack_sum_scaled_by_one (target_len x) (batch_size x) p
                (map (fun _ => 1%R) similarity)) as Hq.
  rewrite length_map in Hq. specialize (Hq Hlen).
  assert (Hone : forall b, b < batch_size x ->
            nth b (map (fun _ : list R => 1%R) similarity) 0%R = 1%R).
  { intros b Hb. rewrite (nth_map_lt _ _ _ []) by lia. reflexivity. }
  specialize (Hq Hone).
  destruct (mul_batch _ _) as [q | e]; cbn [bind] in Hq |- *; [| discriminate].
  rewrite Hq. cbn [bind]. rewrite log_floor3_transpose. reflexivity.
Qed.

Lemma forward_flag_off (self : TransformerDecoderBaseWithTM)
    (prev_output_tokens : list (list nat)) (encoder_out : EncoderOut)
    (incremental_state : option IncrementalState)
    (features_only full_context_alignment : bool)
    (alignment_layer alignment_heads : option nat)
    (src_lengths : option (list nat)) (return_all_hiddens : bool) :
  forward (set_with_TM_ensemble false self) prev_output_tokens encoder_out
    incremental_state features_only full_context_alignment alignment_layer
    alignment_heads src_lengths return_all_hiddens
  = (let xe := extract_features self prev_output_tokens encoder_out
                 incremental_state full_context_alignment alignment_layer
                 alignment_heads in
     lprobs <- forward_without_ensemble self (fst xe) encoder_out ;;
     Ok (lprobs, snd xe)).
Proof.
  unfold forward. cbn [with_TM_ensemble set_with_TM_ensemble extract_features negb].
  destruct (extract_features self prev_output_tokens encoder_out
              incremental_state full_context_alignment alignment_layer
              alignment_heads) as [x extra].
  reflexivity.
Qed.

(** X4.  When the plain ensemble block runs with [TM_num = 1] (and the
    padding mask is a matrix), [forward] returns what the same decoder
    returns with [with_TM_ensemble] off, result or failure: the mean over
    one exemplar is the block without ensemble. *)
Theorem plain_ensemble_single_exemplar (self : TransformerDecoderBaseWithTM)
    (prev_output_tokens : list (list nat)) (encoder_out : EncoderOut)
    (incremental_state : option IncrementalState)
    (features_only full_context_alignment : bool)
    (alignment_layer alignment_heads : option nat)
    (src_lengths : option (list nat)) (return_all_hiddens : bool) :
  branch_taken self encoder_out = PlainEnsemble ->
  TM_num self = 1 ->
  mask_is_matrix (memory_encoder_padding_mask encoder_out) ->
  forward self prev_output_tokens encoder_out incremental_state features_only
    full_context_alignment alignment_layer alignment_heads src_lengths
    return_all_hiddens
  = forward (set_with_TM_ensemble false self) prev_output_tokens encoder_out
      incremental_state features_only full_context_alignment alignment_layer
      alignment_heads src_lengths return_all_hiddens.
Proof.
  intros Hb H1 HM. rewrite forward_flag_off, forward_run_branch, Hb.
  cbn [run_branch]. rewrite (forward_ensemble_single self _ _ H1 HM).
  reflexivity.
Qed.

Lemma plain_ensemble_single_exemplar_witness :
  forward (toy_decoder true 1 false None 3 0) [[1]] (toy_encoder_out None)
    None false false None None None false
  = forward (set_with_TM_ensemble false (toy_decoder true 1 false None 3 0))
      [[1]] (toy_encoder_out None) None false false None None None false.
Proof.
  apply (plain_ensemble_single_exemplar (toy_decoder true 1 false None 3 0)
           [[1]] (toy_encoder_out None) None false false None None None false).
  - reflexivity.
  - reflexivity.
  - constructor; [simpl; lia | constructor].
Defined.

(** X5.  When the similarity-weighted block runs with [TM_num = 1] and the
    score of every batch element is 1 (one row of scores per batch element,
    the padding mask a matrix), [forward] returns what the same decoder
    returns with [with_TM_ensemble] off, result or failure. *)
Theorem similarity_single_exemplar (self : TransformerDecoderBaseWithTM)
    (prev_output_tokens : list (list nat)) (encoder_out : EncoderOut)
    (incremental_state : option IncrementalState)
    (features_only full_context_alignment : bool)
    (alignment_layer alignment_heads : option nat)
    (src_lengths : option (list nat)) (return_all_hiddens : bool)
    (x : Tensor3) (extra : Extra) (similarity : list (list R)) :
  extract_features self prev_output_tokens encoder_out incremental_state
    full_context_alignment alignment_layer alignment_heads = (x, extra) ->
  with_TM_ensemble self = true ->
  TMs_similarity encoder_out = Some similarity ->
  TM_num self = 1 ->
  mask_is_matrix (memory_encoder_padding_mask encoder_out) ->
  length similarity = batch_size x ->
  Forall (fun row => nth_error row 0 = Some 1%R) similarity ->
  forward self prev_output_tokens encoder_out incremental_state features_only
    full_context_alignment alignment_layer alignment_heads src_lengths
    return_all_hiddens
  = forward (set_with_TM_ensemble false self) prev_output_tokens encoder_out
      incremental_state features_only full_context_alignment alignment_layer
      alignment_heads src_lengths return_all_hiddens.
Proof.
  intros Hx He Hs H1 HM Hlen Hones.
  rewrite forward_flag_off. unfold forward. rewrite Hx, He, Hs.
  cbn [negb fst snd].
  rewrite (forward_similarity_single self x encoder_out similarity H1 HM Hlen Hones).
  reflexivity.
Qed.

Lemma similarity_single_exemplar_witness :
  forward (toy_decoder true 1 false None 3 0) [[1]]
    (toy_encoder_out (Some [[1%R]])) None false false None None None false
  = forward (set_with_TM_ensemble false (toy_decoder true 1 false None 3 0))
      [[1]] (toy_encoder_out (Some [[1%R]])) None false false None None None
      false.
Proof.
  apply (similarity_single_exemplar (toy_decoder true 1 false None 3 0)
           [[1]] (toy_encoder_out (Some [[1%R]])) None false false None None
           None false [[[INR 1]]] toy_extra [[1%R]]).
  - reflexivity.
  - reflexivity.
  - reflexivity.
  - reflexivity.
  - constructor; [simpl; lia | constructor].
  - reflexivity.
  - constructor; [reflexivity | constructor].
Defined.

(** ** Nothing is lost by the split *)

Lemma firstn_plus {A} (n m : nat) (l : list A) :
  firstn (n + m) l = firstn n l ++ firstn m (skipn n l).
Proof.
  revert l. induction n as [| n IH]; intros l; simpl; [reflexivity |].
  destruct l as [| a l]; simpl.
  - rewrite firstn_nil. reflexivity.
  - rewrite IH. reflexivity.
Qed.

Lemma concat_narrow {A} (ss : nat) (l : list A) (k a : nat) :
  concat (map (fun i => narrow (i * ss) ss l) (seq a k))
  = firstn (k * ss) (skipn (a * ss) l).
Proof.
  revert a. induction k as [| k IH]; intros a; simpl; [reflexivity |].
  rewrite IH, firstn_plus. unfold narrow. rewrite skipn_skipn. reflexivity.
Qed.

Lemma ceil_div_covers (len ss : nat) : 0 < ss -> len <= (len + ss - 1) / ss * ss.
Proof.
  intros Hs.
  pose proof (Nat.div_mod_eq (len + ss - 1) ss) as E.
  pose proof (Nat.mod_upper_bound (len + ss - 1) ss ltac:(lia)) as Hr.
  nia.
Qed.

Lemma chunk_dim0_concat {A} (l : list A) (chunks : nat) (cs : list (list A)) :
  chunk_dim0 l chunks = Ok cs ->
  concat cs = l
  /\ length cs <= chunks
  /\ Forall (fun c => length c <= split_size (length l) chunks) cs.
Proof.
  unfold chunk_dim0, chunk_with.
  destruct (chunks =? 0) eqn:E0; [discriminate |]. apply Nat.eqb_neq in E0.
  cbv zeta. set (ss := split_size (length l) chunks).
  assert (Hcover : length l <= chunks * ss).
  { unfold ss, split_size. pose proof (ceil_div_covers (length l) chunks). nia. }
  destruct ((ss =? 0) && (length l =? 0)) eqn:E; intros H; injection H as <-.
  - apply andb_true_iff in E as [_ E]. apply Nat.eqb_eq in E.
    destruct l; [| discriminate]. split; [| split].
    + clear. induction chunks; simpl; auto.
    + rewrite repeat_length. lia.
    + apply Forall_forall. intros c Hc. apply repeat_spec in Hc. subst c.
      simpl. lia.
  - assert (Hss : 0 < ss).
    { destruct ss; [| lia]. simpl in E.
      destruct (length l =? 0) eqn:EL; [discriminate |].
      apply Nat.eqb_neq in EL. lia. }
    split; [| split].
    + unfold tab. rewrite concat_narrow. simpl skipn.
      apply firstn_all2. unfold num_splits.
      pose proof (ceil_div_covers (length l) ss Hss). nia.
    + rewrite length_tab. unfold num_splits.
      assert ((length l + ss - 1) / ss < S chunks).
      { apply Nat.Div0.div_lt_upper_bound. nia. }
      lia.
    + apply Forall_forall. intros c Hc. unfold tab in Hc.
      apply in_map_iff in Hc as (k & <- & _). rewrite length_narrow. lia.
Qed.

(** X6.  The split of the exemplar axis loses nothing: the pieces of the
    memory, and the pieces of the token ids, put back end to end are the
    packed tensors, there are never more than [TM_num] pieces, and no piece
    is longer than [ceil (S / TM_num)]. *)
Theorem chunk_exemplars_partition (self : TransformerDecoderBaseWithTM)
    (encoder_out : EncoderOut) (TM_num_memorys : list Tensor3)
    (TM_num_memory_encoder_padding_masks : list (list (list bool)))
    (TM_num_copy_seqs : list (list (list nat))) :
  chunk_exemplars self encoder_out
  = Ok (TM_num_memorys, TM_num_memory_encoder_padding_masks, TM_num_copy_seqs) ->
  concat TM_num_memorys = memory_encoder_out encoder_out
  /\ concat TM_num_copy_seqs = TMs encoder_out
  /\ length TM_num_memorys <= TM_num self
  /\ Forall (fun cur_memory =>
               length cur_memory
               <= split_size (length (memory_encoder_out encoder_out))
                    (TM_num self))
            TM_num_memorys.
Proof.
  unfold chunk_exemplars. intros H.
  apply bind_Ok in H as (m & Hm & H). apply bind_Ok in H as (k & _ & H).
  apply bind_Ok in H as (s & Hs & H). injection H as <- _ <-.
  apply chunk_dim0_concat in Hm as (Hm1 & Hm2 & Hm3).
  apply chunk_dim0_concat in Hs as (Hs1 & _ & _).
  auto.
Qed.

Lemma chunk_exemplars_partition_witness :
  exists mems masks seqs,
    chunk_exemplars (toy_decoder true 2 false None 3 0) odd_encoder_out
    = Ok (mems, masks, seqs)
    /\ concat mems = memory_encoder_out odd_encoder_out
    /\ concat seqs = TMs odd_encoder_out.
Proof.
  eexists. eexists. eexists.
  assert (Hch : chunk_exemplars (toy_decoder true 2 false None 3 0)
                  odd_encoder_out = Ok (?[mems], ?[masks], ?[seqs]))
    by reflexivity.
  split; [exact Hch |].
  destruct (chunk_exemplars_partition _ _ _ _ _ Hch) as (H1 & H2 & _).
  split; assumption.
Defined.

(** ** Total probability mass of the ensemble blocks *)

Lemma forward_similarity_summed (self : TransformerDecoderBaseWithTM)
    (x : Tensor3) (encoder_out : EncoderOut) (similarity : list (list R)) :
  forward_similarity self x encoder_out similarity
  = (final_lprobs <- summed_similarity self x encoder_out similarity ;;
     Ok (log_floor3 final_lprobs)).
Proof.
  unfold forward_similarity, summed_similarity.
  destruct (chunk_exemplars self encoder_out) as [[[mems masks] seqs] | e];
    [| reflexivity].
  cbn [bind]. destruct (mapM _ _) as [lprobs | e]; reflexivity.
Qed.

Lemma forward_ensemble_mean (self : TransformerDecoderBaseWithTM)
    (x : Tensor3) (encoder_out : EncoderOut) :
  forward_ensemble self x encoder_out
  = (final_lprobs <- mean_ensemble self x encoder_out ;;
     Ok (transpose_0_1 (target_len x) (batch_size x) (log_floor3 final_lprobs))).
Proof.
  unfold forward_ensemble, mean_ensemble.
  destruct (probs_ensemble self x encoder_out) as [lprobs | e]; reflexivity.
Qed.

Lemma Rsum_tab_plus (n : nat) (f g : nat -> R) :
  Rsum (tab n (fun v => (f v + g v)%R)) = (Rsum (tab n f) + Rsum (tab n g))%R.
Proof.
  unfold tab. induction (seq 0 n) as [| a l IH]; simpl; [lra |].
  rewrite IH. lra.
Qed.

Lemma Rsum_tab_zero (n : nat) : Rsum (tab n (fun _ => 0%R)) = 0%R.
Proof.
  unfold tab. induction (seq 0 n) as [| a l IH]; simpl; [reflexivity |].
  rewrite IH. lra.
Qed.

Lemma Rsum_tab_div (n : nat) (f : nat -> R) (c : R) :
  Rsum (tab n (fun v => (f v / c)%R)) = (Rsum (tab n f) / c)%R.
Proof.
  unfold tab. induction (seq 0 n) as [| a l IH]; simpl; [lra |].
  rewrite IH. lra.
Qed.

(** Summing over the vocabulary and over the exemplars in either order. *)
Lemma Rsum_exchange {A} (n : nat) (f : nat -> A -> R) (l : list A) :
  Rsum (tab n (fun v => Rsum (map (f v) l)))
  = Rsum (map (fun a => Rsum (tab n (fun v => f v a))) l).
Proof.
  induction l as [| a l IH]; simpl.
  - apply Rsum_tab_zero.
  - rewrite <- IH. apply Rsum_tab_plus.
Qed.

Lemma exemplar_probs_row_sum (self : TransformerDecoderBaseWithTM)
    (seq_len bsz : nat) (x : Tensor3) (mems : list Tensor3)
    (masks : list (list (list bool))) (seqs : list (list (list nat)))
    (i V : nat) (p : Tensor3) (t b : nat) :
  0 < V ->
  (forall v, length (output_layer self v) = V) ->
  batch_width bsz (nth i seqs []) = true ->
  length (nth i seqs []) = length (nth i mems []) ->
  has_unpadded (length (nth i mems [])) (nth b (nth i masks []) []) = true ->
  exemplar_probs self seq_len bsz x mems masks seqs i = Ok p ->
  t < seq_len -> b < bsz ->
  Rsum (at2 p t b) = 1%R.
Proof.
  intros HV0 HV Hw Hlen Hpad H Ht Hb. apply exemplar_probs_TM_probs in H.
  apply (TM_probs_row_sum self _ _ _ _ _ _ V p t b HV0 HV Hw Hlen Hpad H Ht Hb).
Qed.

(** The chunks of a matrix of ids with one column per batch element are
    such matrices. *)
Lemma chunk_exemplars_batch_width (self : TransformerDecoderBaseWithTM)
    (encoder_out : EncoderOut) (mems : list Tensor3)
    (masks : list (list (list bool))) (seqs : list (list (list nat)))
    (bsz i : nat) :
  chunk_exemplars self encoder_out = Ok (mems, masks, seqs) ->
  batch_width bsz (TMs encoder_out) = true ->
  batch_width bsz (nth i seqs []) = true.
Proof.
  unfold chunk_exemplars. intros H Hw.
  apply bind_Ok in H as (m & _ & H). apply bind_Ok in H as (k & _ & H).
  apply bind_Ok in H as (cs & Hcs & H). injection H as _ _ <-.
  apply chunk_dim0_concat in Hcs as [Hcat _].
  destruct (Nat.lt_ge_cases i (length cs)) as [Hi | Hi].
  - unfold batch_width in *. rewrite forallb_forall in Hw |- *.
    intros row Hrow. apply Hw. rewrite <- Hcat. apply in_concat.
    exists (nth i cs []). split; [apply nth_In; exact Hi | exact Hrow].
  - rewrite nth_overflow by exact Hi. reflexivity.
Qed.

Lemma Rsum_tab_nth (l : list R) (n : nat) :
  length l = n -> Rsum (tab n (fun v => nth v l 0%R)) = Rsum l.
Proof. intros <-. rewrite tab_nth. reflexivity. Qed.

Lemma Rsum_scale_r (c : R) (l : list R) :
  Rsum (map (fun a => (a * c)%R) l) = (Rsum l * c)%R.
Proof.
  induction l as [| a l IH]; simpl; [lra |]. rewrite IH. lra.
Qed.

(** X7.  In the similarity-weighted block, when the exemplar ids are a
    matrix with one column per batch element, every exemplar has as many
    rows of ids as positions and, for every batch element, a position that
    is not padding, and the output layer has width [V], the summed tensor
    that goes into the logarithm carries, at every (batch element, target
    position), a total mass equal (over the reals) to the sum of the
    [TM_num] similarity scores of the batch element: it is a probability
    distribution only if the scores sum to one. *)
Theorem similarity_mass_is_sum_of_scores (self : TransformerDecoderBaseWithTM)
    (x : Tensor3) (encoder_out : EncoderOut) (similarity : list (list R))
    (TM_num_memorys : list Tensor3)
    (TM_num_memory_encoder_padding_masks : list (list (list bool)))
    (TM_num_copy_seqs : list (list (list nat)))
    (V : nat) (final_lprobs : Tensor3) (b t : nat) :
  0 < V ->
  (forall v, length (output_layer self v) = V) ->
  length similarity = batch_size x ->
  batch_width (batch_size x) (TMs encoder_out) = true ->
  chunk_exemplars self encoder_out
  = Ok (TM_num_memorys, TM_num_memory_encoder_padding_masks, TM_num_copy_seqs) ->
  (forall cur_idx, cur_idx < TM_num self ->
     length (nth cur_idx TM_num_copy_seqs [])
     = length (nth cur_idx TM_num_memorys [])
     /\ has_unpadded (length (nth cur_idx TM_num_memorys []))
          (nth b (nth cur_idx TM_num_memory_encoder_padding_masks []) []) = true) ->
  summed_similarity self x encoder_out similarity = Ok final_lprobs ->
  b < batch_size x -> t < target_len x ->
  forward_similarity self x encoder_out similarity = Ok (log_floor3 final_lprobs)
  /\ Rsum (at2 final_lprobs b t)
     = Rsum (map (fun cur_idx => nth cur_idx (nth b similarity []) 0%R)
                 (seq 0 (TM_num self))).
Proof.
  intros HV0 HV Hsl Hbw Hch Hvalid H Hb Ht.
  split; [rewrite forward_similarity_summed, H; reflexivity |].
  unfold summed_similarity in H. rewrite Hch in H. cbn [bind] in H.
  apply bind_Ok in H as (lprobs & Hmap & Hstack).
  set (bsz := batch_size x) in *. set (seq_len := target_len x) in *.
  set (xT := transpose_0_1 bsz seq_len x) in *.
  apply mapM_Ok in Hmap as [Hlen Hbody]. rewrite length_seq in Hlen, Hbody.
  assert (Hq : forall i, i < TM_num self ->
            length (nth i lprobs []) = bsz
            /\ length (nth b (nth i lprobs []) []) = seq_len
            /\ length (at2 (nth i lprobs []) b t) = V
            /\ Rsum (at2 (nth i lprobs []) b t) = nth i (nth b similarity []) 0%R).
  { intros i Hi. specialize (Hbody i 0 [] Hi). rewrite seq_nth in Hbody by exact Hi.
    simpl in Hbody.
    apply bind_Ok in Hbody as (p & Hp & Hbody).
    apply bind_Ok in Hbody as (s & Hs & Hm).
    apply select_column_Ok in Hs as [Hslen Hsnth].
    destruct (mul_batch_entry seq_len bsz _ s _ b t ltac:(lia) Hm Hb Ht)
      as (H1 & H2 & H3).
    destruct (Hvalid i Hi) as [Hl Hpad].
    split; [exact H1 | split; [exact H2 |]].
    rewrite H3, length_map, Rsum_scale_r, Hsnth by lia.
    rewrite (exemplar_probs_row_sum self _ _ _ _ _ _ i V p t b HV0 HV
               (chunk_exemplars_batch_width self encoder_out _ _ _ bsz i Hch Hbw)
               Hl Hpad Hp Ht Hb).
    split; [| lra].
    apply (exemplar_probs_cell self _ _ _ _ _ _ _ V p t b HV Hp Ht Hb). }
  apply stack_reduce_Ok in Hstack as (Hne & _ & Hrows).
  assert (H0 : 0 < TM_num self).
  { destruct lprobs; [congruence | simpl in Hlen; lia]. }
  replace (hd [] lprobs) with (nth 0 lprobs []) in Hrows
    by (destruct lprobs; reflexivity).
  destruct (Hq 0 H0) as (Hq1 & Hq2 & Hq3 & _).
  destruct (Hrows b ltac:(lia)) as [_ Hcell].
  rewrite (Hcell t ltac:(lia)), Hq3.
  rewrite (Rsum_exchange V (fun v q => nth v (at2 q b t) 0%R) lprobs).
  rewrite (@list_as_tab Tensor3 [] lprobs) at 1. rewrite Hlen, map_map.
  f_equal. apply map_ext_in. intros i Hi. apply in_seq in Hi.
  destruct (Hq i ltac:(lia)) as (_ & _ & Hl & Hs).
  rewrite Rsum_tab_nth by exact Hl. exact Hs.
Qed.

Lemma similarity_mass_is_sum_of_scores_witness :
  exists final_lprobs,
    summed_similarity scenario_decoder [[[INR 2]; [INR 5]; [INR 8]]]
      scenario_encoder_out [[0.7; 0.3]%R] = Ok final_lprobs
    /\ Rsum (at2 final_lprobs 0 1) = (0.7 + (0.3 + 0))%R.
Proof.
  eexists.
  assert (Hf : summed_similarity scenario_decoder [[[INR 2]; [INR 5]; [INR 8]]]
                 scenario_encoder_out [[0.7; 0.3]%R] = Ok ?[m])
    by (cbn; reflexivity).
  split; [exact Hf |].
  refine (proj2 (similarity_mass_is_sum_of_scores scenario_decoder
                   [[[INR 2]; [INR 5]; [INR 8]]] scenario_encoder_out
                   [[0.7; 0.3]%R] _ _ _ 10 _ 0 1 _ _ eq_refl eq_refl eq_refl _
                   Hf _ _)).
  - lia.
  - intros v. apply repeat_length.
  - intros i Hi. change (TM_num scenario_decoder) with 2 in Hi.
    destruct i as [| [| i]]; [split; reflexivity | split; reflexivity | lia].
  - unfold batch_size. simpl. lia.
  - unfold target_len. simpl. lia.
Defined.

(** X8.  In the plain ensemble block, under the same conditions (the ids a
    matrix with one column per batch element, as many rows of ids as
    positions in every exemplar, a position that is not padding, an output
    layer of width [V]), the mean that goes into the logarithm sums to one
    (over the reals) over the vocabulary at every (target position, batch
    element): the mean keeps the result a probability distribution. *)
Theorem ensemble_mean_sums_to_one (self : TransformerDecoderBaseWithTM)
    (x : Tensor3) (encoder_out : EncoderOut)
    (TM_num_memorys : list Tensor3)
    (TM_num_memory_encoder_padding_masks : list (list (list bool)))
    (TM_num_copy_seqs : list (list (list nat)))
    (V : nat) (final_lprobs : Tensor3) (b t : nat) :
  0 < V ->
  (forall v, length (output_layer self v) = V) ->
  batch_width (batch_size x) (TMs encoder_out) = true ->
  chunk_exemplars self encoder_out
  = Ok (TM_num_memorys, TM_num_memory_encoder_padding_masks, TM_num_copy_seqs) ->
  (forall cur_idx, cur_idx < TM_num self ->
     length (nth cur_idx TM_num_copy_seqs [])
     = length (nth cur_idx TM_num_memorys [])
     /\ has_unpadded (length (nth cur_idx TM_num_memorys []))
          (nth b (nth cur_idx TM_num_memory_encoder_padding_masks []) []) = true) ->
  mean_ensemble self x encoder_out = Ok final_lprobs ->
  b < batch_size x -> t < target_len x ->
  forward_ensemble self x encoder_out
  = Ok (transpose_0_1 (target_len x) (batch_size x) (log_floor3 final_lprobs))
  /\ Rsum (at2 final_lprobs t b) = 1%R.
Proof.
  intros HV0 HV Hbw Hch Hvalid H Hb Ht.
  split; [rewrite forward_ensemble_mean, H; reflexivity |].
  unfold mean_ensemble in H. apply bind_Ok in H as (ps & Hps & Hstack).
  rewrite (probs_ensemble_chunks self x encoder_out _ _ _ Hch) in Hps.
  set (bsz := batch_size x) in *. set (seq_len := target_len x) in *.
  set (xT := transpose_0_1 bsz seq_len x) in *.
  apply mapM_Ok in Hps as [Hlen Hnth]. rewrite length_seq in Hlen, Hnth.
  assert (Hq : forall i, i < TM_num self ->
            length (nth i ps []) = seq_len
            /\ length (nth t (nth i ps []) []) = bsz
            /\ length (at2 (nth i ps []) t b) = V
            /\ Rsum (at2 (nth i ps []) t b) = 1%R).
  { intros i Hi. specialize (Hnth i 0 [] Hi). rewrite seq_nth in Hnth by exact Hi.
    simpl in Hnth. destruct (Hvalid i Hi) as [Hl Hpad].
    pose proof (exemplar_probs_shape _ _ _ _ _ _ _ _ _ Hnth) as [Hs1 Hs2].
    split; [exact Hs1 | split; [apply Hs2; exact Ht | split]].
    - apply (exemplar_probs_cell self _ _ _ _ _ _ _ V _ t b HV Hnth Ht Hb).
    - apply (exemplar_probs_row_sum self _ _ _ _ _ _ i V _ t b HV0 HV
               (chunk_exemplars_batch_width self encoder_out _ _ _ bsz i Hch Hbw)
               Hl Hpad Hnth Ht Hb). }
  apply stack_reduce_Ok in Hstack as (Hne & _ & Hrows).
  assert (H0 : 0 < TM_num self).
  { destruct ps; [congruence | simpl in Hlen; lia]. }
  replace (hd [] ps) with (nth 0 ps []) in Hrows by (destruct ps; reflexivity).
  destruct (Hq 0 H0) as (Hq1 & Hq2 & Hq3 & _).
  destruct (Hrows t ltac:(lia)) as [_ Hcell].
  rewrite (Hcell b ltac:(lia)), Hq3.
  rewrite (tab_ext V _
             (fun v => (Rsum (map (fun q : Tensor3 => nth v (at2 q t b) 0%R) ps)
                        / INR (length ps))%R))
    by (intros v _; rewrite length_map; reflexivity).
  rewrite (Rsum_tab_div V
             (fun v => Rsum (map (fun q : Tensor3 => nth v (at2 q t b) 0%R) ps))).
  rewrite (Rsum_exchange V (fun v q => nth v (at2 q t b) 0%R) ps).
  assert (Hsum : Rsum (map (fun a : Tensor3 =>
                              Rsum (tab V (fun v => nth v (at2 a t b) 0%R))) ps)
                 = INR (length ps)).
  { rewrite (@list_as_tab Tensor3 [] ps) at 1. rewrite map_map.
    rewrite Hlen.
    assert (Hall : forall n, n <= TM_num self ->
              Rsum (map (fun i => Rsum (tab V (fun v =>
                           nth v (at2 (nth i ps []) t b) 0%R))) (seq 0 n)) = INR n).
    { induction n as [| n IHn]; intros Hn; [reflexivity |].
      rewrite seq_S, map_app. simpl map.
      assert (Happ : forall l1 l2, Rsum (l1 ++ l2) = (Rsum l1 + Rsum l2)%R).
      { induction l1 as [| a l1 IH1]; intros l2; simpl; [lra |].
        rewrite IH1. lra. }
      rewrite Happ, IHn by lia.
      destruct (Hq n ltac:(lia)) as (_ & _ & Hl & Hs).
      simpl Rsum. rewrite Rsum_tab_nth by exact Hl. rewrite Hs, S_INR. lra. }
    apply Hall. lia. }
  rewrite Hsum.
  assert (INR (length ps) <> 0%R).
  { apply not_0_INR. unfold Tensor3 in *. lia. }
  field. assumption.
Qed.

Lemma ensemble_mean_sums_to_one_witness :
  exists final_lprobs,
    mean_ensemble (toy_decoder true 2 false None 3 0) [[[INR 1]]]
      (toy_encoder_out None) = Ok final_lprobs
    /\ Rsum (at2 final_lprobs 0 0) = 1%R.
Proof.
  eexists.
  assert (Hf : mean_ensemble (toy_decoder true 2 false None 3 0) [[[INR 1]]]
                 (toy_encoder_out None) = Ok ?[m])
    by (cbn; reflexivity).
  split; [exact Hf |].
  refine (proj2 (ensemble_mean_sums_to_one (toy_decoder true 2 false None 3 0)
                   [[[INR 1]]] (toy_encoder_out None) _ _ _ 3 _ 0 0 _ _
                   eq_refl eq_refl _ Hf _ _)).
  - lia.
  - intros v. reflexivity.
  - intros i Hi. change (TM_num (toy_decoder true 2 false None 3 0)) with 2 in Hi.
    destruct i as [| [| i]]; [split; reflexivity | split; reflexivity | lia].
  - unfold batch_size. simpl. lia.
  - unfold target_len. simpl. lia.
Defined.

(** ** The learned-weighting blocks return the logarithm of a distribution *)

Lemma TM_probs_nonneg (self : TransformerDecoderBaseWithTM) (seq_len bsz : nat)
    (x cur_memory : Tensor3) (cur_mask : list (list bool))
    (cur_copy_seq : list (list nat)) (probs : Tensor3) (t b u : nat) :
  TM_probs self seq_len bsz x cur_memory cur_mask cur_copy_seq = Ok probs ->
  t < seq_len -> b < bsz ->
  (0 <= nth u (at2 probs t b) 0)%R.
Proof.
  intros Hp Ht Hb. rewrite TM_probs_fuse in Hp.
  apply fuse_shape in Hp as (index & _ & _ & Hp). destruct (Hp t Ht) as [_ Hcell].
  specialize (Hcell b Hb).
  apply (copy_generate_row_nonneg self _ _ _ _ _ _ u) in Hcell; [exact Hcell |].
  intros j. rewrite attend_alignment_weight by assumption.
  apply masked_softmax_nonneg.
Qed.

Lemma exp_log_floor (p : R) : (0 <= p)%R -> (exp (log_floor p) - 1e-12)%R = p.
Proof.
  intros Hp. unfold log_floor. rewrite exp_ln by lra. lra.
Qed.

Lemma Rsum_app (l1 l2 : list R) : Rsum (l1 ++ l2) = (Rsum l1 + Rsum l2)%R.
Proof.
  induction l1 as [| a l1 IH]; simpl; [lra |]. rewrite IH. lra.
Qed.

(** The sum of a stack of tensors, cell by cell: the mass of a cell is the
    sum of the masses of the stacked cells, and it has no negative entry
    when they have none. *)
Lemma stack_sum_cell (lprobs : list Tensor3) (final : Tensor3) (n B T V : nat)
    (b t : nat) (c : nat -> R) :
  stack_sum lprobs = Ok final ->
  length lprobs = n ->
  (forall i, i < n ->
     length (nth i lprobs []) = B
     /\ length (nth b (nth i lprobs []) []) = T
     /\ length (at2 (nth i lprobs []) b t) = V
     /\ Rsum (at2 (nth i lprobs []) b t) = c i
     /\ forall v, (0 <= nth v (at2 (nth i lprobs []) b t) 0)%R) ->
  b < B -> t < T ->
  length (at2 final b t) = V
  /\ Rsum (at2 final b t) = Rsum (map c (seq 0 n))
  /\ forall v, (0 <= nth v (at2 final b t) 0)%R.
Proof.
  intros Hstack Hlen Hq Hb Ht.
  apply stack_reduce_Ok in Hstack as (Hne & _ & Hrows).
  assert (H0 : 0 < n) by (destruct lprobs; [congruence | simpl in Hlen; lia]).
  replace (hd [] lprobs) with (nth 0 lprobs []) in Hrows
    by (destruct lprobs; reflexivity).
  destruct (Hq 0 H0) as (Hq1 & Hq2 & Hq3 & _).
  destruct (Hrows b ltac:(lia)) as [_ Hcell].
  rewrite (Hcell t ltac:(lia)), Hq3. split; [apply length_tab | split].
  - rewrite (Rsum_exchange V (fun v q => nth v (at2 q b t) 0%R) lprobs).
    rewrite (@list_as_tab Tensor3 [] lprobs) at 1. rewrite Hlen, map_map.
    f_equal. apply map_ext_in. intros i Hi. apply in_seq in Hi.
    destruct (Hq i ltac:(lia)) as (_ & _ & Hl & Hs & _).
    rewrite Rsum_tab_nth by exact Hl. exact Hs.
  - intros v. destruct (Nat.lt_ge_cases v V) as [Hv | Hv].
    + rewrite nth_tab by exact Hv. apply Rsum_nonneg, Forall_forall.
      intros y Hy. apply in_map_iff in Hy as (q & <- & Hin).
      apply (In_nth _ _ ([] : Tensor3)) in Hin as (i & Hi & <-).
      destruct (Hq i ltac:(unfold Tensor3 in *; lia)) as (_ & _ & _ & _ & Hnn).
      apply Hnn.
    + rewrite nth_overflow by (rewrite length_tab; lia). lra.
Qed.

(** The weights of a learned-weighting block: a [B x T x TM_num] tensor of
    softmax rows. *)
Lemma learnable_p_weights (self : TransformerDecoderBaseWithTM)
    (encoder_out : EncoderOut)
    (learnable_p : TransformerDecoderBaseWithTM -> nat -> nat -> Tensor3 ->
                   list (Tensor3 * Tensor3 * Tensor3) -> Tensor3)
    (seq_len bsz : nat) (x : Tensor3) (a : list (Tensor3 * Tensor3 * Tensor3)) :
  branch_learnable_p (branch_taken self encoder_out) = Some learnable_p ->
  (forall n, learnable_p_fc2_out_features self = Some n ->
             forall v, length (learnable_p_fc2 self v) = n) ->
  (forall v, length (dropout_module self v) = length v) ->
  0 < TM_num self ->
  length a = TM_num self ->
  let w := learnable_p self seq_len bsz x a in
  length w = bsz
  /\ forall b, b < bsz ->
       length (nth b w []) = seq_len
       /\ forall t, t < seq_len ->
            length (at2 w b t) = TM_num self
            /\ Rsum (at2 w b t) = 1%R
            /\ forall i, (0 <= nth i (at2 w b t) 0)%R.
Proof.
  intros Hl Hfc Hdrop H0 Ha. cbv zeta.
  pose proof (branch_fc2_out_features self encoder_out) as Hw.
  assert (Hsm : forall l : vec, length l = TM_num self ->
            length (softmax l) = TM_num self /\ Rsum (softmax l) = 1%R
            /\ forall i, (0 <= nth i (softmax l) 0)%R).
  { intros l Hlen. destruct (softmax_sum_length l _ H0 Hlen) as [H1 H2].
    split; [exact H1 | split; [exact H2 | apply softmax_nonneg]]. }
  destruct (branch_taken self encoder_out); simpl in Hl; try discriminate;
    injection Hl as <-.
  - split; [unfold learnable_p_unscalable_linear, tab2; apply length_tab |].
    intros b Hb. split.
    { unfold learnable_p_unscalable_linear, tab2.
      rewrite nth_tab by exact Hb. apply length_tab. }
    intros t Ht. rewrite learnable_p_unscalable_linear_row by assumption.
    apply Hsm. apply length_learnable_p_mlp; [apply Hfc; exact Hw | exact Hdrop].
  - split; [unfold learnable_p_attention, tab2; apply length_tab |].
    intros b Hb. split.
    { unfold learnable_p_attention, tab2.
      rewrite nth_tab by exact Hb. apply length_tab. }
    intros t Ht. rewrite learnable_p_attention_row by assumption.
    apply Hsm. rewrite !length_map, length_attn_normalized_all. exact Ha.
  - split; [unfold learnable_p_linear, tab2; apply length_tab |].
    intros b Hb. split.
    { unfold learnable_p_linear, tab2.
      rewrite nth_tab by exact Hb. apply length_tab. }
    intros t Ht. rewrite learnable_p_linear_row by assumption.
    apply Hsm. rewrite length_concat_ones, length_attn_normalized_all; [exact Ha |].
    intros an. apply length_learnable_p_mlp; [apply Hfc; exact Hw | exact Hdrop].
  - split; [unfold learnable_p_attention_2, tab2; apply length_tab |].
    intros b Hb. split.
    { unfold learnable_p_attention_2, tab2.
      rewrite nth_tab by exact Hb. apply length_tab. }
    intros t Ht.
    destruct (learnable_p_attention_2_row self seq_len bsz x a b t Hb Ht)
      as [pooled ->].
    apply Hsm. rewrite length_concat_ones, length_attn_normalized_all; [exact Ha |].
    intros an. apply length_learnable_p_mlp; [apply Hfc; exact Hw | exact Hdrop].
Qed.

(** X9.  In every learned-weighting block ([unscalable_linear],
    [attention], [attention_large], [linear], [linear_large],
    [attention_2]), when the exemplar ids are a matrix with one column per
    batch element, every exemplar has as many rows of ids as positions and
    a position that is not padding, the output layer has width [V] and
    [learnable_p_fc2] and the dropout have the widths that [__init__] gives
    them, the output of [forward] is the logarithm of a probability
    distribution up to the floor: at every (batch element, target position)
    the exponentials of the [V] entries, each less [1e-12], sum to one
    (over the reals). *)
Theorem learned_ensemble_is_log_distribution (self : TransformerDecoderBaseWithTM)
    (prev_output_tokens : list (list nat)) (encoder_out : EncoderOut)
    (incremental_state : option IncrementalState)
    (features_only full_context_alignment : bool)
    (alignment_layer alignment_heads : option nat)
    (src_lengths : option (list nat)) (return_all_hiddens : bool)
    (learnable_p : TransformerDecoderBaseWithTM -> nat -> nat -> Tensor3 ->
                   list (Tensor3 * Tensor3 * Tensor3) -> Tensor3)
    (x : Tensor3) (extra : Extra)
    (TM_num_memorys : list Tensor3)
    (TM_num_memory_encoder_padding_masks : list (list (list bool)))
    (TM_num_copy_seqs : list (list (list nat)))
    (V : nat) (out : Tensor3) (extra' : Extra) (b t : nat) :
  extract_features self prev_output_tokens encoder_out incremental_state
    full_context_alignment alignment_layer alignment_heads = (x, extra) ->
  branch_learnable_p (branch_taken self encoder_out) = Some learnable_p ->
  (forall n, learnable_p_fc2_out_features self = Some n ->
             forall v, length (learnable_p_fc2 self v) = n) ->
  (forall v, length (dropout_module self v) = length v) ->
  0 < V ->
  (forall v, length (output_layer self v) = V) ->
  batch_width (batch_size x) (TMs encoder_out) = true ->
  chunk_exemplars self encoder_out
  = Ok (TM_num_memorys, TM_num_memory_encoder_padding_masks, TM_num_copy_seqs) ->
  (forall cur_idx, cur_idx < TM_num self ->
     length (nth cur_idx TM_num_copy_seqs [])
     = length (nth cur_idx TM_num_memorys [])
     /\ has_unpadded (length (nth cur_idx TM_num_memorys []))
          (nth b (nth cur_idx TM_num_memory_encoder_padding_masks []) []) = true) ->
  forward self prev_output_tokens encoder_out incremental_state features_only
    full_context_alignment alignment_layer alignment_heads src_lengths
    return_all_hiddens = Ok (out, extra') ->
  b < batch_size x -> t < target_len x ->
  length (at2 out b t) = V
  /\ Rsum (map (fun l => (exp l - 1e-12)%R) (at2 out b t)) = 1%R.
Proof.
  intros Hx Hl Hfc Hdrop HV0 HV Hbw Hch Hvalid H Hb Ht.
  rewrite forward_run_branch in H. cbv zeta in H. rewrite Hx in H. simpl in H.
  apply bind_Ok in H as (lprobs & H & Heq). injection Heq as <- _.
  rewrite (run_branch_learnable_p _ _ _ _ _ Hl) in H.
  apply forward_learnable_p_inv in H
    as (mems & masks & seqs & a & ps & final & Hch' & Hatt & Hlen & Hbody
        & Hstack & ->).
  rewrite Hch in Hch'. injection Hch' as <- <- <-.
  set (bsz := batch_size x) in *. set (seq_len := target_len x) in *.
  set (xT := transpose_0_1 bsz seq_len x) in *.
  pose proof (chunk_exemplars_TM_num _ _ _ _ _ Hch) as H0.
  pose proof (proj1 (attend_all_Ok _ _ _ _ _ _ _ Hatt)) as Ha.
  destruct (learnable_p_weights self encoder_out learnable_p seq_len bsz xT a
              Hl Hfc Hdrop H0 Ha) as [Hw1 Hw2].
  cbv zeta in Hw1, Hw2.
  set (w := learnable_p self seq_len bsz xT a) in *.
  destruct (Hw2 b Hb) as [Hw3 Hw4]. destruct (Hw4 t Ht) as (Hw5 & Hw6 & Hw7).
  destruct (stack_sum_cell ps final (TM_num self) bsz seq_len V b t
              (fun i => nth i (at2 w b t) 0%R) Hstack Hlen) as (Hc1 & Hc2 & Hc3);
    [| exact Hb | exact Ht |].
  - intros i Hi. destruct (Hbody i Hi) as (p & cw & Hp & Hcw & Hq).
    first [rewrite Hq | unfold Tensor3 in Hq |- *; rewrite Hq].
    pose proof (exemplar_probs_TM_probs _ _ _ _ _ _ _ _ _ Hp) as Htm.
    destruct (Hvalid i Hi) as [Hlen' Hpad].
    split; [unfold mul_position, tab2; apply length_tab |].
    split; [unfold mul_position, tab2; rewrite nth_tab by exact Hb;
            apply length_tab |].
    rewrite mul_position_entry by assumption.
    rewrite (select_last_Ok w i cw b t Hcw) by lia.
    split; [rewrite length_map;
            apply (exemplar_probs_cell self _ _ _ _ _ _ _ V p t b HV Hp Ht Hb) |].
    split.
    + rewrite Rsum_scale_r.
      rewrite (TM_probs_row_sum self _ _ _ _ _ _ V p t b HV0 HV
                 (chunk_exemplars_batch_width self encoder_out _ _ _ bsz i Hch Hbw)
                 Hlen' Hpad Htm Ht Hb).
      lra.
    + intros v. rewrite nth_map_scale. apply Rmult_le_pos; [| apply Hw7].
      apply (TM_probs_nonneg self _ _ _ _ _ _ _ t b v Htm Ht Hb).
  - rewrite at2_log_floor3, length_map, map_map. split; [exact Hc1 |].
    rewrite (map_ext_in _ (fun p => p)).
    + rewrite map_id, Hc2. rewrite <- Hw5, <- (list_as_tab 0%R). exact Hw6.
    + intros p Hin. apply (In_nth _ _ 0%R) in Hin as (v & _ & <-).
      apply exp_log_floor, Hc3.
Qed.

Lemma learned_ensemble_is_log_distribution_witness :
  exists out,
    forward (toy_decoder true 2 true (Some "linear"%string) 3 1) [[1]]
      (toy_encoder_out None) None false false None None None false
    = Ok (out, toy_extra)
    /\ Rsum (map (fun l => (exp l - 1e-12)%R) (at2 out 0 0)) = 1%R.
Proof.
  eexists.
  assert (Hf : forward (toy_decoder true 2 true (Some "linear"%string) 3 1) [[1]]
                 (toy_encoder_out None) None false false None None None false
               = Ok (?[out], toy_extra)) by (cbn; reflexivity).
  split; [exact Hf |].
  refine (proj2 (learned_ensemble_is_log_distribution
                   (toy_decoder true 2 true (Some "linear"%string) 3 1) [[1]]
                   (toy_encoder_out None) None false false None None None false
                   learnable_p_linear [[[INR 1]]] toy_extra _ _ _ 3 _ toy_extra
                   0 0 eq_refl eq_refl _ _ _ _ eq_refl eq_refl _ Hf _ _)).
  - intros n Hn v. cbn in Hn. injection Hn as <-. reflexivity.
  - intros v. reflexivity.
  - lia.
  - intros v. reflexivity.
  - intros i Hi.
    change (TM_num (toy_decoder true 2 true (Some "linear"%string) 3 1)) with 2 in Hi.
    destruct i as [| [| i]]; [split; reflexivity | split; reflexivity | lia].
  - unfold batch_size. simpl. lia.
  - unfold target_len. simpl. lia.
Defined.

(** ** The ids that the scatter reads *)

Lemma concat_tab_narrow {A} (n width : nat) (l : list A) :
  length l = n * width ->
  concat (tab n (fun b => narrow (b * width) width l)) = l.
Proof.
  intros H. unfold tab. rewrite (concat_narrow width l n 0).
  rewrite Nat.mul_0_l, skipn_O. apply firstn_all2. lia.
Qed.

(** X26.  The ids that [scatter_add_] reads are
    [cur_copy_seq.transpose(0, 1).contiguous().view(1, bsz, -1)]: the
    construction succeeds exactly when [bsz] is not zero and divides the
    number of ids, and fails with a [RuntimeError] otherwise; it gives
    [bsz] rows of one length which, put end to end, are the columns of
    [cur_copy_seq] put end to end; and when [cur_copy_seq] has exactly
    [bsz] columns, the row of batch element [b] is column [b]. *)
Theorem copy_index_rows (cur_copy_seq : list (list nat)) (bsz : nat) :
  ((exists index, copy_index cur_copy_seq bsz = Ok index)
   <-> (0 < bsz /\ length (transpose_flat cur_copy_seq) mod bsz = 0))
  /\ (forall index,
        copy_index cur_copy_seq bsz = Ok index ->
        length index = bsz
        /\ (forall b, b < bsz ->
              length (nth b index [])
              = length (transpose_flat cur_copy_seq) / bsz)
        /\ concat index = transpose_flat cur_copy_seq)
  /\ (forall e, copy_index cur_copy_seq bsz = Err e -> e = RuntimeError)
  /\ (0 < bsz -> batch_width bsz cur_copy_seq = true ->
      copy_index cur_copy_seq bsz
      = Ok (tab bsz (fun b => select_batch 0 b cur_copy_seq))).
Proof.
  split; [| split; [| split]].
  - unfold copy_index, view_1_bsz.
    destruct (bsz =? 0) eqn:E0.
    + apply Nat.eqb_eq in E0.
      split; [intros [index H]; discriminate | intros [H _]; lia].
    + apply Nat.eqb_neq in E0.
      destruct (length (transpose_flat cur_copy_seq) mod bsz =? 0) eqn:Em.
      * apply Nat.eqb_eq in Em.
        split; [intros _; split; [lia | exact Em] | intros _; eexists; reflexivity].
      * apply Nat.eqb_neq in Em.
        split; [intros [index H]; discriminate | intros [_ H]; contradiction].
  - intros index H. unfold copy_index in H.
    apply view_1_bsz_Ok in H as (Hb & Hlen & ->).
    split; [apply length_tab |]. split.
    + intros b Hb'. rewrite nth_tab by exact Hb'. rewrite length_narrow.
      set (width := length (transpose_flat cur_copy_seq) / bsz) in *.
      rewrite Hlen. apply Nat.min_l. nia.
    + apply concat_tab_narrow. exact Hlen.
  - intros e H. unfold copy_index in H. apply (view_1_bsz_Err _ _ _ H).
  - intros Hb Hw. apply copy_index_matrix; assumption.
Qed.

Lemma copy_index_rows_witness :
  copy_index [[0]; [1]; [2]; [0]] 2 = Ok [[0; 1]; [2; 0]]
  /\ copy_index [[0; 1]; [1; 2]] 2 = Ok [[0; 1]; [1; 2]]
  /\ copy_index [[0; 1]; [1; 2]] 1 = Ok [[0; 1; 1; 2]]
  /\ copy_index [[0]; [1]; [2]] 2 = Err RuntimeError.
Proof.
  split; [reflexivity |]. split.
  - exact (proj2 (proj2 (proj2 (copy_index_rows [[0; 1]; [1; 2]] 2)))
             ltac:(lia) eq_refl).
  - split; reflexivity.
Defined.

Lemma scatter_add_Rsum_firstn (self : vec) (index : list nat) (src out : vec) :
  scatter_add_ self index src = Ok out ->
  Rsum out = (Rsum self + Rsum (firstn (length index) src))%R.
Proof.
  revert self src. induction index as [| i index IH]; intros self src; simpl.
  - intros H; injection H as <-. simpl. lra.
  - destruct src as [| s src]; [discriminate |].
    destruct (i <? length self) eqn:Hi; [| discriminate].
    apply Nat.ltb_lt in Hi. intros H.
    apply IH in H.
    rewrite H, Rsum_add_at by exact Hi. simpl. lra.
Qed.

(** X27.  With [with_TM_ensemble] off, whenever the probability tensor
    before the logarithm exists, the mass of its row at target position
    [t] and batch element [b] is (over the reals) the generate gate plus
    the copy gate times the sum of the first [W] alignment weights, [W]
    being the number of ids that [copy_index] gives the batch element:
    [scatter_add_] reads as many weights as there are ids.  When the ids of
    a batch element are fewer than the memory positions, the copy mass of
    the positions left over is not added to the row. *)
Theorem without_ensemble_row_mass (self : TransformerDecoderBaseWithTM)
    (x : Tensor3) (encoder_out : EncoderOut) (probs : Tensor3)
    (index : list (list nat)) (t b : nat) :
  probs_without_ensemble self x encoder_out = Ok probs ->
  copy_index (TMs encoder_out) (batch_size x) = Ok index ->
  t < target_len x -> b < batch_size x ->
  0 < fused_width self (target_len x) (batch_size x)
        (transpose_0_1 (batch_size x) (target_len x) x)
        (memory_encoder_out encoder_out)
        (memory_encoder_padding_mask encoder_out) t b ->
  let '(attn, alignment_weight, attn_normalized) :=
    attend self (target_len x) (batch_size x)
      (transpose_0_1 (batch_size x) (target_len x) x)
      (memory_encoder_out encoder_out)
      (memory_encoder_padding_mask encoder_out) in
  let g := gates self
             (at2 (transpose_0_1 (batch_size x) (target_len x) x) t b)
             (at2 attn_normalized t b) in
  (nth 0 g 0 + nth 1 g 0 = 1)%R
  /\ Rsum (at2 probs t b)
     = (nth 0 g 0
        + nth 1 g 0
          * Rsum (firstn (length (nth b index [])) (at2 alignment_weight b t)))%R.
Proof.
  intros Hp Hi Ht Hb Hpos.
  unfold probs_without_ensemble in Hp. rewrite TM_probs_fuse in Hp.
  rewrite fused_width_attend in Hpos.
  set (bsz := batch_size x) in *. set (seq_len := target_len x) in *.
  set (xT := transpose_0_1 bsz seq_len x) in *.
  destruct (attend self seq_len bsz xT (memory_encoder_out encoder_out)
              (memory_encoder_padding_mask encoder_out)) as [[at_ aw] an].
  cbn [fst snd] in Hp, Hpos.
  apply fuse_shape in Hp as (index' & Hi' & _ & Hp).
  rewrite Hi in Hi'. injection Hi' as <-.
  destruct (Hp t Ht) as [_ Hcell]. specialize (Hcell b Hb).
  rewrite at2_transpose in Hcell by assumption.
  rewrite copy_generate_row_parts in Hcell.
  split.
  - unfold gates.
    destruct (diverter self (at2 xT t b ++ at2 an t b)) as [a c].
    simpl fst; simpl snd. apply gates_sum.
  - apply scatter_add_Rsum_firstn in Hcell.
    rewrite Hcell, Rsum_scale, firstn_map, Rsum_scale.
    unfold vocab_softmax in *. rewrite softmax_sum.
    + lra.
    + intros E. rewrite length_softmax, E in Hpos. simpl in Hpos. lia.
Qed.

Lemma without_ensemble_row_mass_witness :
  exists probs,
    probs_without_ensemble (toy_decoder false 2 false None 3 0)
      [[[INR 1]]; [[INR 2]]] one_column_encoder_out = Ok probs
    /\ Rsum (at2 probs 0 1) = (3 / 4)%R.
Proof.
  eexists.
  assert (Hf : probs_without_ensemble (toy_decoder false 2 false None 3 0)
                 [[[INR 1]]; [[INR 2]]] one_column_encoder_out = Ok ?[probs])
    by (cbn; reflexivity).
  split; [exact Hf |].
  pose proof (without_ensemble_row_mass (toy_decoder false 2 false None 3 0)
                [[[INR 1]]; [[INR 2]]] one_column_encoder_out _
                [[0; 1]; [2; 0]] 0 1 Hf eq_refl
                ltac:(unfold target_len; simpl; lia)
                ltac:(unfold batch_size; simpl; lia)) as H.
  cbv zeta in H. rewrite fused_width_attend in H.
  unfold vocab_softmax in H. rewrite length_softmax in H.
  specialize (H ltac:(simpl; lia)).
  cbn in H. destruct H as [_ H].
  etransitivity; [exact H |]. rewrite exp_0. field.
Defined.

(** ** What [forward] does not read *)

Lemma run_branch_modules (self : TransformerDecoderBaseWithTM)
    (fc1 fc2 : vec -> vec) (attn : attention) (br : branch)
    (x : Tensor3) (encoder_out : EncoderOut) :
  match br with
  | UnscalableLinear | PairwiseLinear =>
      fc1 = learnable_p_fc1 self /\ fc2 = learnable_p_fc2 self
  | AttentionPooled => attn = learnable_p_attn self
  | AttentionTwo =>
      fc1 = learnable_p_fc1 self /\ fc2 = learnable_p_fc2 self
      /\ attn = learnable_p_attn self
  | _ => True
  end ->
  run_branch (set_learnable_p_modules fc1 fc2 attn self) br x encoder_out
  = run_branch self br x encoder_out.
Proof.
  destruct br; intros H.
  - reflexivity.
  - reflexivity.
  - destruct H as [-> ->]. reflexivity.
  - subst attn. reflexivity.
  - destruct H as [-> ->]. reflexivity.
  - destruct H as (-> & -> & ->). reflexivity.
  - reflexivity.
Qed.

(** X10.  [forward] reads no learned-weighting module that [__init__] did
    not build: when the construction succeeds, replacing
    [learnable_p_fc1], [learnable_p_fc2] or [learnable_p_attn] wherever
    [__init__] built none leaves the result of [forward] unchanged, on
    every input.  In particular these modules have no effect without
    ensemble, on a plain ensemble, or with an unrecognised model name. *)
Theorem forward_reads_only_built_modules (self : TransformerDecoderBaseWithTM)
    (embed_dim : nat) (built : LearnableP)
    (fc1 fc2 : vec -> vec) (attn : attention)
    (prev_output_tokens : list (list nat)) (encoder_out : EncoderOut)
    (incremental_state : option IncrementalState)
    (features_only full_context_alignment : bool)
    (alignment_layer alignment_heads : option nat)
    (src_lengths : option (list nat)) (return_all_hiddens : bool) :
  init_learnable_p self embed_dim = Some built ->
  (fc1_features built <> None -> fc1 = learnable_p_fc1 self) ->
  (fc2_features built <> None -> fc2 = learnable_p_fc2 self) ->
  (attn_num_heads built <> None -> attn = learnable_p_attn self) ->
  forward (set_learnable_p_modules fc1 fc2 attn self) prev_output_tokens
    encoder_out incremental_state features_only full_context_alignment
    alignment_layer alignment_heads src_lengths return_all_hiddens
  = forward self prev_output_tokens encoder_out incremental_state features_only
      full_context_alignment alignment_layer alignment_heads src_lengths
      return_all_hiddens.
Proof.
  intros Hinit H1 H2 H3. rewrite !forward_run_branch. cbv zeta.
  change (branch_taken (set_learnable_p_modules fc1 fc2 attn self) encoder_out)
    with (branch_taken self encoder_out).
  change (extract_features (set_learnable_p_modules fc1 fc2 attn self))
    with (extract_features self).
  rewrite run_branch_modules; [reflexivity |].
  unfold init_learnable_p in Hinit. unfold branch_taken, model_is in *.
  destruct (with_TM_ensemble self); simpl in *; [| exact I].
  destruct (TMs_similarity encoder_out); simpl; [exact I |].
  destruct (with_TM_learnable_p self); simpl in *; [| exact I].
  destruct (with_TM_learnable_p_model self) as [s |]; [| discriminate].
  assert (Hsome : forall A (a : A), Some a <> None) by (intros; discriminate).
  destruct (String.eqb s "unscalable_linear") eqn:E_unscalable_linear;
    [apply String.eqb_eq in E_unscalable_linear; subst s; injection Hinit as <-;
     simpl in *; auto |].
  destruct (String.eqb s "attention") eqn:E_attention;
    [apply String.eqb_eq in E_attention; subst s; injection Hinit as <-;
     simpl in *; auto |].
  destruct (String.eqb s "linear") eqn:E_linear;
    [apply String.eqb_eq in E_linear; subst s; injection Hinit as <-;
     simpl in *; auto |].
  destruct (String.eqb s "attention_large") eqn:E_attention_large;
    [apply String.eqb_eq in E_attention_large; subst s; injection Hinit as <-;
     simpl in *; auto |].
  destruct (String.eqb s "linear_large") eqn:E_linear_large;
    [apply String.eqb_eq in E_linear_large; subst s; injection Hinit as <-;
     simpl in *; auto |].
  destruct (String.eqb s "attention_2") eqn:E_attention_2;
    [apply String.eqb_eq in E_attention_2; subst s; injection Hinit as <-;
     simpl in *; auto |].
  simpl. exact I.
Qed.

Lemma forward_reads_only_built_modules_witness :
  forward (set_learnable_p_modules (fun _ => []) (fun v => v ++ v) toy_attention
             (toy_decoder true 2 true (Some "attention"%string) 3 0))
    [[1]] (toy_encoder_out None) None false false None None None false
  = forward (toy_decoder true 2 true (Some "attention"%string) 3 0)
      [[1]] (toy_encoder_out None) None false false None None None false.
Proof.
  apply (forward_reads_only_built_modules
           (toy_decoder true 2 true (Some "attention"%string) 3 0) 4
           {| fc1_features := None; fc2_features := None;
              attn_num_heads := Some 1 |}).
  - reflexivity.
  - simpl. congruence.
  - simpl. congruence.
  - intros _. reflexivity.
Defined.

(** X11.  With [with_TM_ensemble] off, [TM_num], [with_TM_learnable_p] and
    [with_TM_learnable_p_model] have no effect: the memory is not chunked
    and [forward] returns the same result whatever their values. *)
Theorem without_ensemble_ignores_options (self : TransformerDecoderBaseWithTM)
    (tm_num : nat) (learnable_p : bool) (model : option string)
    (prev_output_tokens : list (list nat)) (encoder_out : EncoderOut)
    (incremental_state : option IncrementalState)
    (features_only full_context_alignment : bool)
    (alignment_layer alignment_heads : option nat)
    (src_lengths : option (list nat)) (return_all_hiddens : bool) :
  with_TM_ensemble self = false ->
  forward (set_TM_options tm_num learnable_p model self) prev_output_tokens
    encoder_out incremental_state features_only full_context_alignment
    alignment_layer alignment_heads src_lengths return_all_hiddens
  = forward self prev_output_tokens encoder_out incremental_state features_only
      full_context_alignment alignment_layer alignment_heads src_lengths
      return_all_hiddens.
Proof.
  intros He. unfold forward.
  change (with_TM_ensemble (set_TM_options tm_num learnable_p model self))
    with (with_TM_ensemble self).
  change (extract_features (set_TM_options tm_num learnable_p model self))
    with (extract_features self).
  rewrite He. cbv zeta.
  destruct (extract_features self prev_output_tokens encoder_out incremental_state
              full_context_alignment alignment_layer alignment_heads) as [x extra].
  reflexivity.
Qed.

Lemma without_ensemble_ignores_options_witness :
  forward (set_TM_options 7 true (Some "linear"%string)
             (toy_decoder false 2 false None 3 0))
    [[1]] (toy_encoder_out None) None false false None None None false
  = forward (toy_decoder false 2 false None 3 0)
      [[1]] (toy_encoder_out None) None false false None None None false.
Proof.
  apply (without_ensemble_ignores_options (toy_decoder false 2 false None 3 0)).
  reflexivity.
Defined.

(** X12.  When [encoder_out] carries similarity scores and
    [with_TM_ensemble] is on, the learned weighting is switched off as a
    whole: [forward] returns the same result whatever
    [with_TM_learnable_p], [with_TM_learnable_p_model] and the learned
    modules are. *)
Theorem similarity_overrides_learned_weighting (self : TransformerDecoderBaseWithTM)
    (learnable_p : bool) (model : option string)
    (fc1 fc2 : vec -> vec) (attn : attention)
    (prev_output_tokens : list (list nat)) (encoder_out : EncoderOut)
    (incremental_state : option IncrementalState)
    (features_only full_context_alignment : bool)
    (alignment_layer alignment_heads : option nat)
    (src_lengths : option (list nat)) (return_all_hiddens : bool) :
  with_TM_ensemble self = true ->
  TMs_similarity encoder_out <> None ->
  forward (set_learnable_p_modules fc1 fc2 attn
             (set_TM_options (TM_num self) learnable_p model self))
    prev_output_tokens encoder_out incremental_state features_only
    full_context_alignment alignment_layer alignment_heads src_lengths
    return_all_hiddens
  = forward self prev_output_tokens encoder_out incremental_state features_only
      full_context_alignment alignment_layer alignment_heads src_lengths
      return_all_hiddens.
Proof.
  intros He Hs. unfold forward.
  change (with_TM_ensemble (set_learnable_p_modules fc1 fc2 attn
            (set_TM_options (TM_num self) learnable_p model self)))
    with (with_TM_ensemble self).
  change (extract_features (set_learnable_p_modules fc1 fc2 attn
            (set_TM_options (TM_num self) learnable_p model self)))
    with (extract_features self).
  rewrite He. cbv zeta.
  destruct (extract_features self prev_output_tokens encoder_out incremental_state
              full_context_alignment alignment_layer alignment_heads) as [x extra].
  destruct (TMs_similarity encoder_out) as [similarity |]; [| congruence].
  reflexivity.
Qed.

Lemma similarity_overrides_learned_weighting_witness :
  forward (set_learnable_p_modules (fun _ => []) (fun _ => []) toy_attention
             (set_TM_options 2 true (Some "linear"%string) scenario_decoder))
    scenario_prev_output_tokens scenario_encoder_out None false false None None
    None false
  = forward scenario_decoder scenario_prev_output_tokens scenario_encoder_out
      None false false None None None false.
Proof.
  apply (similarity_overrides_learned_weighting scenario_decoder true
           (Some "linear"%string) (fun _ => []) (fun _ => []) toy_attention).
  - reflexivity.
  - simpl. congruence.
Defined.

(** ** Construction and use of the learned weighting *)

Lemma run_branch_TM_options (self : TransformerDecoderBaseWithTM)
    (learnable_p : bool) (model : option string) (br : branch)
    (x : Tensor3) (encoder_out : EncoderOut) :
  branch_learnable_p br = None ->
  run_branch (set_TM_options (TM_num self) learnable_p model self) br x encoder_out
  = run_branch self br x encoder_out.
Proof.
  destruct br; intros H; try discriminate H; reflexivity.
Qed.

Lemma model_is_unknown (self : TransformerDecoderBaseWithTM) (s name : string) :
  with_TM_learnable_p_model self = Some s ->
  ~ In s known_models -> In name known_models ->
  model_is self name = false.
Proof.
  intros Hs Hn Hin. unfold model_is. rewrite Hs. apply String.eqb_neq.
  intros ->. contradiction.
Qed.

(** X13.  A model name other than the six that [__init__] and [forward]
    know is not rejected.  With [with_TM_ensemble] and
    [with_TM_learnable_p] on, the construction succeeds and builds no
    weighting module, [forward] takes the plain ensemble block when there
    are no similarity scores, and it returns on every input what it
    returns with [with_TM_learnable_p] off. *)
Theorem unknown_model_is_plain_ensemble (self : TransformerDecoderBaseWithTM)
    (embed_dim : nat) (s : string)
    (prev_output_tokens : list (list nat)) (encoder_out : EncoderOut)
    (incremental_state : option IncrementalState)
    (features_only full_context_alignment : bool)
    (alignment_layer alignment_heads : option nat)
    (src_lengths : option (list nat)) (return_all_hiddens : bool) :
  with_TM_ensemble self = true ->
  with_TM_learnable_p self = true ->
  with_TM_learnable_p_model self = Some s ->
  ~ In s known_models ->
  init_learnable_p self embed_dim
  = Some {| fc1_features := None; fc2_features := None; attn_num_heads := None |}
  /\ (TMs_similarity encoder_out = None ->
      branch_taken self encoder_out = PlainEnsemble)
  /\ forward self prev_output_tokens encoder_out incremental_state features_only
       full_context_alignment alignment_layer alignment_heads src_lengths
       return_all_hiddens
     = forward (set_TM_options (TM_num self) false None self) prev_output_tokens
         encoder_out incremental_state features_only full_context_alignment
         alignment_layer alignment_heads src_lengths return_all_hiddens.
Proof.
  intros He Hp Hs Hn.
  assert (Hm : forall name, In name known_models -> model_is self name = false)
    by (intros name; apply (model_is_unknown self s name Hs Hn)).
  assert (H1 : model_is self "unscalable_linear" = false)
    by (apply Hm; simpl; tauto).
  assert (H2 : model_is self "attention" = false)
    by (apply Hm; simpl; tauto).
  assert (H3 : model_is self "linear" = false)
    by (apply Hm; simpl; tauto).
  assert (H4 : model_is self "attention_large" = false)
    by (apply Hm; simpl; tauto).
  assert (H5 : model_is self "linear_large" = false)
    by (apply Hm; simpl; tauto).
  assert (H6 : model_is self "attention_2" = false)
    by (apply Hm; simpl; tauto).
  split; [| split].
  - unfold init_learnable_p. rewrite He, Hp, Hs, H1, H2, H3, H4, H5, H6.
    reflexivity.
  - intros Hsim. unfold branch_taken.
    rewrite He, Hp, Hsim, H1, H2, H3, H4, H5, H6. reflexivity.
  - rewrite !forward_run_branch. cbv zeta.
    change (extract_features (set_TM_options (TM_num self) false None self))
      with (extract_features self).
    assert (Hbr : branch_taken self encoder_out
                  = branch_taken (set_TM_options (TM_num self) false None self)
                      encoder_out).
    { unfold branch_taken.
      change (with_TM_ensemble (set_TM_options (TM_num self) false None self))
        with (with_TM_ensemble self).
      change (with_TM_learnable_p (set_TM_options (TM_num self) false None self))
        with false.
      rewrite He, Hp, H1, H2, H3, H4, H5, H6.
      destruct (TMs_similarity encoder_out); reflexivity. }
    rewrite <- Hbr. rewrite run_branch_TM_options; [reflexivity |].
    unfold branch_taken. rewrite He, Hp, H1, H2, H3, H4, H5, H6.
    destruct (TMs_similarity encoder_out); reflexivity.
Qed.

Lemma unknown_model_is_plain_ensemble_witness :
  branch_taken (toy_decoder true 2 true (Some "atention"%string) 3 0)
    (toy_encoder_out None) = PlainEnsemble.
Proof.
  refine (proj1 (proj2 (unknown_model_is_plain_ensemble
                   (toy_decoder true 2 true (Some "atention"%string) 3 0) 4
                   "atention"%string [[1]] (toy_encoder_out None) None false
                   false None None None false eq_refl eq_refl eq_refl _))
                eq_refl).
  simpl. intros H.
  repeat (destruct H as [H | H]; [discriminate H |]). exact H.
Defined.

Lemma attend_all_cells (self : TransformerDecoderBaseWithTM) (seq_len bsz : nat)
    (x : Tensor3) (mems : list Tensor3) (masks : list (list (list bool)))
    (a : list (Tensor3 * Tensor3 * Tensor3)) (embed_dim : nat) (t b : nat) :
  (forall q w keys,
     length (attn_output (alignment_layer self) q w keys) = embed_dim) ->
  (forall v, length (alignment_layer_norm self v) = length v) ->
  attend_all self seq_len bsz x mems masks = Ok a ->
  t < seq_len -> b < bsz ->
  length a = TM_num self
  /\ Forall (fun r => length (at2 (fst (fst r)) t b) = embed_dim
                      /\ length (at2 (snd r) t b) = embed_dim) a.
Proof.
  intros Hout Hnorm Hatt Ht Hb.
  apply attend_all_Ok in Hatt as [Hlen Hget]. split; [exact Hlen |].
  apply Forall_forall. intros r Hin.
  apply (In_nth _ _ ([], [], [])) in Hin as (i & Hi & <-).
  assert (Hi' : i < TM_num self) by (rewrite <- Hlen; exact Hi).
  destruct (Hget i Hi') as (m & k & _ & _ & Hr).
  apply (get_Ok _ _ _ ([], [], [])) in Hr as [_ ->].
  unfold attend. cbn [fst snd]. rewrite !at2_tab2 by assumption.
  rewrite Hnorm. unfold MultiheadAttention. cbn [fst]. split; apply Hout.
Qed.

Lemma length_concat_const {A} (f : A -> vec) (l : list A) (n : nat) :
  Forall (fun a => length (f a) = n) l ->
  length (concat (map f l)) = length l * n.
Proof.
  induction 1 as [| a l Ha _ IH]; simpl; [reflexivity |].
  rewrite length_app, Ha, IH. reflexivity.
Qed.

(** X14.  The vectors that the blocks [unscalable_linear], [linear],
    [linear_large] and [attention_2] pass to [learnable_p_fc1] have the
    [in_features] that [__init__] gave the layer ([embed_dim * (TM_num +
    1)], [embed_dim * 2], [embed_dim * 3]), when the features and the
    attention outputs have [embed_dim] entries and the layer norm keeps the
    width; [learnable_p_fc2] takes what [learnable_p_fc1] gives; and the
    weights of the block are the softmax of the outputs of this
    perceptron. *)
Theorem learnable_p_fc1_in_features (self : TransformerDecoderBaseWithTM)
    (encoder_out : EncoderOut)
    (learnable_p : TransformerDecoderBaseWithTM -> nat -> nat -> Tensor3 ->
                   list (Tensor3 * Tensor3 * Tensor3) -> Tensor3)
    (x : Tensor3) (mems : list Tensor3) (masks : list (list (list bool)))
    (a : list (Tensor3 * Tensor3 * Tensor3))
    (embed_dim : nat) (built : LearnableP) (in_features out_features : nat)
    (b t : nat) :
  init_learnable_p self embed_dim = Some built ->
  fc1_features built = Some (in_features, out_features) ->
  branch_learnable_p (branch_taken self encoder_out) = Some learnable_p ->
  (forall b t, b < batch_size x -> t < target_len x ->
               length (at2 x b t) = embed_dim) ->
  (forall q w keys,
     length (attn_output (alignment_layer self) q w keys) = embed_dim) ->
  (forall q w keys,
     length (attn_output (learnable_p_attn self) q w keys) = embed_dim) ->
  (forall v, length (alignment_layer_norm self v) = length v) ->
  attend_all self (target_len x) (batch_size x)
    (transpose_0_1 (batch_size x) (target_len x) x) mems masks = Ok a ->
  b < batch_size x -> t < target_len x ->
  let xT := transpose_0_1 (batch_size x) (target_len x) x in
  let inputs :=
    learnable_p_fc1_inputs self (branch_taken self encoder_out) xT a t b in
  Forall (fun v => length v = in_features) inputs
  /\ (exists n, fc2_features built = Some (out_features, n))
  /\ at2 (learnable_p self (target_len x) (batch_size x) xT a) b t
     = softmax (concat (map (learnable_p_mlp self) inputs)).
Proof.
  intros Hinit Hfc1 Hl Hx Hout Hout' Hnorm Hatt Hb Ht. cbv zeta.
  set (bsz := batch_size x) in *. set (seq_len := target_len x) in *.
  set (xT := transpose_0_1 bsz seq_len x) in *.
  assert (HxT : length (at2 xT t b) = embed_dim).
  { unfold xT. rewrite at2_transpose by assumption. apply Hx; assumption. }
  destruct (attend_all_cells self seq_len bsz xT mems masks a embed_dim t b
              Hout Hnorm Hatt Ht Hb) as [Hlen Hcells].
  unfold init_learnable_p in Hinit. unfold branch_taken, model_is in *.
  destruct (with_TM_ensemble self); simpl in *; [| discriminate].
  destruct (TMs_similarity encoder_out); simpl in *; [discriminate |].
  destruct (with_TM_learnable_p self); simpl in *; [| discriminate].
  destruct (with_TM_learnable_p_model self) as [s |]; [| discriminate].
  destruct (String.eqb s "unscalable_linear") eqn:E1.
  { apply String.eqb_eq in E1. subst s. injection Hinit as <-. simpl in *.
    injection Hfc1 as <- <-. injection Hl as <-. split; [| split].
    - constructor; [| constructor].
      rewrite length_app, HxT. unfold attn_all. rewrite map_map.
      rewrite (length_concat_const _ _ embed_dim), Hlen; [nia |].
      eapply Forall_impl; [| exact Hcells]. intros r [Hr _]. exact Hr.
    - eexists. reflexivity.
    - rewrite learnable_p_unscalable_linear_row by assumption.
      rewrite app_nil_r. reflexivity. }
  destruct (String.eqb s "attention") eqn:E2.
  { apply String.eqb_eq in E2. subst s. injection Hinit as <-. simpl in *.
    discriminate. }
  destruct (String.eqb s "linear") eqn:E3.
  { apply String.eqb_eq in E3. subst s. injection Hinit as <-. simpl in *.
    injection Hfc1 as <- <-. injection Hl as <-. split; [| split].
    - unfold attn_normalized_all. rewrite map_map. apply Forall_map.
      eapply Forall_impl; [| exact Hcells]. intros r [_ Hr].
      rewrite length_app, HxT, Hr. lia.
    - eexists. reflexivity.
    - rewrite learnable_p_linear_row by assumption. rewrite map_map.
      reflexivity. }
  destruct (String.eqb s "attention_large") eqn:E4.
  { apply String.eqb_eq in E4. subst s. injection Hinit as <-. simpl in *.
    discriminate. }
  destruct (String.eqb s "linear_large") eqn:E5.
  { apply String.eqb_eq in E5. subst s. injection Hinit as <-. simpl in *.
    injection Hfc1 as <- <-. injection Hl as <-. split; [| split].
    - unfold attn_normalized_all. rewrite map_map. apply Forall_map.
      eapply Forall_impl; [| exact Hcells]. intros r [_ Hr].
      rewrite length_app, HxT, Hr. lia.
    - eexists. reflexivity.
    - rewrite learnable_p_linear_row by assumption. rewrite map_map.
      reflexivity. }
  destruct (String.eqb s "attention_2") eqn:E6.
  { apply String.eqb_eq in E6. subst s. injection Hinit as <-. simpl in *.
    injection Hfc1 as <- <-. injection Hl as <-. split; [| split].
    - unfold attn_normalized_all. rewrite !map_map. apply Forall_map.
      eapply Forall_impl; [| exact Hcells]. intros r [_ Hr].
      rewrite !length_app, HxT, Hr. unfold MultiheadAttention. cbn [fst].
      rewrite Hout'. lia.
    - eexists. reflexivity.
    - unfold learnable_p_attention_2. rewrite !at2_tab2 by assumption.
      rewrite !map_map. f_equal. f_equal. apply map_ext. intros r.
      rewrite at2_transpose by assumption. rewrite !at2_tab2 by assumption.
      unfold MultiheadAttention. cbn [fst]. rewrite ?map_map. reflexivity. }
  simpl in Hl. discriminate.
Qed.

Lemma learnable_p_fc1_in_features_witness :
  exists a,
    attend_all linear_decoder 1 1
      [[[INR 1]]] [[[[0%R]]; [[0%R]]]; [[[0%R]]; [[0%R]]]]
      [[[false; false]]; [[false; true]]] = Ok a
    /\ Forall (fun v => length v = 2)
         (learnable_p_fc1_inputs
            linear_decoder
            PairwiseLinear [[[INR 1]]] a 0 0).
Proof.
  eexists.
  assert (Hatt : attend_all linear_decoder
                   1 1 [[[INR 1]]] [[[[0%R]]; [[0%R]]]; [[[0%R]]; [[0%R]]]]
                   [[[false; false]]; [[false; true]]] = Ok ?[a])
    by (cbn; reflexivity).
  split; [exact Hatt |].
  refine (proj1 (learnable_p_fc1_in_features
                   linear_decoder
                   (toy_encoder_out None) learnable_p_linear [[[INR 1]]]
                   [[[[0%R]]; [[0%R]]]; [[[0%R]]; [[0%R]]]]
                   [[[false; false]]; [[false; true]]] _ 1
                   {| fc1_features := Some (2, 4); fc2_features := Some (4, 1);
                      attn_num_heads := None |} 2 4 0 0
                   eq_refl eq_refl eq_refl _ _ _ _ Hatt _ _)).
  - intros b t Hb Ht. unfold batch_size in Hb. unfold target_len in Ht.
    simpl in Hb, Ht. assert (b = 0) as -> by lia. assert (t = 0) as -> by lia.
    reflexivity.
  - intros q w keys. reflexivity.
  - intros q w keys. reflexivity.
  - intros v. reflexivity.
  - unfold batch_size. simpl. lia.
  - unfold target_len. simpl. lia.
Defined.

(** X15.  With similarity scores present and [with_TM_ensemble] on, a row
    of scores with fewer than [TM_num] entries makes [forward] fail: the
    block reads the columns [0 .. TM_num - 1] of the scores and checks
    nothing beforehand. *)
Theorem similarity_needs_TM_num_scores (self : TransformerDecoderBaseWithTM)
    (prev_output_tokens : list (list nat)) (encoder_out : EncoderOut)
    (incremental_state : option IncrementalState)
    (features_only full_context_alignment : bool)
    (alignment_layer alignment_heads : option nat)
    (src_lengths : option (list nat)) (return_all_hiddens : bool)
    (similarity : list (list R)) (b : nat) :
  with_TM_ensemble self = true ->
  TMs_similarity encoder_out = Some similarity ->
  b < length similarity ->
  length (nth b similarity []) < TM_num self ->
  exists e,
    forward self prev_output_tokens encoder_out incremental_state features_only
      full_context_alignment alignment_layer alignment_heads src_lengths
      return_all_hiddens = Err e.
Proof.
  intros He Hs Hb Hshort.
  destruct (forward self prev_output_tokens encoder_out incremental_state
              features_only full_context_alignment alignment_layer
              alignment_heads src_lengths return_all_hiddens)
    as [[out extra'] | e] eqn:H; [exfalso | exists e; reflexivity].
  rewrite forward_run_branch in H. cbv zeta in H.
  apply bind_Ok in H as (lprobs & H & _).
  unfold branch_taken in H. rewrite He, Hs in H. simpl in H. rewrite Hs in H.
  apply forward_similarity_inv in H
    as (mems & masks & seqs & ps & final & _ & _ & Hbody & _).
  destruct (Hbody (length (nth b similarity [])) Hshort)
    as (p & s & _ & Hsel & _).
  unfold select_column in Hsel. apply mapM_Ok in Hsel as [_ Hsel].
  specialize (Hsel b [] 0%R Hb).
  apply (get_Ok _ _ _ 0%R) in Hsel as [Hlt _]. lia.
Qed.

Lemma similarity_needs_TM_num_scores_witness :
  exists e,
    forward (toy_decoder true 2 false None 3 0) [[1]]
      (toy_encoder_out (Some [[1%R]])) None false false None None None false
    = Err e.
Proof.
  apply (similarity_needs_TM_num_scores (toy_decoder true 2 false None 3 0) [[1]]
           (toy_encoder_out (Some [[1%R]])) None false false None None None false
           [[1%R]] 0).
  - reflexivity.
  - reflexivity.
  - simpl. lia.
  - simpl. lia.
Defined.

(** ** The cached causal mask *)

Lemma firstn_tab {A} (n d : nat) (f : nat -> A) :
  d <= n -> firstn d (tab n f) = tab d f.
Proof.
  intros Hd. unfold tab. rewrite firstn_map. f_equal.
  replace n with (d + (n - d)) by lia. rewrite seq_app, firstn_app.
  rewrite length_seq, Nat.sub_diag, firstn_O, app_nil_r.
  apply firstn_all2. rewrite length_seq. lia.
Qed.

Lemma triu_neg_inf_cut (n d : nat) :
  d <= n -> map (firstn d) (firstn d (triu_neg_inf n)) = triu_neg_inf d.
Proof.
  intros Hd. unfold triu_neg_inf, tab2. rewrite firstn_tab by exact Hd.
  rewrite map_tab. apply tab_ext. intros i _. apply firstn_tab. exact Hd.
Qed.

Lemma length_triu_neg_inf (n : nat) : length (triu_neg_inf n) = n.
Proof. unfold triu_neg_inf, tab2. apply length_tab. Qed.

(** The cache is always a causal mask of its own size. *)
Lemma future_mask_invariant (calls : list (nat * device)) :
  mask_rows (future_mask_after calls)
  = triu_neg_inf (length (mask_rows (future_mask_after calls))).
Proof.
  unfold future_mask_after.
  assert (H : forall m, mask_rows m = triu_neg_inf (length (mask_rows m)) ->
            mask_rows (fold_left
                         (fun m c => fst (buffered_future_mask m (fst c) (snd c)))
                         calls m)
            = triu_neg_inf
                (length (mask_rows
                   (fold_left
                      (fun m c => fst (buffered_future_mask m (fst c) (snd c)))
                      calls m)))).
  { induction calls as [| [dim dev] calls IH]; intros m Hm; [exact Hm |].
    simpl. apply IH. unfold buffered_future_mask. cbn [fst mask_rows].
    destruct ((length (mask_rows m) =? 0) || negb (device_eqb (mask_device m) dev)
              || (length (mask_rows m) <? dim)).
    - cbn [mask_rows]. rewrite length_triu_neg_inf. reflexivity.
    - exact Hm. }
  apply H. reflexivity.
Qed.

(** X16.  Whatever calls came before (any sizes, any devices),
    [buffered_future_mask] returns the causal mask of the size asked for:
    [dim] rows of [dim] entries, [-inf] strictly above the diagonal and
    zero elsewhere; afterwards the cache is on the device of the tensor
    and holds at least [dim] rows. *)
Theorem buffered_future_mask_is_causal (calls : list (nat * device))
    (dim : nat) (dev : device) :
  let r := buffered_future_mask (future_mask_after calls) dim dev in
  snd r = triu_neg_inf dim
  /\ length (snd r) = dim
  /\ (forall i j, i < dim -> j < dim ->
        nth j (nth i (snd r) []) Zero = if i <? j then NegInf else Zero)
  /\ mask_device (fst r) = dev
  /\ dim <= length (mask_rows (fst r)).
Proof.
  cbv zeta. pose proof (future_mask_invariant calls) as Hinv.
  set (m := future_mask_after calls) in *.
  assert (Hr : snd (buffered_future_mask m dim dev) = triu_neg_inf dim
               /\ dim <= length (mask_rows (fst (buffered_future_mask m dim dev)))).
  { unfold buffered_future_mask. cbn [fst snd mask_rows].
    destruct ((length (mask_rows m) =? 0) || negb (device_eqb (mask_device m) dev)
              || (length (mask_rows m) <? dim)) eqn:E.
    - cbn [mask_rows]. rewrite length_triu_neg_inf. split; [| lia].
      apply triu_neg_inf_cut. lia.
    - apply orb_false_iff in E as [_ E]. apply Nat.ltb_ge in E.
      split; [| exact E]. rewrite Hinv. apply triu_neg_inf_cut. exact E. }
  destruct Hr as [Hr Hsize]. rewrite Hr.
  split; [reflexivity |]. split; [apply length_triu_neg_inf |].
  split; [| split; [reflexivity | exact Hsize]].
  intros i j Hi Hj. unfold triu_neg_inf, tab2.
  rewrite nth_tab by exact Hi. rewrite nth_tab by exact Hj. reflexivity.
Qed.

(** ** The stack of layers *)

Lemma length_insert {A} (index : nat) (m : A) (l : list A) :
  length (insert index m l) = S (length l).
Proof.
  unfold insert. rewrite length_app. simpl.
  rewrite length_firstn, length_skipn. lia.
Qed.

Lemma filter_insert {A} (p : A -> bool) (index : nat) (m : A) (l : list A) :
  p m = false -> filter p (insert index m l) = filter p l.
Proof.
  intros Hm. unfold insert. rewrite filter_app. simpl. rewrite Hm.
  rewrite <- filter_app, firstn_skipn. reflexivity.
Qed.

Lemma nth_insert_lt {A} (index : nat) (m : A) (l : list A) (k : nat) (d : A) :
  index <= length l -> k < index -> nth k (insert index m l) d = nth k l d.
Proof.
  intros Hi Hk. unfold insert.
  rewrite app_nth1 by (rewrite length_firstn; lia).
  rewrite <- (firstn_skipn index l) at 2.
  rewrite app_nth1 by (rewrite length_firstn; lia). reflexivity.
Qed.

Lemma nth_insert_eq {A} (index : nat) (m : A) (l : list A) (d : A) :
  index <= length l -> nth index (insert index m l) d = m.
Proof.
  intros Hi. unfold insert.
  rewrite app_nth2 by (rewrite length_firstn; lia).
  rewrite length_firstn, Nat.min_l by exact Hi. rewrite Nat.sub_diag. reflexivity.
Qed.

Lemma nth_insert_gt {A} (index : nat) (m : A) (l : list A) (k : nat) (d : A) :
  index <= length l -> index <= k -> nth (S k) (insert index m l) d = nth k l d.
Proof.
  intros Hi Hk. unfold insert.
  rewrite app_nth2 by (rewrite length_firstn; lia).
  rewrite length_firstn, Nat.min_l by exact Hi.
  replace (S k - index) with (S (k - index)) by lia. simpl.
  rewrite <- (firstn_skipn index l) at 2.
  rewrite app_nth2 by (rewrite length_firstn; lia).
  rewrite length_firstn, Nat.min_l by exact Hi. reflexivity.
Qed.

Lemma In_insert {A} (index : nat) (m a : A) (l : list A) :
  In a (insert index m l) <-> a = m \/ In a l.
Proof.
  unfold insert. rewrite in_app_iff. simpl.
  rewrite <- (firstn_skipn index l) at 3. rewrite in_app_iff.
  split; [intros [H | [H | H]] | intros [H | [H | H]]]; auto.
Qed.

Lemma base_layer_index_le (decoder_layers num_base_layers i : nat) :
  i < num_base_layers ->
  base_layer_index decoder_layers num_base_layers i <= decoder_layers.
Proof.
  intros Hi. unfold base_layer_index.
  apply Nat.Div0.div_le_upper_bound. nia.
Qed.

Lemma base_layer_index_lt (decoder_layers num_base_layers i : nat) :
  i < num_base_layers -> 0 < decoder_layers ->
  base_layer_index decoder_layers num_base_layers i < decoder_layers.
Proof.
  intros Hi HL. unfold base_layer_index.
  apply Nat.Div0.div_lt_upper_bound. nia.
Qed.

Lemma base_layer_index_step (decoder_layers num_base_layers i : nat) :
  num_base_layers < decoder_layers ->
  base_layer_index decoder_layers num_base_layers i
  < base_layer_index decoder_layers num_base_layers (S i).
Proof.
  intros HL. unfold base_layer_index.
  set (n1 := num_base_layers + 1).
  assert (Hn1 : n1 <> 0) by (unfold n1; lia).
  replace ((S i + 1) * decoder_layers)
    with ((i + 1) * decoder_layers + (decoder_layers - n1) + 1 * n1)
    by (unfold n1; nia).
  rewrite Nat.div_add by exact Hn1.
  pose proof (Nat.Div0.div_le_mono ((i + 1) * decoder_layers)
                ((i + 1) * decoder_layers + (decoder_layers - n1)) n1
                ltac:(lia)).
  lia.
Qed.

Lemma base_layer_index_mono (decoder_layers num_base_layers i j : nat) :
  num_base_layers < decoder_layers -> i < j ->
  base_layer_index decoder_layers num_base_layers i
  < base_layer_index decoder_layers num_base_layers j.
Proof.
  intros HL Hij. induction Hij as [| j Hij IH].
  - apply base_layer_index_step. exact HL.
  - pose proof (base_layer_index_step decoder_layers num_base_layers j HL). lia.
Qed.

Lemma insert_base_layers_S (decoder_layers num_base_layers n : nat)
    (l : list layer) :
  insert_base_layers decoder_layers num_base_layers (S n) l
  = insert (base_layer_index decoder_layers num_base_layers n) (BaseLayer n)
      (insert_base_layers decoder_layers num_base_layers n l).
Proof.
  unfold insert_base_layers. rewrite seq_S, fold_left_app. reflexivity.
Qed.

Lemma length_insert_base_layers (decoder_layers num_base_layers n : nat)
    (l : list layer) :
  length (insert_base_layers decoder_layers num_base_layers n l) = length l + n.
Proof.
  induction n as [| n IH]; [unfold insert_base_layers; simpl; lia |].
  rewrite insert_base_layers_S, length_insert, IH. lia.
Qed.

Lemma filter_decoder_tab (n : nat) :
  filter is_decoder_layer (tab n DecoderLayer) = tab n DecoderLayer.
Proof.
  unfold tab. induction (seq 0 n) as [| a l IH]; simpl; [reflexivity |].
  rewrite IH. reflexivity.
Qed.

(** X17.  The stack that [__init__] builds: [num_layers] is the number of
    decoder layers and does not count the [BaseLayer]s; [self.layers]
    holds the decoder layers in the order in which they were built and,
    when no output projection was passed in, every one of the
    [cfg.base_layers] [BaseLayer]s, each inserted at an index within the
    list of the moment; when a projection was passed in, no [BaseLayer]
    is inserted. *)
Theorem init_layers_stack (decoder_layers base_layers : nat)
    (output_projection : option unit) :
  let st := init_layers decoder_layers base_layers output_projection in
  let inserted :=
    match output_projection with None => base_layers | Some _ => 0 end in
  num_layers st = decoder_layers
  /\ length (layers st) = decoder_layers + inserted
  /\ filter is_decoder_layer (layers st) = tab decoder_layers DecoderLayer
  /\ (forall i, In (BaseLayer i) (layers st) <-> i < inserted)
  /\ (forall i, i < base_layers ->
        base_layer_index decoder_layers base_layers i
        <= length (insert_base_layers decoder_layers base_layers i
                     (tab decoder_layers DecoderLayer))).
Proof.
  cbv zeta. unfold init_layers. cbn [num_layers layers].
  split; [apply length_tab |].
  assert (Hins : forall n,
            filter is_decoder_layer
              (insert_base_layers decoder_layers base_layers n
                 (tab decoder_layers DecoderLayer))
            = tab decoder_layers DecoderLayer
            /\ forall i, In (BaseLayer i)
                           (insert_base_layers decoder_layers base_layers n
                              (tab decoder_layers DecoderLayer)) <-> i < n).
  { induction n as [| n [IH1 IH2]].
    - split; [apply filter_decoder_tab |]. intros i.
      unfold insert_base_layers. simpl.
      split; [| lia]. unfold tab. intros H.
      apply in_map_iff in H as (k & Hk & _). discriminate Hk.
    - rewrite insert_base_layers_S. split.
      + rewrite filter_insert by reflexivity. exact IH1.
      + intros i. rewrite In_insert, IH2. split.
        * intros [H | H]; [injection H as ->; lia | lia].
        * intros H. destruct (Nat.eq_dec i n) as [-> | Hne]; [left; reflexivity |].
          right. lia. }
  destruct output_projection as [u |].
  - rewrite length_tab, Nat.add_0_r.
    split; [reflexivity |]. split; [apply filter_decoder_tab |]. split.
    + intros i. split; [| lia]. unfold tab. intros H.
      apply in_map_iff in H as (k & Hk & _). discriminate Hk.
    + intros i Hi. rewrite length_insert_base_layers, length_tab.
      pose proof (base_layer_index_le decoder_layers base_layers i Hi). lia.
  - rewrite length_insert_base_layers, length_tab.
    split; [reflexivity |]. destruct (Hins base_layers) as [H1 H2].
    split; [exact H1 |]. split; [exact H2 |].
    intros i Hi. rewrite length_insert_base_layers, length_tab.
    pose proof (base_layer_index_le decoder_layers base_layers i Hi). lia.
Qed.

Lemma insert_base_layers_positions (decoder_layers num_base_layers n : nat) :
  num_base_layers < decoder_layers -> n <= num_base_layers ->
  let l := insert_base_layers decoder_layers num_base_layers n
             (tab decoder_layers DecoderLayer) in
  (forall i, i < n ->
     nth (base_layer_index decoder_layers num_base_layers i) l (DecoderLayer 0)
     = BaseLayer i)
  /\ nth 0 l (BaseLayer 0) = DecoderLayer 0
  /\ nth (decoder_layers + n - 1) l (BaseLayer 0)
     = DecoderLayer (decoder_layers - 1).
Proof.
  intros HL. induction n as [| n IH]; intros Hn; cbv zeta.
  - unfold insert_base_layers. simpl. split; [lia |].
    rewrite !nth_tab by lia. split; [reflexivity | f_equal; lia].
  - destruct (IH ltac:(lia)) as (IH1 & IH2 & IH3). cbv zeta in IH1, IH2, IH3.
    rewrite insert_base_layers_S.
    set (l := insert_base_layers decoder_layers num_base_layers n
                (tab decoder_layers DecoderLayer)) in *.
    assert (Hlen : length l = decoder_layers + n)
      by (unfold l; rewrite length_insert_base_layers, length_tab; reflexivity).
    pose proof (base_layer_index_lt decoder_layers num_base_layers n
                  ltac:(lia) ltac:(lia)) as Hlt.
    assert (H0 : 0 < base_layer_index decoder_layers num_base_layers n).
    { unfold base_layer_index. apply Nat.div_str_pos. nia. }
    split; [| split].
    + intros i Hi. destruct (Nat.eq_dec i n) as [-> | Hne].
      * apply nth_insert_eq. lia.
      * rewrite nth_insert_lt; [apply IH1; lia | lia |].
        apply base_layer_index_mono; [exact HL | lia].
    + rewrite nth_insert_lt by lia. exact IH2.
    + replace (decoder_layers + S n - 1) with (S (decoder_layers + n - 1)) by lia.
      rewrite nth_insert_gt by lia. exact IH3.
Qed.

(** X18.  With fewer [BaseLayer]s than decoder layers, the [i]-th
    [BaseLayer] ends at index [((i + 1) * layers) // (base_layers + 1)] of
    [self.layers], behind the [BaseLayer]s inserted before it (these
    indices increase with [i]); the stack still begins with the first
    decoder layer and ends with the last one, at index
    [num_layers + base_layers - 1]. *)
Theorem base_layers_positions (decoder_layers base_layers : nat) :
  base_layers < decoder_layers ->
  let st := init_layers decoder_layers base_layers None in
  (forall i, i < base_layers ->
     nth (base_layer_index decoder_layers base_layers i) (layers st)
         (DecoderLayer 0)
     = BaseLayer i)
  /\ (forall i j, i < j ->
        base_layer_index decoder_layers base_layers i
        < base_layer_index decoder_layers base_layers j)
  /\ nth 0 (layers st) (BaseLayer 0) = DecoderLayer 0
  /\ nth (num_layers st + base_layers - 1) (layers st) (BaseLayer 0)
     = DecoderLayer (decoder_layers - 1).
Proof.
  intros HL. cbv zeta. unfold init_layers. cbn [layers num_layers].
  rewrite length_tab.
  destruct (insert_base_layers_positions decoder_layers base_layers base_layers
              HL ltac:(lia)) as (H1 & H2 & H3).
  split; [exact H1 |]. split; [| split; [exact H2 | exact H3]].
  intros i j Hij. apply base_layer_index_mono; assumption.
Qed.

Lemma base_layers_positions_witness :
  nth 2 (layers (init_layers 6 2 None)) (DecoderLayer 0) = BaseLayer 0
  /\ nth 4 (layers (init_layers 6 2 None)) (DecoderLayer 0) = BaseLayer 1.
Proof.
  destruct (base_layers_positions 6 2 ltac:(lia)) as [H _].
  split; [apply (H 0); lia | apply (H 1); lia].
Defined.

(** ** The configuration file *)

Lemma str_split_nonempty (sep : ascii) (s : string) : str_split sep s <> [].
Proof.
  destruct s as [| c s]; simpl; [discriminate |].
  destruct (Ascii.eqb c sep); [discriminate |].
  destruct (str_split sep s); discriminate.
Qed.

Lemma length_str_split (sep : ascii) (s : string) :
  length (str_split sep s) = S (count_char sep s).
Proof.
  induction s as [| c s IH]; simpl; [reflexivity |].
  destruct (Ascii.eqb c sep); simpl; [rewrite IH; reflexivity |].
  destruct (str_split sep s) as [| part parts] eqn:E; simpl in *; [discriminate |].
  exact IH.
Qed.

Lemma count_char_app (c : ascii) (a b : string) :
  count_char c (a ++ b) = count_char c a + count_char c b.
Proof.
  induction a as [| c' a IH]; simpl; [reflexivity |]. rewrite IH. lia.
Qed.

Lemma str_split_none (sep : ascii) (s : string) :
  count_char sep s = 0 -> str_split sep s = [s].
Proof.
  induction s as [| c s IH]; simpl; [reflexivity |].
  destruct (Ascii.eqb c sep); simpl; [discriminate |].
  intros H. rewrite (IH H). reflexivity.
Qed.

Lemma str_split_first (sep : ascii) (a b : string) :
  count_char sep a = 0 ->
  str_split sep (a ++ String sep b) = a :: str_split sep b.
Proof.
  induction a as [| c a IH]; simpl.
  - intros _. rewrite Ascii.eqb_refl. reflexivity.
  - destruct (Ascii.eqb c sep); simpl; [discriminate |].
    intros H. rewrite (IH H). reflexivity.
Qed.

(** Joining the parts with the separator gives the string back. *)
Lemma str_split_two (sep : ascii) (s key value : string) :
  str_split sep s = [key; value] ->
  s = (key ++ String sep value)%string
  /\ count_char sep key = 0 /\ count_char sep value = 0.
Proof.
  revert key. induction s as [| c s IH]; intros key; simpl; [discriminate |].
  destruct (Ascii.eqb c sep) eqn:E.
  - intros H. injection H as <- H. apply Ascii.eqb_eq in E. subst c.
    pose proof (length_str_split sep s) as Hl. rewrite H in Hl. simpl in Hl.
    assert (Hc : count_char sep s = 0) by lia.
    rewrite (str_split_none sep s Hc) in H. injection H as ->.
    simpl. auto.
  - destruct (str_split sep s) as [| part parts] eqn:Es; [discriminate |].
    intros H. injection H as <- ->.
    destruct (IH part eq_refl) as (-> & H1 & H2).
    simpl. rewrite E. auto.
Qed.

Lemma config_line_parts (key value : string) :
  count_char "=" (config_line key value) = 1 ->
  str_split "=" (config_line key value) = [key; value].
Proof.
  unfold config_line. rewrite count_char_app. simpl. intros H.
  rewrite str_split_first by lia. rewrite str_split_none by lia. reflexivity.
Qed.

Lemma read_configs_succeeds_iff_aux (strip : string -> string)
    (lines : list string) (configs : Configs) :
  ((exists configs', read_configs strip lines configs = Built configs')
   <-> Forall (fun line => strip line = ""%string
                           \/ count_char "=" (strip line) = 1) lines)
  /\ (forall e, read_configs strip lines configs = Raised e -> e = ValueError).
Proof.
  revert configs. induction lines as [| line lines IH]; intros configs; simpl.
  - split; [| discriminate]. split; [constructor | eexists; reflexivity].
  - destruct (String.eqb_spec (strip line) "") as [Hblank | Hblank].
    + destruct (IH configs) as [IH1 IH2]. split; [| exact IH2].
      rewrite IH1. split; [intros H; constructor; auto |].
      intros H. inversion H. assumption.
    + pose proof (length_str_split "=" (strip line)) as Hlen.
      destruct (str_split "=" (strip line)) as [| key [| value [| x parts]]] eqn:E;
        simpl in Hlen.
      * discriminate.
      * split; [| intros e H; congruence].
        split; [intros [c H]; discriminate |].
        intros H. inversion H as [| ? ? [H1 | H1] _]; [contradiction | lia].
      * destruct (IH (set_config key value configs)) as [IH1 IH2].
        split; [| exact IH2]. rewrite IH1.
        split; [intros H; constructor; [right; lia | exact H] |].
        intros H. inversion H. assumption.
      * split; [| intros e H; congruence].
        split; [intros [c H]; discriminate |].
        intros H. inversion H as [| ? ? [H1 | H1] _]; [contradiction | lia].
Qed.

(** X19.  The loop that reads the configuration file succeeds exactly when
    every line that is not blank holds exactly one [=]; a line with none
    (a comment, say) or with two makes [__init__] raise [ValueError]. *)
Theorem read_configs_succeeds_iff (strip : string -> string)
    (lines : list string) (configs : Configs) :
  ((exists configs', read_configs strip lines configs = Built configs')
   <-> Forall (fun line => strip line = ""%string
                           \/ count_char "=" (strip line) = 1) lines)
  /\ (forall e, read_configs strip lines configs = Raised e -> e = ValueError).
Proof. exact (read_configs_succeeds_iff_aux strip lines configs). Qed.

Lemma read_configs_frame (strip : string -> string) (lines : list string)
    (configs configs' : Configs) (key : string) :
  read_configs strip lines configs = Built configs' ->
  (forall line value, In line lines -> strip line <> config_line key value) ->
  configs' key = configs key.
Proof.
  revert configs. induction lines as [| line lines IH]; intros configs; simpl.
  - intros H _. injection H as <-. reflexivity.
  - intros H Hno.
    assert (Hno' : forall l v, In l lines -> strip l <> config_line key v)
      by (intros l v Hl; apply Hno; right; exact Hl).
    destruct (String.eqb (strip line) ""); [apply (IH _ H Hno') |].
    destruct (str_split "=" (strip line)) as [| k [| v [| x parts]]] eqn:E;
      try discriminate.
    rewrite (IH _ H Hno'). unfold set_config.
    destruct (String.eqb_spec key k) as [-> | Hne]; [| reflexivity].
    apply str_split_two in E as (E & _ & _). exfalso.
    apply (Hno line v); [left; reflexivity | exact E].
Qed.

(** X20.  The value that the configuration holds for a key is the text
    after the [=] of the last line [key=value] of the file, with nothing
    trimmed around the [=]; a key that no line sets keeps the value it had
    before (none, for the file read by [__init__]). *)
Theorem read_configs_last_line_wins (strip : string -> string)
    (before after : list string) (line key value : string)
    (configs configs' : Configs) :
  read_configs strip (before ++ line :: after) configs = Built configs' ->
  strip line = config_line key value ->
  (forall line' value', In line' after -> strip line' <> config_line key value') ->
  configs' key = Some value
  /\ (forall key',
        (forall line' value', In line' (before ++ line :: after) ->
                              strip line' <> config_line key' value') ->
        configs' key' = configs key').
Proof.
  intros H Hline Hafter. split.
  - revert configs H. induction before as [| l before IH]; intros configs H.
    + simpl in H.
      assert (Hok : exists c, read_configs strip (line :: after) configs = Built c)
        by (exists configs'; exact H).
      apply (proj1 (read_configs_succeeds_iff_aux strip (line :: after) configs)) in Hok.
      inversion Hok as [| ? ? Hl _]. subst.
      destruct (String.eqb_spec (strip line) "") as [Hb | Hb].
      * rewrite Hline in Hb. unfold config_line in Hb.
        destruct key; discriminate Hb.
      * destruct Hl as [Hl | Hl]; [contradiction |].
        rewrite Hline in Hl, H. rewrite (config_line_parts key value Hl) in H.
        rewrite (read_configs_frame strip after _ _ key H Hafter).
        unfold set_config. rewrite String.eqb_refl. reflexivity.
    + simpl in H. destruct (String.eqb (strip l) ""); [apply (IH _ H) |].
      destruct (str_split "=" (strip l)) as [| k [| v [| x parts]]];
        try discriminate.
      apply (IH _ H).
  - intros key' Hno. apply (read_configs_frame strip _ _ _ key' H Hno).
Qed.

Lemma read_configs_last_line_wins_witness :
  exists configs',
    read_configs (fun s => s) ["TM_num=3"; "TM_num=7"; "x=1"]%string
      empty_configs = Built configs'
    /\ configs' "TM_num"%string = Some "7"%string.
Proof.
  eexists.
  assert (H : read_configs (fun s => s) ["TM_num=3"; "TM_num=7"; "x=1"]%string
                empty_configs = Built ?[c]) by reflexivity.
  split; [exact H |].
  refine (proj1 (read_configs_last_line_wins (fun s => s) ["TM_num=3"%string]
                   ["x=1"%string] "TM_num=7"%string "TM_num"%string "7"%string
                   empty_configs _ H eq_refl _)).
  intros line' value' [<- | []] Heq. discriminate Heq.
Defined.

(** X21.  When the file does not exist, or sets none of the four keys
    [with_TM_ensemble], [TM_num], [with_TM_learnable_p] and
    [with_TM_learnable_p_model], the options take their defaults whatever
    else the file holds: no ensemble, [TM_num = 5], no learned weighting,
    no model. *)
Theorem options_default_to_no_ensemble (strip lower : string -> string)
    (int : string -> option Z) (config_file : option (list string))
    (configs : Configs) :
  load_configs strip config_file = Built configs ->
  (forall lines line key value,
     config_file = Some lines -> In line lines -> In key option_keys ->
     strip line <> config_line key value) ->
  init_options lower int configs
  = Built {| opt_with_TM_ensemble := false;
             opt_TM_num := 5%Z;
             opt_with_TM_learnable_p := false;
             opt_with_TM_learnable_p_model := None |}.
Proof.
  intros Hload Hno.
  assert (Hnone : forall key, In key option_keys -> configs key = None).
  { intros key Hkey. destruct config_file as [lines |]; simpl in Hload.
    - rewrite (read_configs_frame strip lines empty_configs configs key Hload);
        [reflexivity |].
      intros line value Hin. apply (Hno lines line key value eq_refl Hin Hkey).
    - injection Hload as <-. reflexivity. }
  unfold init_options, parse_flag.
  rewrite (Hnone "with_TM_ensemble"%string) by (simpl; tauto).
  rewrite (Hnone "TM_num"%string) by (simpl; tauto).
  rewrite (Hnone "with_TM_learnable_p"%string) by (simpl; tauto).
  rewrite (Hnone "with_TM_learnable_p_model"%string) by (simpl; tauto).
  reflexivity.
Qed.

Lemma options_default_to_no_ensemble_witness :
  init_options (fun s => s) (fun _ => None) empty_configs
  = Built {| opt_with_TM_ensemble := false;
             opt_TM_num := 5%Z;
             opt_with_TM_learnable_p := false;
             opt_with_TM_learnable_p_model := None |}.
Proof.
  apply (options_default_to_no_ensemble (fun s => s) (fun s => s)
           (fun _ => None) None empty_configs eq_refl).
  intros lines line key value H. discriminate H.
Defined.

(** ** Upgrading a state dict *)

Lemma append_inj_l (a b c : string) : (a ++ b = a ++ c)%string -> b = c.
Proof.
  induction a as [| x a IH]; simpl; [auto |].
  intros H. injection H as H. auto.
Qed.

Lemma append_assoc (a b c : string) :
  ((a ++ b) ++ c = a ++ (b ++ c))%string.
Proof.
  induction a as [| x a IH]; simpl; [reflexivity |]. rewrite IH. reflexivity.
Qed.

(** The characters of [str_of_nat] are never the dot. *)
Lemma string_of_uint_split (d d' : Decimal.uint) (r r' : string) :
  (NilEmpty.string_of_uint d ++ String "." r
   = NilEmpty.string_of_uint d' ++ String "." r')%string ->
  d = d' /\ r = r'.
Proof.
  revert d'. induction d as [| d IH | d IH | d IH | d IH | d IH | d IH | d IH
                             | d IH | d IH | d IH];
    intros d'; destruct d'; simpl; intros H;
    try discriminate H;
    try (injection H as H; destruct (IH _ H) as [-> ->]; auto).
  injection H as ->. auto.
Qed.

Lemma layer_key_inj (name : string) (i j : nat) (r r' : string) :
  layer_key name i r = layer_key name j r' -> i = j /\ r = r'.
Proof.
  unfold layer_key, str_of_nat. intros H.
  apply append_inj_l in H. apply append_inj_l in H.
  apply string_of_uint_split in H as [H ->].
  split; [apply Unsigned.to_uint_inj; exact H | reflexivity].
Qed.

Lemma layer_key_not_fixed (name : string) (i : nat) (r suffix : string) :
  In suffix fixed_suffixes -> layer_key name i r <> (name ++ suffix)%string.
Proof.
  unfold layer_key. intros Hin H. apply append_inj_l in H.
  simpl in Hin.
  repeat (destruct Hin as [<- | Hin]; [discriminate H |]). exact Hin.
Qed.

Lemma fixed_key_inj (name s1 s2 : string) :
  (name ++ s1 = name ++ s2)%string -> s1 = s2.
Proof. apply append_inj_l. Qed.

Lemma fold_left_flat_map {A B C} (g : A -> C -> A) (f : B -> list C)
    (l : list B) (a : A) :
  fold_left g (flat_map f l) a = fold_left (fun a x => fold_left g (f x) a) l a.
Proof.
  revert a. induction l as [| x l IH]; intros a; [reflexivity |].
  cbn [flat_map fold_left]. rewrite fold_left_app. apply IH.
Qed.

Lemma fold_left_map {A B C} (g : A -> C -> A) (h : B -> C) (l : list B) (a : A) :
  fold_left g (map h l) a = fold_left (fun a x => g a (h x)) l a.
Proof.
  revert a. induction l as [| x l IH]; intros a; [reflexivity |].
  cbn [map fold_left]. apply IH.
Qed.

Lemma fold_left_ext_eq {A B} (f g : A -> B -> A) (l : list B) (a : A) :
  (forall a x, f a x = g a x) -> fold_left f l a = fold_left g l a.
Proof.
  intros H. revert a. induction l as [| x l IH]; intros a; [reflexivity |].
  cbn [fold_left]. rewrite H. apply IH.
Qed.

Lemma upgrade_layer_norms_renames (name : string) (num_layers : nat)
    (state_dict : StateDict) :
  upgrade_layer_norms name num_layers state_dict
  = rename_all (layer_norm_renames name num_layers) state_dict.
Proof.
  unfold upgrade_layer_norms, rename_all, layer_norm_renames.
  rewrite fold_left_flat_map. apply fold_left_ext_eq. intros sd i.
  rewrite fold_left_flat_map. apply fold_left_ext_eq. intros sd' old_new.
  rewrite fold_left_map. reflexivity.
Qed.

Lemma in_layer_norm_renames (name : string) (num_layers : nat) (r : string * string) :
  In r (layer_norm_renames name num_layers) <->
  exists i old_new m,
    i < num_layers /\ In old_new layer_norm_map
    /\ In m ["weight"; "bias"]%string
    /\ r = (old_layer_norm_key name i (fst old_new) m,
            new_layer_norm_key name i (snd old_new) m).
Proof.
  unfold layer_norm_renames. rewrite in_flat_map. split.
  - intros (i & Hi & H). apply in_seq in Hi. apply in_flat_map in H as (on & Hon & H).
    apply in_map_iff in H as (m & <- & Hm). exists i, on, m. repeat split; auto. lia.
  - intros (i & on & m & Hi & Hon & Hm & ->). exists i.
    split; [apply in_seq; lia |]. apply in_flat_map. exists on.
    split; [exact Hon |]. apply in_map_iff. exists m. auto.
Qed.

(** Old and new keys never meet, and a key determines its pair. *)
Lemma layer_norm_renames_keys (name : string) (num_layers : nat)
    (r r' : string * string) :
  In r (layer_norm_renames name num_layers) ->
  In r' (layer_norm_renames name num_layers) ->
  fst r <> snd r'
  /\ (fst r = fst r' -> r = r')
  /\ (snd r = snd r' -> r = r').
Proof.
  intros Hr Hr'.
  apply in_layer_norm_renames in Hr as (i & on & m & _ & Hon & Hm & ->).
  apply in_layer_norm_renames in Hr' as (j & on' & m' & _ & Hon' & Hm' & ->).
  unfold old_layer_norm_key, new_layer_norm_key. cbn [fst snd].
  simpl in Hon, Hon', Hm, Hm'.
  destruct Hon as [<- | [<- | [<- | []]]];
    destruct Hon' as [<- | [<- | [<- | []]]];
    destruct Hm as [<- | [<- | []]];
    destruct Hm' as [<- | [<- | []]];
    (split; [| split]); intros H;
    apply layer_key_inj in H as [Hij H];
    try discriminate H; subst j; reflexivity.
Qed.

Lemma rename_key_other (k new_k q : string) (state_dict : StateDict) :
  q <> k -> q <> new_k -> rename_key k new_k state_dict q = state_dict q.
Proof.
  intros H1 H2. unfold rename_key.
  destruct (state_dict k); [| reflexivity].
  unfold dict_del, dict_set.
  rewrite (proj2 (String.eqb_neq q k) H1), (proj2 (String.eqb_neq q new_k) H2).
  reflexivity.
Qed.

Lemma rename_key_old (k new_k : string) (state_dict : StateDict) :
  rename_key k new_k state_dict k = None.
Proof.
  unfold rename_key. destruct (state_dict k) eqn:E; [| exact E].
  unfold dict_del. rewrite String.eqb_refl. reflexivity.
Qed.

Lemma rename_key_new (k new_k : string) (state_dict : StateDict) (v : vec) :
  k <> new_k -> state_dict k = Some v ->
  rename_key k new_k state_dict new_k = Some v.
Proof.
  intros Hne Hk. unfold rename_key. rewrite Hk. unfold dict_del, dict_set.
  rewrite (proj2 (String.eqb_neq new_k k) (fun H => Hne (eq_sym H))).
  rewrite String.eqb_refl. reflexivity.
Qed.

Lemma rename_all_other (rs : list (string * string)) (state_dict : StateDict)
    (q : string) :
  (forall r, In r rs -> q <> fst r /\ q <> snd r) ->
  rename_all rs state_dict q = state_dict q.
Proof.
  unfold rename_all. revert state_dict.
  induction rs as [| r rs IH]; intros sd H; [reflexivity |].
  simpl. rewrite IH by (intros r' Hr'; apply H; right; exact Hr').
  destruct (H r (or_introl eq_refl)) as [H1 H2].
  apply rename_key_other; assumption.
Qed.

Lemma rename_all_absent (rs : list (string * string)) (state_dict : StateDict)
    (k : string) :
  state_dict k = None ->
  (forall r, In r rs -> snd r <> k) ->
  rename_all rs state_dict k = None.
Proof.
  unfold rename_all. revert state_dict.
  induction rs as [| r rs IH]; intros sd Hk H; [exact Hk |].
  simpl. apply IH; [| intros r' Hr'; apply H; right; exact Hr'].
  destruct (String.eqb_spec k (fst r)) as [-> | Hne]; [apply rename_key_old |].
  rewrite rename_key_other; [exact Hk | exact Hne |].
  intros Heq. apply (H r (or_introl eq_refl)). symmetry. exact Heq.
Qed.

Lemma rename_all_old (rs : list (string * string)) (state_dict : StateDict)
    (r : string * string) :
  (forall r1 r2, In r1 rs -> In r2 rs -> fst r1 <> snd r2) ->
  In r rs ->
  rename_all rs state_dict (fst r) = None.
Proof.
  intros Hdisj Hin. apply in_split in Hin as (pre & post & ->).
  unfold rename_all. rewrite fold_left_app. simpl.
  apply (rename_all_absent post); [apply rename_key_old |].
  intros r' Hr' Heq. apply (Hdisj r r'); [| | symmetry; exact Heq];
    apply in_or_app; right; [left; reflexivity | right; exact Hr'].
Qed.

Lemma rename_all_keeps (rs : list (string * string)) (state_dict : StateDict)
    (k new_k : string) (v : vec) :
  (forall r, In r rs -> fst r <> new_k /\ snd r <> k) ->
  (forall r, In r rs -> snd r = new_k -> fst r = k) ->
  state_dict new_k = Some v -> state_dict k = None ->
  rename_all rs state_dict new_k = Some v.
Proof.
  unfold rename_all. revert state_dict.
  induction rs as [| r rs IH]; intros sd H1 H2 Hn Hk; [exact Hn |].
  cbn [fold_left].
  assert (H1' : forall r', In r' rs -> fst r' <> new_k /\ snd r' <> k)
    by (intros r' Hr'; apply H1; right; exact Hr').
  assert (H2' : forall r', In r' rs -> snd r' = new_k -> fst r' = k)
    by (intros r' Hr'; apply H2; right; exact Hr').
  destruct (H1 r (or_introl eq_refl)) as [Ha Hb].
  destruct (String.eqb_spec (fst r) k) as [Heq | Hne].
  - unfold rename_key. rewrite Heq, Hk. apply IH; assumption.
  - assert (Hc : snd r <> new_k)
      by (intros Hs; apply Hne, (H2 r (or_introl eq_refl) Hs)).
    apply IH; try assumption.
    + rewrite rename_key_other; [exact Hn | |]; intros E; symmetry in E; auto.
    + rewrite rename_key_other; [exact Hk | |]; intros E; symmetry in E; auto.
Qed.

Lemma rename_all_moved (rs : list (string * string)) (state_dict : StateDict)
    (k new_k : string) (v : vec) :
  (forall r1 r2, In r1 rs -> In r2 rs -> fst r1 <> snd r2) ->
  (forall r, In r rs -> snd r = new_k -> r = (k, new_k)) ->
  (forall r, In r rs -> fst r = k -> r = (k, new_k)) ->
  In (k, new_k) rs ->
  state_dict k = Some v ->
  rename_all rs state_dict new_k = Some v.
Proof.
  intros Hdisj Hsnd Hfst. revert state_dict.
  induction rs as [| r rs IH]; intros sd Hin Hk; [destruct Hin |].
  assert (Hkn : k <> new_k)
    by (apply (Hdisj (k, new_k) (k, new_k) Hin Hin)).
  change (rename_all (r :: rs) sd)
    with (rename_all rs (rename_key (fst r) (snd r) sd)).
  destruct (String.eqb_spec (fst r) k) as [Heq | Hne].
  - pose proof (Hfst r (or_introl eq_refl) Heq) as ->. cbn [fst snd].
    apply (rename_all_keeps rs _ k new_k v).
    + intros r' Hr'. split.
      * apply (Hdisj r' (k, new_k)); [right; exact Hr' | exact Hin].
      * intros E. apply (Hdisj (k, new_k) r' Hin (or_intror Hr')).
        symmetry. exact E.
    + intros r' Hr' E. rewrite (Hsnd r' (or_intror Hr') E). reflexivity.
    + apply rename_key_new; assumption.
    + apply rename_key_old.
  - destruct Hin as [Hin | Hin]; [subst r; exfalso; apply Hne; reflexivity |].
    apply IH.
    + intros r1 r2 H1 H2. apply Hdisj; right; assumption.
    + intros r' Hr'. apply Hsnd. right. exact Hr'.
    + intros r' Hr'. apply Hfst. right. exact Hr'.
    + exact Hin.
    + rewrite rename_key_other; [exact Hk | intros E; apply Hne; auto |].
      intros E. apply (Hdisj (k, new_k) r (or_intror Hin) (or_introl eq_refl)).
      exact E.
Qed.

Lemma rename_all_idle (rs : list (string * string)) (state_dict : StateDict) :
  (forall r, In r rs -> state_dict (fst r) = None) ->
  rename_all rs state_dict = state_dict.
Proof.
  unfold rename_all. induction rs as [| r rs IH]; intros H; [reflexivity |].
  cbn [fold_left]. unfold rename_key at 2.
  rewrite (H r (or_introl eq_refl)). apply IH.
  intros r' Hr'. apply H. right. exact Hr'.
Qed.

Ltac fixed_neq :=
  let H := fresh "H" in
  intros H; apply append_inj_l in H; discriminate H.

Lemma eqb_fixed (name s1 s2 : string) :
  String.eqb s1 s2 = false ->
  String.eqb (name ++ s1) (name ++ s2) = false.
Proof.
  intros H. apply String.eqb_neq. intros E. apply append_inj_l in E.
  apply String.eqb_neq in H. contradiction.
Qed.

Lemma upgrade_embed_positions_other (sinusoidal : bool) (uninitialized : R)
    (name : string) (state_dict : StateDict) (q : string) :
  q <> (name ++ ".embed_positions.weights")%string ->
  q <> (name ++ ".embed_positions._float_tensor")%string ->
  upgrade_embed_positions sinusoidal uninitialized name state_dict q
  = state_dict q.
Proof.
  intros H1 H2. unfold upgrade_embed_positions.
  destruct sinusoidal; [| reflexivity].
  unfold dict_set. rewrite (proj2 (String.eqb_neq _ _) H2).
  destruct (state_dict (name ++ ".embed_positions.weights")%string);
    [| reflexivity].
  unfold dict_del. rewrite (proj2 (String.eqb_neq _ _) H1). reflexivity.
Qed.

Lemma upgrade_output_projection_other (share_input_output_embed : bool)
    (name : string) (state_dict : StateDict) (q : string) :
  q <> (name ++ ".output_projection.weight")%string ->
  q <> (name ++ ".embed_tokens.weight")%string ->
  q <> (name ++ ".embed_out")%string ->
  upgrade_output_projection share_input_output_embed name state_dict q
  = state_dict q.
Proof.
  intros H1 H2 H3. unfold upgrade_output_projection.
  destruct (state_dict (name ++ ".output_projection.weight")%string);
    [reflexivity |].
  destruct share_input_output_embed; cbn [negb].
  - destruct (state_dict (name ++ ".embed_tokens.weight")%string);
      [| reflexivity].
    unfold dict_set. rewrite (proj2 (String.eqb_neq _ _) H1). reflexivity.
  - destruct (state_dict (name ++ ".embed_out")%string); [| reflexivity].
    unfold dict_del, dict_set.
    rewrite (proj2 (String.eqb_neq _ _) H3), (proj2 (String.eqb_neq _ _) H1).
    reflexivity.
Qed.

Lemma upgrade_layer_norms_other (name : string) (num_layers : nat)
    (state_dict : StateDict) (q : string) :
  (forall r, In r (layer_norm_renames name num_layers) ->
             q <> fst r /\ q <> snd r) ->
  upgrade_layer_norms name num_layers state_dict q = state_dict q.
Proof.
  intros H. rewrite upgrade_layer_norms_renames. apply rename_all_other. exact H.
Qed.

Lemma layer_norm_renames_not_fixed (name : string) (num_layers : nat)
    (r : string * string) (suffix : string) :
  In r (layer_norm_renames name num_layers) -> In suffix fixed_suffixes ->
  (name ++ suffix)%string <> fst r /\ (name ++ suffix)%string <> snd r.
Proof.
  intros Hr Hs.
  apply in_layer_norm_renames in Hr as (i & on & m & _ & _ & _ & ->).
  cbn [fst snd]. unfold old_layer_norm_key, new_layer_norm_key.
  split; intros E; symmetry in E; apply (layer_key_not_fixed _ _ _ _ Hs E).
Qed.

Lemma upgrade_layer_norms_fixed (name : string) (num_layers : nat)
    (state_dict : StateDict) (suffix : string) :
  In suffix fixed_suffixes ->
  upgrade_layer_norms name num_layers state_dict (name ++ suffix)%string
  = state_dict (name ++ suffix)%string.
Proof.
  intros Hs. apply upgrade_layer_norms_other. intros r Hr.
  apply (layer_norm_renames_not_fixed name num_layers r suffix Hr Hs).
Qed.

Lemma upgrade_version_Ok (name : string) (state_dict state_dict' : StateDict)
    (cleared : bool) :
  upgrade_version name state_dict = Ok (state_dict', cleared) ->
  (forall q, q <> (name ++ ".version")%string -> state_dict' q = state_dict q)
  /\ state_dict' (name ++ ".version")%string
     = (if cleared then Some [1%R] else state_dict (name ++ ".version")%string)
  /\ exists item,
       get (match state_dict (name ++ ".version")%string with
            | Some value => value
            | None => [1%R]
            end) 0 = Ok item
       /\ (cleared = true <-> (item <= 2)%R).
Proof.
  unfold upgrade_version. intros H. apply bind_Ok in H as (item & Hitem & H).
  destruct (Rle_dec item 2) as [Hle | Hgt]; injection H as <- <-.
  - split; [| split].
    + intros q Hq. unfold dict_set. rewrite (proj2 (String.eqb_neq _ _) Hq).
      reflexivity.
    + unfold dict_set. rewrite String.eqb_refl. reflexivity.
    + exists item. split; [exact Hitem |]. split; auto.
  - split; [| split].
    + reflexivity.
    + reflexivity.
    + exists item. split; [exact Hitem |]. split; [discriminate | contradiction].
Qed.

(** An old layer-norm key is not touched before the loops reach it. *)
Lemma before_layer_norms_other (sinusoidal share_input_output_embed : bool)
    (uninitialized : R) (name : string) (state_dict : StateDict) (q : string) :
  (forall suffix, In suffix fixed_suffixes -> q <> (name ++ suffix)%string) ->
  upgrade_output_projection share_input_output_embed name
    (upgrade_embed_positions sinusoidal uninitialized name state_dict) q
  = state_dict q.
Proof.
  intros H.
  rewrite upgrade_output_projection_other by (apply H; simpl; tauto).
  apply upgrade_embed_positions_other; apply H; simpl; tauto.
Qed.

(** X22.  [upgrade_state_dict_named] moves the old layer-norm entries:
    after it, no key [name.layers.i.layer_norms.{0,1,2}.{weight,bias}] of
    the first [num_layers] layers is left, the value that such a key held
    is under the new key ([self_attn_layer_norm], [encoder_attn_layer_norm],
    [final_layer_norm]), and every entry whose key is none of the keys the
    function names is unchanged. *)
Theorem upgrade_moves_layer_norms (sinusoidal share_input_output_embed : bool)
    (num_layers : nat) (uninitialized : R) (state_dict : StateDict)
    (name : string) (state_dict' : StateDict) (cleared : bool) :
  upgrade_state_dict_named sinusoidal share_input_output_embed num_layers
    uninitialized state_dict name = Ok (state_dict', cleared) ->
  (forall i old_new m,
     i < num_layers -> In old_new layer_norm_map ->
     In m ["weight"; "bias"]%string ->
     state_dict' (old_layer_norm_key name i (fst old_new) m) = None
     /\ forall value,
          state_dict (old_layer_norm_key name i (fst old_new) m) = Some value ->
          state_dict' (new_layer_norm_key name i (snd old_new) m) = Some value)
  /\ (forall q,
        (forall suffix, In suffix fixed_suffixes -> q <> (name ++ suffix)%string) ->
        (forall r, In r (layer_norm_renames name num_layers) ->
                   q <> fst r /\ q <> snd r) ->
        state_dict' q = state_dict q).
Proof.
  unfold upgrade_state_dict_named. intros H.
  apply upgrade_version_Ok in H as (Hother & _ & _).
  set (sd2 := upgrade_output_projection share_input_output_embed name
                (upgrade_embed_positions sinusoidal uninitialized name state_dict))
    in *.
  split.
  - intros i on m Hi Hon Hm.
    assert (Hin : In (old_layer_norm_key name i (fst on) m,
                      new_layer_norm_key name i (snd on) m)
                     (layer_norm_renames name num_layers)).
    { apply in_layer_norm_renames. exists i, on, m. auto. }
    assert (Hv : forall r, In r (layer_norm_renames name num_layers) ->
                 fst r <> (name ++ ".version")%string
                 /\ snd r <> (name ++ ".version")%string).
    { intros r Hr.
      destruct (layer_norm_renames_not_fixed name num_layers r ".version" Hr
                  ltac:(simpl; tauto)) as [H1 H2].
      split; intros E; symmetry in E; auto. }
    destruct (Hv _ Hin) as [Hv1 Hv2]. cbn [fst snd] in Hv1, Hv2.
    rewrite !Hother by assumption. rewrite upgrade_layer_norms_renames. split.
    + apply (rename_all_old _ sd2 _
               (fun r1 r2 H1 H2 =>
                  proj1 (layer_norm_renames_keys name num_layers r1 r2 H1 H2))
               Hin).
    + intros value Hvalue.
      apply (rename_all_moved (layer_norm_renames name num_layers) sd2
               (old_layer_norm_key name i (fst on) m)
               (new_layer_norm_key name i (snd on) m) value).
      * intros r1 r2 H1 H2.
        apply (proj1 (layer_norm_renames_keys name num_layers r1 r2 H1 H2)).
      * intros r Hr E.
        apply (proj2 (proj2 (layer_norm_renames_keys name num_layers r _ Hr Hin))).
        exact E.
      * intros r Hr E.
        apply (proj1 (proj2 (layer_norm_renames_keys name num_layers r _ Hr Hin))).
        exact E.
      * exact Hin.
      * unfold sd2. rewrite before_layer_norms_other; [exact Hvalue |].
        intros suffix Hs E.
        destruct (layer_norm_renames_not_fixed name num_layers _ suffix Hin Hs)
          as [H1 _].
        apply H1. symmetry. exact E.
  - intros q Hfixed Hlayers.
    rewrite Hother by (apply Hfixed; simpl; tauto).
    rewrite upgrade_layer_norms_other by exact Hlayers.
    apply before_layer_norms_other. exact Hfixed.
Qed.

Lemma before_version_fixed (sinusoidal share_input_output_embed : bool)
    (num_layers : nat) (uninitialized : R) (name : string)
    (state_dict : StateDict) :
  upgrade_layer_norms name num_layers
    (upgrade_output_projection share_input_output_embed name
       (upgrade_embed_positions sinusoidal uninitialized name state_dict))
    (name ++ ".version")%string
  = state_dict (name ++ ".version")%string.
Proof.
  rewrite (upgrade_layer_norms_fixed name num_layers _ ".version")
    by (simpl; tauto).
  rewrite upgrade_output_projection_other by fixed_neq.
  apply upgrade_embed_positions_other; fixed_neq.
Qed.

(** X23.  [upgrade_state_dict_named] fails in one case only: when the
    entry [name.version] is an empty tensor, with [IndexError].  Otherwise
    it returns, and it drops [self.layer_norm] exactly when the version
    (taken as 1 when there is no entry) is at most 2; it then records
    version 1. *)
Theorem upgrade_version_outcome (sinusoidal share_input_output_embed : bool)
    (num_layers : nat) (uninitialized : R) (state_dict : StateDict)
    (name : string) :
  let version :=
    match state_dict (name ++ ".version")%string with
    | Some value => value
    | None => [1%R]
    end in
  match upgrade_state_dict_named sinusoidal share_input_output_embed num_layers
          uninitialized state_dict name with
  | Ok (state_dict', cleared) =>
      exists item rest,
        version = item :: rest
        /\ (cleared = true <-> (item <= 2)%R)
        /\ state_dict' (name ++ ".version")%string
           = (if cleared then Some [1%R]
              else state_dict (name ++ ".version")%string)
  | Err e => version = [] /\ e = IndexError
  end.
Proof.
  cbv zeta. unfold upgrade_state_dict_named.
  pose proof (before_version_fixed sinusoidal share_input_output_embed
                num_layers uninitialized name state_dict) as Hv.
  set (sd3 := upgrade_layer_norms name num_layers _) in *.
  destruct (upgrade_version name sd3) as [[sd' c] | e] eqn:H.
  - apply upgrade_version_Ok in H as (_ & H2 & item & Hitem & Hc).
    rewrite Hv in H2, Hitem.
    destruct (state_dict (name ++ ".version")%string) as [[| x rest] |];
      cbn in Hitem; try discriminate Hitem; injection Hitem as <-;
      eexists; eexists; (split; [reflexivity | auto]).
  - unfold upgrade_version in H. cbv zeta in H. rewrite Hv in H.
    destruct (state_dict (name ++ ".version")%string) as [[| x rest] |];
      cbn in H.
    + injection H as <-. auto.
    + destruct (Rle_dec x 2); discriminate.
    + destruct (Rle_dec 1 2); discriminate.
Qed.

Lemma upgrade_carries_output_projection_aux
    (sinusoidal share_input_output_embed : bool)
    (num_layers : nat) (uninitialized : R) (state_dict : StateDict)
    (name : string) (state_dict' : StateDict) (cleared : bool) :
  upgrade_state_dict_named sinusoidal share_input_output_embed num_layers
    uninitialized state_dict name = Ok (state_dict', cleared) ->
  let embed_out_key :=
    if share_input_output_embed then (name ++ ".embed_tokens.weight")%string
    else (name ++ ".embed_out")%string in
  state_dict' (name ++ ".output_projection.weight")%string
  = match state_dict (name ++ ".output_projection.weight")%string with
    | Some value => Some value
    | None => state_dict embed_out_key
    end
  /\ state_dict' embed_out_key
     = (if share_input_output_embed then state_dict embed_out_key
        else match state_dict (name ++ ".output_projection.weight")%string with
             | Some _ => state_dict embed_out_key
             | None => None
             end).
Proof.
  unfold upgrade_state_dict_named. intros H. cbv zeta.
  apply upgrade_version_Ok in H as (Hother & _ & _).
  set (sd1 := upgrade_embed_positions sinusoidal uninitialized name state_dict)
    in *.
  assert (H1 : sd1 (name ++ ".output_projection.weight")%string
               = state_dict (name ++ ".output_projection.weight")%string)
    by (apply upgrade_embed_positions_other; fixed_neq).
  assert (H2 : sd1 (name ++ ".embed_tokens.weight")%string
               = state_dict (name ++ ".embed_tokens.weight")%string)
    by (apply upgrade_embed_positions_other; fixed_neq).
  assert (H3 : sd1 (name ++ ".embed_out")%string
               = state_dict (name ++ ".embed_out")%string)
    by (apply upgrade_embed_positions_other; fixed_neq).
  destruct share_input_output_embed; cbn [negb].
  - rewrite !Hother by fixed_neq.
    rewrite (upgrade_layer_norms_fixed name num_layers _ ".output_projection.weight")
      by (simpl; tauto).
    rewrite (upgrade_layer_norms_fixed name num_layers _ ".embed_tokens.weight")
      by (simpl; tauto).
    rewrite <- H1, <- H2. unfold upgrade_output_projection.
    destruct (sd1 (name ++ ".output_projection.weight")%string) eqn:Eo;
      [rewrite Eo; auto |].
    destruct (sd1 (name ++ ".embed_tokens.weight")%string) eqn:Ee; cbn [negb].
    + unfold dict_set. rewrite String.eqb_refl.
      rewrite (eqb_fixed name ".embed_tokens.weight" ".output_projection.weight")
        by reflexivity.
      rewrite Ee. auto.
    + rewrite Eo, Ee. auto.
  - rewrite !Hother by fixed_neq.
    rewrite (upgrade_layer_norms_fixed name num_layers _ ".output_projection.weight")
      by (simpl; tauto).
    rewrite (upgrade_layer_norms_fixed name num_layers _ ".embed_out")
      by (simpl; tauto).
    rewrite <- H1, <- H3. unfold upgrade_output_projection.
    destruct (sd1 (name ++ ".output_projection.weight")%string) eqn:Eo;
      [rewrite Eo; auto |].
    destruct (sd1 (name ++ ".embed_out")%string) eqn:Ee; cbn [negb].
    + unfold dict_del, dict_set. rewrite !String.eqb_refl.
      rewrite (eqb_fixed name ".output_projection.weight" ".embed_out")
        by reflexivity.
      auto.
    + rewrite Eo, Ee. auto.
Qed.

(** X24.  The output projection is carried over from old checkpoints:
    after [upgrade_state_dict_named] the entry
    [name.output_projection.weight] is the one that was there, and
    otherwise the entry of [name.embed_tokens.weight] (shared embedding) or
    of [name.embed_out]; [embed_out] is then removed, the shared embedding
    stays. *)
Theorem upgrade_carries_output_projection
    (sinusoidal share_input_output_embed : bool)
    (num_layers : nat) (uninitialized : R) (state_dict : StateDict)
    (name : string) (state_dict' : StateDict) (cleared : bool) :
  upgrade_state_dict_named sinusoidal share_input_output_embed num_layers
    uninitialized state_dict name = Ok (state_dict', cleared) ->
  let embed_out_key :=
    if share_input_output_embed then (name ++ ".embed_tokens.weight")%string
    else (name ++ ".embed_out")%string in
  state_dict' (name ++ ".output_projection.weight")%string
  = match state_dict (name ++ ".output_projection.weight")%string with
    | Some value => Some value
    | None => state_dict embed_out_key
    end
  /\ state_dict' embed_out_key
     = (if share_input_output_embed then state_dict embed_out_key
        else match state_dict (name ++ ".output_projection.weight")%string with
             | Some _ => state_dict embed_out_key
             | None => None
             end).
Proof.
  intros H.
  apply (upgrade_carries_output_projection_aux sinusoidal
           share_input_output_embed num_layers uninitialized state_dict name
           state_dict' cleared H).
Qed.

Lemma upgrade_old_state_dict (sinusoidal : bool) (uninitialized : R) :
  exists state_dict' cleared,
    upgrade_state_dict_named sinusoidal false 1 uninitialized old_state_dict
      "decoder"
    = Ok (state_dict', cleared).
Proof.
  unfold upgrade_state_dict_named, upgrade_version. cbv zeta.
  set (sd := upgrade_layer_norms _ _ _).
  assert (E : sd ("decoder" ++ ".version")%string = None)
    by (unfold sd; destruct sinusoidal; reflexivity).
  rewrite E. cbn [get nth_error bind].
  destruct (Rle_dec 1 2); eauto.
Qed.

Lemma upgrade_moves_layer_norms_witness :
  exists state_dict' cleared,
    upgrade_state_dict_named false false 1 0 old_state_dict "decoder"
    = Ok (state_dict', cleared)
    /\ state_dict' "decoder.layers.0.self_attn_layer_norm.weight"%string
       = Some [2%R].
Proof.
  destruct (upgrade_old_state_dict false 0) as (sd' & c & H). exists sd', c.
  split; [exact H |].
  exact (proj2 (proj1 (upgrade_moves_layer_norms false false 1 0 old_state_dict
                         "decoder" sd' c H)
                  0 ("0", "self_attn_layer_norm")%string "weight"%string
                  ltac:(lia) (or_introl eq_refl) (or_introl eq_refl))
               [2%R] eq_refl).
Defined.

Lemma upgrade_carries_output_projection_witness :
  exists state_dict' cleared,
    upgrade_state_dict_named false false 1 0 old_state_dict "decoder"
    = Ok (state_dict', cleared)
    /\ state_dict' "decoder.output_projection.weight"%string = Some [3%R]
    /\ state_dict' "decoder.embed_out"%string = None.
Proof.
  destruct (upgrade_old_state_dict false 0) as (sd' & c & H). exists sd', c.
  split; [exact H |].
  exact (upgrade_carries_output_projection false false 1 0 old_state_dict
           "decoder" sd' c H).
Defined.

(** X25.  Upgrading twice is upgrading once, but for the placeholder of
    the sinusoidal positions: when a state dict that
    [upgrade_state_dict_named] returned is upgraded again, the decision on
    [self.layer_norm] is the same and the state dict comes back with every
    entry as it was, except that, when [embed_positions] is sinusoidal,
    [embed_positions._float_tensor] is set again to a tensor allocated by
    this call ([torch.FloatTensor(1)], whose entry is whatever the memory
    holds and need not be that of the first call). *)
Theorem upgrade_is_idempotent (sinusoidal share_input_output_embed : bool)
    (num_layers : nat) (uninitialized uninitialized' : R) (state_dict : StateDict)
    (name : string) (state_dict' : StateDict) (cleared : bool) :
  upgrade_state_dict_named sinusoidal share_input_output_embed num_layers
    uninitialized state_dict name = Ok (state_dict', cleared) ->
  upgrade_state_dict_named sinusoidal share_input_output_embed num_layers
    uninitialized' state_dict' name
  = Ok (if sinusoidal
        then dict_set (name ++ ".embed_positions._float_tensor")%string
               [uninitialized'] state_dict'
        else state_dict',
        cleared).
Proof.
  intros H.
  pose proof (upgrade_carries_output_projection_aux sinusoidal
                share_input_output_embed num_layers uninitialized state_dict
                name state_dict' cleared H) as Hout.
  pose proof H as H0. unfold upgrade_state_dict_named in H0.
  set (sd1 := upgrade_embed_positions sinusoidal uninitialized name state_dict)
    in *.
  set (sd2 := upgrade_output_projection share_input_output_embed name sd1) in *.
  apply upgrade_version_Ok in H0 as (Hother & Hver & item & Hitem & Hc).
  set (sdA := if sinusoidal
              then dict_set (name ++ ".embed_positions._float_tensor")%string
                     [uninitialized'] state_dict'
              else state_dict').
  assert (HA : forall q,
            q <> (name ++ ".embed_positions._float_tensor")%string ->
            sdA q = state_dict' q).
  { intros q Hq. unfold sdA. destruct sinusoidal; [| reflexivity].
    unfold dict_set.
    destruct (String.eqb_spec q (name ++ ".embed_positions._float_tensor"));
      [contradiction | reflexivity]. }
  (* the first stage finds the old weights gone and stores a new placeholder *)
  assert (E1 : upgrade_embed_positions sinusoidal uninitialized' name state_dict'
               = sdA).
  { unfold upgrade_embed_positions, sdA.
    destruct sinusoidal eqn:Es; [| reflexivity].
    assert (Hw : state_dict' (name ++ ".embed_positions.weights")%string = None).
    { rewrite Hother by fixed_neq.
      rewrite (upgrade_layer_norms_fixed name num_layers _
                 ".embed_positions.weights") by (simpl; tauto).
      unfold sd2. rewrite upgrade_output_projection_other by fixed_neq.
      unfold sd1, upgrade_embed_positions, dict_set.
      rewrite (eqb_fixed name ".embed_positions.weights"
                 ".embed_positions._float_tensor") by reflexivity.
      destruct (state_dict (name ++ ".embed_positions.weights")%string) eqn:E;
        [| exact E].
      unfold dict_del. rewrite String.eqb_refl. reflexivity. }
    rewrite Hw. reflexivity. }
  (* the second stage finds its work done *)
  assert (E2 : upgrade_output_projection share_input_output_embed name sdA = sdA).
  { destruct Hout as [Ho He]. unfold upgrade_output_projection.
    rewrite (HA (name ++ ".output_projection.weight")%string) by fixed_neq.
    destruct (state_dict' (name ++ ".output_projection.weight")%string) eqn:Eo;
      [reflexivity |].
    destruct share_input_output_embed; cbn [negb] in *.
    - rewrite (HA (name ++ ".embed_tokens.weight")%string) by fixed_neq.
      rewrite He.
      destruct (state_dict (name ++ ".output_projection.weight")%string);
        [discriminate Ho |].
      rewrite <- Ho. reflexivity.
    - rewrite (HA (name ++ ".embed_out")%string) by fixed_neq.
      rewrite He.
      destruct (state_dict (name ++ ".output_projection.weight")%string);
        [discriminate Ho | reflexivity]. }
  (* no old layer-norm key is left *)
  assert (E3 : upgrade_layer_norms name num_layers sdA = sdA).
  { rewrite upgrade_layer_norms_renames. apply rename_all_idle. intros r Hr.
    destruct (layer_norm_renames_not_fixed name num_layers r
                ".embed_positions._float_tensor" Hr ltac:(simpl; tauto))
      as [Hf _].
    rewrite HA by (intros E; apply Hf; symmetry; exact E).
    destruct (layer_norm_renames_not_fixed name num_layers r ".version" Hr
                ltac:(simpl; tauto)) as [Hv _].
    rewrite Hother by (intros E; apply Hv; symmetry; exact E).
    rewrite upgrade_layer_norms_renames.
    apply (rename_all_old _ sd2 _
             (fun r1 r2 H1 H2 =>
                proj1 (layer_norm_renames_keys name num_layers r1 r2 H1 H2))
             Hr). }
  unfold upgrade_state_dict_named. rewrite E1, E2, E3.
  unfold upgrade_version. cbv zeta.
  rewrite (HA (name ++ ".version")%string) by fixed_neq. rewrite Hver.
  destruct cleared.
  - cbn. destruct (Rle_dec 1 2) as [_ | Hgt]; [| exfalso; apply Hgt; lra].
    f_equal. f_equal. apply functional_extensionality. intros q. unfold dict_set.
    destruct (String.eqb_spec q (name ++ ".version")) as [-> | _];
      [| reflexivity].
    rewrite (HA (name ++ ".version")%string) by fixed_neq.
    symmetry. exact Hver.
  - remember (upgrade_layer_norms name num_layers sd2 (name ++ ".version")%string)
      as ver eqn:Ev in *.
    destruct ver as [[| x rest] |]; cbn in Hitem |- *.
    + discriminate Hitem.
    + injection Hitem as ->.
      destruct (Rle_dec item 2) as [Hle | _]; [| reflexivity].
      apply Hc in Hle. discriminate Hle.
    + injection Hitem as <-.
      destruct (Rle_dec 1 2) as [Hle | _]; [| reflexivity].
      apply Hc in Hle. discriminate Hle.
Qed.

Lemma upgrade_is_idempotent_witness :
  exists state_dict' cleared,
    upgrade_state_dict_named true false 1 0 old_state_dict "decoder"
    = Ok (state_dict', cleared)
    /\ upgrade_state_dict_named true false 1 7 state_dict' "decoder"
       = Ok (dict_set "decoder.embed_positions._float_tensor" [7%R] state_dict',
             cleared).
Proof.
  destruct (upgrade_old_state_dict true 0) as (sd' & c & H). exists sd', c.
  split; [exact H |].
  exact (upgrade_is_idempotent true false 1 0 7 old_state_dict "decoder" sd' c H).
Defined.
